(** * Timeline state machine and render ordering of the game engine

    A shallow embedding of
      - [TimelineSystem::Update] and [TimelineSystem::ToggleActive]
        (SourceCodes/TimelineSystem.cpp),
      - the [progress] computation shared by the transition callbacks
        (SourceCodes/TimelineBehavior.h),
      - the per-frame entity sort of [Graphics::Update]
        (SourceCodes/Graphics.cpp),
    together with the properties the specification states about them. *)

From Stdlib Require Import ZArith QArith Lqa Floats.SpecFloat.
From stdpp Require Import gmap strings list pretty sorting.

Local Open Scope Z_scope.

(** ** The [float] type of the engine

    Every timer, delay and duration is a C++ [float].  The state machine only
    uses [+=], [<] and [>=] on them, the callbacks also [/] and [std::min]
    against [1.0f].  The operations are kept behind an interface with two
    instances: IEEE-754 binary32 (what the compiled code computes, with NaN
    and rounding) and exact rationals (the arithmetic the specification
    reasons in). *)

Class FloatOps (F : Type) := {
  f_zero : F;              (* 0.0f *)
  f_one : F;               (* 1.0f *)
  f_add : F → F → F;       (* a + b *)
  f_sub : F → F → F;       (* a - b *)
  f_mul : F → F → F;       (* a * b *)
  f_div : F → F → F;       (* a / b *)
  f_lt : F → F → bool;     (* a < b *)
  f_ge : F → F → bool;     (* a >= b *)
}.

(** binary32: 24 bits of precision, exponents below 128. *)
Definition binary32 : Type := spec_float.

#[export] Instance binary32_ops : FloatOps binary32 := {|
  f_zero := S754_zero false;
  f_one := S754_finite false 8388608 (-23);
  f_add := SFadd 24 128;
  f_sub := SFsub 24 128;
  f_mul := SFmul 24 128;
  f_div := SFdiv 24 128;
  f_lt := SFltb;
  f_ge := fun a b => SFleb b a;
|}.

(** Exact arithmetic on rationals. *)
#[export] Instance exact_ops : FloatOps Q := {|
  f_zero := 0%Q;
  f_one := 1%Q;
  f_add := Qplus;
  f_sub := Qminus;
  f_mul := Qmult;
  f_div := Qdiv;
  f_lt := fun a b => negb (Qle_bool b a);
  f_ge := fun a b => Qle_bool b a;
|}.

(** [std::min(a, b)] is [(b < a) ? b : a]. *)
Definition std_min `{FloatOps F} (a b : F) : F := if f_lt b a then b else a.

(** ** Entities and components *)

(** [Framework::Entity]: an unsigned integer handle, compared with [<]. *)
Definition Entity : Type := N.

(** [enum Layer], through its integer value. *)
Definition Layer : Type := Z.

(** The name under which [RegisterTimelineFunction] registered a callback;
    a bound [std::function] is identified with the name of its target. *)
Definition Callback : Type := string.

(** Modelled from the spec: [TimelineComponent] (ComponentList.h is not
    among the sources), with the fields of the data model and the two
    positions the sliding callbacks read.  A callback field holds the name
    of the bound callback, [None] for an empty [std::function]. *)
Record TimelineComponent {F : Type} := {
  Active : bool;
  IsTransitioningIn : bool;
  InternalTimer : F;
  DelayAccumulated : F;
  DelayOutAccumulated : F;
  TransitionInDelay : F;
  TransitionOutDelay : F;
  TransitionDuration : F;
  TransitionIn : option Callback;
  TransitionOut : option Callback;
  TimelineTag : string;
  startPosition : F;
  endPosition : F;
  Variable_1 : F;
  Variable_2 : F;
  Variable_3 : F;
}.
Arguments TimelineComponent : clear implicits.

(** [LayerComponent] and [TransformComponent] (ComponentList.h), with the
    fields Graphics.cpp and TimelineBehavior.h use. *)
Record LayerComponent := {
  layerID : Layer;
  sortID : Z;
}.

Record TransformComponent {F : Type} := {
  position_x : F;
  position_y : F;
}.
Arguments TransformComponent : clear implicits.

(** Field assignments on a [TimelineComponent&]. *)
Section Setters.
Context {F : Type}.
Implicit Type t : TimelineComponent F.

Definition set_Active (b : bool) t : TimelineComponent F :=
  {| Active := b; IsTransitioningIn := IsTransitioningIn t;
     InternalTimer := InternalTimer t; DelayAccumulated := DelayAccumulated t;
     DelayOutAccumulated := DelayOutAccumulated t;
     TransitionInDelay := TransitionInDelay t;
     TransitionOutDelay := TransitionOutDelay t;
     TransitionDuration := TransitionDuration t;
     TransitionIn := TransitionIn t; TransitionOut := TransitionOut t;
     TimelineTag := TimelineTag t;
     startPosition := startPosition t; endPosition := endPosition t;
     Variable_1 := Variable_1 t; Variable_2 := Variable_2 t;
     Variable_3 := Variable_3 t |}.

Definition set_IsTransitioningIn (b : bool) t : TimelineComponent F :=
  {| Active := Active t; IsTransitioningIn := b;
     InternalTimer := InternalTimer t; DelayAccumulated := DelayAccumulated t;
     DelayOutAccumulated := DelayOutAccumulated t;
     TransitionInDelay := TransitionInDelay t;
     TransitionOutDelay := TransitionOutDelay t;
     TransitionDuration := TransitionDuration t;
     TransitionIn := TransitionIn t; TransitionOut := TransitionOut t;
     TimelineTag := TimelineTag t;
     startPosition := startPosition t; endPosition := endPosition t;
     Variable_1 := Variable_1 t; Variable_2 := Variable_2 t;
     Variable_3 := Variable_3 t |}.

Definition set_InternalTimer (x : F) t : TimelineComponent F :=
  {| Active := Active t; IsTransitioningIn := IsTransitioningIn t;
     InternalTimer := x; DelayAccumulated := DelayAccumulated t;
     DelayOutAccumulated := DelayOutAccumulated t;
     TransitionInDelay := TransitionInDelay t;
     TransitionOutDelay := TransitionOutDelay t;
     TransitionDuration := TransitionDuration t;
     TransitionIn := TransitionIn t; TransitionOut := TransitionOut t;
     TimelineTag := TimelineTag t;
     startPosition := startPosition t; endPosition := endPosition t;
     Variable_1 := Variable_1 t; Variable_2 := Variable_2 t;
     Variable_3 := Variable_3 t |}.

Definition set_DelayAccumulated (x : F) t : TimelineComponent F :=
  {| Active := Active t; IsTransitioningIn := IsTransitioningIn t;
     InternalTimer := InternalTimer t; DelayAccumulated := x;
     DelayOutAccumulated := DelayOutAccumulated t;
     TransitionInDelay := TransitionInDelay t;
     TransitionOutDelay := TransitionOutDelay t;
     TransitionDuration := TransitionDuration t;
     TransitionIn := TransitionIn t; TransitionOut := TransitionOut t;
     TimelineTag := TimelineTag t;
     startPosition := startPosition t; endPosition := endPosition t;
     Variable_1 := Variable_1 t; Variable_2 := Variable_2 t;
     Variable_3 := Variable_3 t |}.

Definition set_DelayOutAccumulated (x : F) t : TimelineComponent F :=
  {| Active := Active t; IsTransitioningIn := IsTransitioningIn t;
     InternalTimer := InternalTimer t; DelayAccumulated := DelayAccumulated t;
     DelayOutAccumulated := x;
     TransitionInDelay := TransitionInDelay t;
     TransitionOutDelay := TransitionOutDelay t;
     TransitionDuration := TransitionDuration t;
     TransitionIn := TransitionIn t; TransitionOut := TransitionOut t;
     TimelineTag := TimelineTag t;
     startPosition := startPosition t; endPosition := endPosition t;
     Variable_1 := Variable_1 t; Variable_2 := Variable_2 t;
     Variable_3 := Variable_3 t |}.

Definition set_TransitionIn (cb : option Callback) t : TimelineComponent F :=
  {| Active := Active t; IsTransitioningIn := IsTransitioningIn t;
     InternalTimer := InternalTimer t; DelayAccumulated := DelayAccumulated t;
     DelayOutAccumulated := DelayOutAccumulated t;
     TransitionInDelay := TransitionInDelay t;
     TransitionOutDelay := TransitionOutDelay t;
     TransitionDuration := TransitionDuration t;
     TransitionIn := cb; TransitionOut := TransitionOut t;
     TimelineTag := TimelineTag t;
     startPosition := startPosition t; endPosition := endPosition t;
     Variable_1 := Variable_1 t; Variable_2 := Variable_2 t;
     Variable_3 := Variable_3 t |}.

Definition set_TransitionOut (cb : option Callback) t : TimelineComponent F :=
  {| Active := Active t; IsTransitioningIn := IsTransitioningIn t;
     InternalTimer := InternalTimer t; DelayAccumulated := DelayAccumulated t;
     DelayOutAccumulated := DelayOutAccumulated t;
     TransitionInDelay := TransitionInDelay t;
     TransitionOutDelay := TransitionOutDelay t;
     TransitionDuration := TransitionDuration t;
     TransitionIn := TransitionIn t; TransitionOut := cb;
     TimelineTag := TimelineTag t;
     startPosition := startPosition t; endPosition := endPosition t;
     Variable_1 := Variable_1 t; Variable_2 := Variable_2 t;
     Variable_3 := Variable_3 t |}.
End Setters.

(** ** The world the systems run in *)

(** Modelled from the spec: the global [engineState] (EngineState.h is not
    among the sources), as far as [Update] reads it: the play-mode flag
    behind [IsPlay()] and the visibility map indexed by layer. *)
Record EngineState := {
  IsPlay : bool;
  layerVisibility : Layer → bool;
}.

(** Modelled from the spec: the state behind the global [ecsInterface]
    (Coordinator.h and System.h are not among the sources): the component
    arrays the timeline system touches, addressed by entity, the per-entity
    tag storage, and the member set [mEntities] of the timeline system in
    iteration order. *)
Record World {F : Type} := {
  engineState : EngineState;
  mEntities : list Entity;
  timelines : gmap Entity (TimelineComponent F);
  transforms : gmap Entity (TransformComponent F);
  layers : gmap Entity LayerComponent;
  tags : gmap Entity (list string);
}.
Arguments World : clear implicits.

Section WorldOps.
Context {F : Type}.
Implicit Type w : World F.

Definition with_timelines (m : gmap Entity (TimelineComponent F)) w : World F :=
  {| engineState := engineState w; mEntities := mEntities w;
     timelines := m; transforms := transforms w;
     layers := layers w; tags := tags w |}.

Definition with_transforms (m : gmap Entity (TransformComponent F)) w : World F :=
  {| engineState := engineState w; mEntities := mEntities w;
     timelines := timelines w; transforms := m;
     layers := layers w; tags := tags w |}.

Definition with_tags (m : gmap Entity (list string)) w : World F :=
  {| engineState := engineState w; mEntities := mEntities w;
     timelines := timelines w; transforms := transforms w;
     layers := layers w; tags := m |}.

(** A write through the [timeline] reference of [entity]. *)
Definition store (entity : Entity) (t : TimelineComponent F) w : World F :=
  with_timelines (<[entity := t]> (timelines w)) w.

Definition tagsOf w (entity : Entity) : list string :=
  default [] (tags w !! entity).

(** Modelled from the spec: [Coordinator::HasTag] and [Coordinator::AddTag]
    (Coordinator.h is not part of the sources), the "per-entity tag
    storage" of the external interfaces: a membership test and an
    attachment of one more tag. *)
Definition HasTag w (entity : Entity) (tag : string) : bool :=
  bool_decide (tag ∈ tagsOf w entity).

Definition AddTag w (entity : Entity) (tag : string) : World F :=
  with_tags (<[entity := tagsOf w entity ++ [tag]]> (tags w)) w.

(** Lines 60-63: [if (!HasTag(entity, tag)) AddTag(entity, tag);] *)
Definition ensureTag (entity : Entity) (tag : string) w : World F :=
  if negb (HasTag w entity tag) then AddTag w entity tag else w.
End WorldOps.

(** One call of a transition callback: which one, on which entity, with
    which timer value. *)
Definition Invocation (F : Type) : Type := Callback * Entity * F.

(** ** TimelineSystem *)

Section TimelineSystem.
Context `{FloatOps F}.

(** The registered callbacks.  A callback has the whole ECS at hand, so it
    is a transformer of the world; it fails where the C++ code would hit a
    failed [GetComponent] precondition. *)
Variable registry : Callback → Entity → F → World F → option (World F).

(** [if (cb) cb(entity, timer);] *)
Definition invoke (cb : option Callback) (entity : Entity) (timer : F)
    (w : World F) : option (World F * list (Invocation F)) :=
  match cb with
  | Some name =>
      w' ← registry name entity timer w;
      Some (w', [(name, entity, timer)])
  | None => Some (w, [])
  end.

(** Lines 84-89, "Check if transition in is complete", through the
    reference [timeline], read again now that the callback has run. *)
Definition completeIn (entity : Entity) (w : World F) : option (World F) :=
  timeline ← timelines w !! entity;
  if f_ge (InternalTimer timeline) (TransitionDuration timeline) then
    let timeline := set_IsTransitioningIn false timeline in
    let timeline := set_InternalTimer f_zero timeline in
    let timeline := set_DelayAccumulated f_zero timeline in
    Some (store entity timeline w)
  else Some w.

(** Lines 106-109, "Check if transition out is complete". *)
Definition completeOut (entity : Entity) (w : World F) : option (World F) :=
  timeline ← timelines w !! entity;
  if f_ge (InternalTimer timeline) (TransitionDuration timeline) then
    Some (store entity (set_Active false timeline) w)
  else Some w.

(** Lines 70-90: the transition-in branch, entered with the component
    [timeline] of [entity] as it is stored in [w]. *)
Definition transitionIn (deltaTime : F) (entity : Entity)
    (timeline : TimelineComponent F) (w : World F)
    : option (World F * list (Invocation F)) :=
  let timeline :=
    set_DelayAccumulated (f_add (DelayAccumulated timeline) deltaTime) timeline in
  let w := store entity timeline w in
  if f_lt (DelayAccumulated timeline) (TransitionInDelay timeline) then
    Some (w, [])
  else
    let timeline :=
      set_InternalTimer (f_add (InternalTimer timeline) deltaTime) timeline in
    let w := store entity timeline w in
    '(w, calls) ← invoke (TransitionIn timeline) entity (InternalTimer timeline) w;
    w ← completeIn entity w;
    Some (w, calls).

(** Lines 92-110: the transition-out branch. *)
Definition transitionOut (deltaTime : F) (entity : Entity)
    (timeline : TimelineComponent F) (w : World F)
    : option (World F * list (Invocation F)) :=
  let timeline :=
    set_DelayOutAccumulated (f_add (DelayOutAccumulated timeline) deltaTime) timeline in
  let w := store entity timeline w in
  if f_lt (DelayOutAccumulated timeline) (TransitionOutDelay timeline) then
    Some (w, [])
  else
    let timeline :=
      set_InternalTimer (f_add (InternalTimer timeline) deltaTime) timeline in
    let w := store entity timeline w in
    '(w, calls) ← invoke (TransitionOut timeline) entity (InternalTimer timeline) w;
    w ← completeOut entity w;
    Some (w, calls).

(** Lines 50-110: the body of the loop over [mEntities].  [GetComponent]
    on a component the entity does not have is a failed precondition:
    the run stops with [None]. *)
Definition updateEntity (deltaTime : F) (entity : Entity) (w : World F)
    : option (World F * list (Invocation F)) :=
  timeline ← timelines w !! entity;
  _ ← transforms w !! entity;
  layerComponent ← layers w !! entity;
  if negb (layerVisibility (engineState w) (layerID layerComponent)) then
    Some (w, [])
  else
    let w := ensureTag entity (TimelineTag timeline) w in
    if negb (Active timeline) then Some (w, [])
    else if IsTransitioningIn timeline then
      transitionIn deltaTime entity timeline w
    else
      transitionOut deltaTime entity timeline w.

(** [for (auto const& entity : mEntities)], over the members present when
    the loop starts. *)
Fixpoint forEntities (deltaTime : F) (entities : list Entity) (w : World F)
    : option (World F * list (Invocation F)) :=
  match entities with
  | [] => Some (w, [])
  | entity :: rest =>
      '(w, calls) ← updateEntity deltaTime entity w;
      '(w, calls') ← forEntities deltaTime rest w;
      Some (w, calls ++ calls')
  end.

(** [TimelineSystem::Update]: the world after the frame and the callbacks
    invoked during it, in order. *)
Definition Update (deltaTime : F) (w : World F)
    : option (World F * list (Invocation F)) :=
  if negb (IsPlay (engineState w)) then Some (w, [])
  else forEntities deltaTime (mEntities w) w.

(** A run of frames, one [Update] per [deltaTime]. *)
Fixpoint frames (deltaTimes : list F) (w : World F)
    : option (World F * list (Invocation F)) :=
  match deltaTimes with
  | [] => Some (w, [])
  | deltaTime :: rest =>
      '(w, calls) ← Update deltaTime w;
      '(w, calls') ← frames rest w;
      Some (w, calls ++ calls')
  end.
End TimelineSystem.

(** What a call wrote to [std::cout] and [std::cerr]. *)
Record Output := {
  cout : list string;
  cerr : list string;
}.

Definition newline : string := String (Ascii.ascii_of_nat 10) EmptyString.

Section ToggleActive.
Context {F : Type}.

Definition activatedMessage (TimelineTag : string) (entity : Entity) : string :=
  "Timeline with tag '" +:+ TimelineTag +:+ "' activated for entity "
    +:+ pretty entity +:+ "." +:+ newline.

Definition notFoundWarning (TimelineTag : string) : string :=
  "Warning: No timeline with tag '" +:+ TimelineTag
    +:+ "' found to activate." +:+ newline.

(** Lines 118-125: the loop, threading the world, the [activated] flag and
    the lines written to [std::cout]. *)
Fixpoint toggleLoop (tag : string) (entities : list Entity)
    (w : World F) (activated : bool) (out : list string)
    : option (World F * bool * list string) :=
  match entities with
  | [] => Some (w, activated, out)
  | entity :: rest =>
      timeline ← timelines w !! entity;
      if bool_decide (TimelineTag timeline = tag) then
        toggleLoop tag rest (store entity (set_Active true timeline) w) true
          (out ++ [activatedMessage tag entity])
      else toggleLoop tag rest w activated out
  end.

(** What the loop does to the component [t] of [entity]: activated when
    the entity is among the tracked [entities] and carries the tag. *)
Definition toggled (tag : string) (entities : list Entity) (entity : Entity)
    (t : TimelineComponent F) : TimelineComponent F :=
  if bool_decide (entity ∈ entities ∧ TimelineTag t = tag)
  then set_Active true t else t.

(** Every tracked entity has a [TimelineComponent]; the signature of the
    system is there to guarantee it. *)
Definition tracked_have_timeline (w : World F) : Prop :=
  Forall (λ entity, is_Some (timelines w !! entity)) (mEntities w).

(** [TimelineSystem::ToggleActive]. *)
Definition ToggleActive (TimelineTag : string) (w : World F)
    : option (World F * Output) :=
  '(w', activated, out) ← toggleLoop TimelineTag (mEntities w) w false [];
  Some (w', {| cout := out;
               cerr := if negb activated then [notFoundWarning TimelineTag] else [] |}).
End ToggleActive.

(** ** The state machine of the specification

    The per-frame transition rules of the specification (section 4.4, rules
    1, 3 and 4), on one component and without the callbacks: what a frame
    does to the timeline of an entity whose callbacks leave the timeline
    alone.  [Update] is compared with it below. *)

Section StateMachine.
Context `{FloatOps F}.

Definition stepIn (deltaTime : F) (t : TimelineComponent F) : TimelineComponent F :=
  let t := set_DelayAccumulated (f_add (DelayAccumulated t) deltaTime) t in
  if f_lt (DelayAccumulated t) (TransitionInDelay t) then t
  else
    let t := set_InternalTimer (f_add (InternalTimer t) deltaTime) t in
    if f_ge (InternalTimer t) (TransitionDuration t) then
      set_DelayAccumulated f_zero
        (set_InternalTimer f_zero (set_IsTransitioningIn false t))
    else t.

Definition stepOut (deltaTime : F) (t : TimelineComponent F) : TimelineComponent F :=
  let t := set_DelayOutAccumulated (f_add (DelayOutAccumulated t) deltaTime) t in
  if f_lt (DelayOutAccumulated t) (TransitionOutDelay t) then t
  else
    let t := set_InternalTimer (f_add (InternalTimer t) deltaTime) t in
    if f_ge (InternalTimer t) (TransitionDuration t) then set_Active false t
    else t.

Definition stepTimeline (deltaTime : F) (t : TimelineComponent F)
    : TimelineComponent F :=
  if negb (Active t) then t
  else if IsTransitioningIn t then stepIn deltaTime t
  else stepOut deltaTime t.

(** The component after a run of frames. *)
Definition runTimeline (deltaTimes : list F) (t : TimelineComponent F)
    : TimelineComponent F :=
  foldl (λ t deltaTime, stepTimeline deltaTime t) t deltaTimes.

(** The callback the state machine invokes in a frame, if any, with the
    timer value it passes. *)
Definition invokedBy (deltaTime : F) (entity : Entity) (t : TimelineComponent F)
    : list (Invocation F) :=
  if negb (Active t) then []
  else if IsTransitioningIn t then
    if f_lt (f_add (DelayAccumulated t) deltaTime) (TransitionInDelay t) then []
    else match TransitionIn t with
         | Some name => [(name, entity, f_add (InternalTimer t) deltaTime)]
         | None => []
         end
  else
    if f_lt (f_add (DelayOutAccumulated t) deltaTime) (TransitionOutDelay t) then []
    else match TransitionOut t with
         | Some name => [(name, entity, f_add (InternalTimer t) deltaTime)]
         | None => []
         end.
End StateMachine.

(** The sum of the frame times of a run, in exact arithmetic. *)
Definition total (deltaTimes : list Q) : Q := foldr Qplus 0%Q deltaTimes.

(** ** Worlds and callbacks the properties speak about *)

Section Assumptions.
Context `{FloatOps F}.
Implicit Types (w : World F) (registry : Callback → Entity → F → World F → option (World F)).

(** Whether the loop gets past the visibility test for [entity]. *)
Definition visible w (entity : Entity) : bool :=
  match layers w !! entity with
  | Some layerComponent => layerVisibility (engineState w) (layerID layerComponent)
  | None => false
  end.

(** The entity has the three components the loop fetches. *)
Definition has_components w (entity : Entity) : Prop :=
  is_Some (timelines w !! entity) ∧ is_Some (transforms w !! entity)
  ∧ is_Some (layers w !! entity).

(** Play mode, a member set without repetition (it is a [std::set]), and
    the three components for every member. *)
Definition well_formed w : Prop :=
  IsPlay (engineState w) = true ∧ NoDup (mEntities w)
  ∧ ∀ entity, entity ∈ mEntities w → has_components w entity.

(** What a frame keeps of a world when the callbacks only draw. *)
Definition same_frame w w' : Prop :=
  layers w' = layers w ∧ engineState w' = engineState w
  ∧ mEntities w' = mEntities w ∧ dom (transforms w') = dom (transforms w).

(** Callbacks that only produce a visual effect: called on an entity that
    has its timeline and its transform, they return, and they leave the
    timelines, the layers, the engine state and the member set as they are
    and remove no transform. *)
Definition visual_only registry : Prop :=
  ∀ name entity timer w,
    is_Some (timelines w !! entity) → is_Some (transforms w !! entity) →
    ∃ w', registry name entity timer w = Some w'
      ∧ timelines w' = timelines w ∧ same_frame w w'.

(** Callbacks that, called on another entity, leave the timeline of
    [entity] alone. *)
Definition keeps_timeline_of registry (entity : Entity) : Prop :=
  ∀ name other timer w w',
    other ≠ entity → registry name other timer w = Some w' →
    timelines w' !! entity = timelines w !! entity.

(** The timeline component of [entity] after a run of frames. *)
Definition timelineAfter registry (deltaTimes : list F) (entity : Entity) w
    : option (TimelineComponent F) :=
  '(w', _) ← frames registry deltaTimes w; timelines w' !! entity.
End Assumptions.

(** ** Transition callbacks (TimelineBehavior.h) *)

Section Callbacks.
Context `{FloatOps F}.

(** [Lerp(a, b, t)]. *)
Definition Lerp (a b t : F) : F := f_add a (f_mul t (f_sub b a)).

(** The first two statements of every sliding callback:
    [progress = timer / timeline.TransitionDuration;
     progress = std::min(progress, 1.0f);] *)
Definition progress (timer duration : F) : F :=
  std_min (f_div timer duration) f_one.

(** [SlideOut], registered as "SlideOut". *)
Definition SlideOut (entity : Entity) (timer : F) (w : World F)
    : option (World F) :=
  transform ← transforms w !! entity;
  timeline ← timelines w !! entity;
  let progress := progress timer (TransitionDuration timeline) in
  let transform :=
    {| position_x := Lerp (startPosition timeline) (endPosition timeline) progress;
       position_y := position_y transform |} in
  let w := with_transforms (<[entity := transform]> (transforms w)) w in
  if f_ge progress f_one then
    let timeline := set_IsTransitioningIn false timeline in
    let timeline := set_InternalTimer f_zero timeline in
    Some (store entity timeline w)
  else Some w.

(** [ScaleUpEvent], registered as "ScaleUp": it fetches the transform and
    does nothing with it. *)
Definition ScaleUpEvent (entity : Entity) (timer : F) (w : World F)
    : option (World F) :=
  _ ← transforms w !! entity; Some w.

(** A registry with [SlideOut] and [ScaleUpEvent] under their registered
    names; every other name stands for a callback without effect on the
    modelled components. *)
Definition slideRegistry (name : Callback) (entity : Entity) (timer : F)
    (w : World F) : option (World F) :=
  if bool_decide (name = "SlideOut") then SlideOut entity timer w
  else if bool_decide (name = "ScaleUp") then ScaleUpEvent entity timer w
  else Some w.

(** The same registry without [SlideOut]. *)
Definition scaleRegistry (name : Callback) (entity : Entity) (timer : F)
    (w : World F) : option (World F) :=
  if bool_decide (name = "ScaleUp") then ScaleUpEvent entity timer w
  else Some w.
End Callbacks.

(** ** Graphics: the order in which entities are drawn *)

Module Graphics.

(** The lambda passed to [std::sort] (lines 288-304).  [GetComponent] fails
    on an entity without a [LayerComponent]. *)
Definition compare (layers : gmap Entity LayerComponent) (a b : Entity)
    : option bool :=
  layerA ← layers !! a;
  layerB ← layers !! b;
  if bool_decide (layerID layerA ≠ layerID layerB) then
    Some (layerID layerA <? layerID layerB)
  else if bool_decide (sortID layerA ≠ sortID layerB) then
    Some (sortID layerA <? sortID layerB)
  else Some (a <? b)%N.

(** [std::sort] with a comparator, as a sort by insertion: the comparator
    is only called when there are two elements to compare. *)
Fixpoint insert (comp : Entity → Entity → option bool) (x : Entity)
    (sorted : list Entity) : option (list Entity) :=
  match sorted with
  | [] => Some [x]
  | y :: rest =>
      before ← comp x y;
      if before : bool then Some (x :: y :: rest)
      else rest' ← insert comp x rest; Some (y :: rest')
  end.

Fixpoint std_sort (comp : Entity → Entity → option bool) (l : list Entity)
    : option (list Entity) :=
  match l with
  | [] => Some []
  | x :: rest => sorted ← std_sort comp rest; insert comp x sorted
  end.

(** Lines 285-304 of [Graphics::Update]: [sortedEntities] after the
    assignment from [mEntities] and the sort. *)
Definition sortedEntities (layers : gmap Entity LayerComponent)
    (mEntities : list Entity) : option (list Entity) :=
  std_sort (compare layers) mEntities.

(** The key an entity is ordered by, and the lexicographic order on keys. *)
Definition key (layers : gmap Entity LayerComponent) (a : Entity)
    : option (Z * Z * N) :=
  layer ← layers !! a; Some (layerID layer, sortID layer, a).

Definition key_lt (k1 k2 : Z * Z * N) : Prop :=
  let '(l1, s1, a1) := k1 in
  let '(l2, s2, a2) := k2 in
  l1 < l2 ∨ (l1 = l2 ∧ (s1 < s2 ∨ (s1 = s2 ∧ (a1 < a2)%N))).

(** [a] is drawn before [b]. *)
Definition before (layers : gmap Entity LayerComponent) (a b : Entity) : Prop :=
  match key layers a, key layers b with
  | Some ka, Some kb => key_lt ka kb
  | _, _ => False
  end.

#[global] Instance key_lt_dec k1 k2 : Decision (key_lt k1 k2).
Proof. destruct k1 as [[? ?] ?], k2 as [[? ?] ?]. unfold key_lt. apply _. Defined.

#[global] Instance before_dec layers a b : Decision (before layers a b).
Proof. unfold before. destruct (key layers a), (key layers b); apply _. Defined.

(** What [std::sort] promises about its result, whatever algorithm it
    runs: no element compares less than an element placed before it. *)
Definition sorted_by (comp : Entity → Entity → option bool) (l : list Entity)
    : Prop :=
  StronglySorted (λ a b, comp b a = Some false) l.

End Graphics.

(** ** Concrete worlds *)

Definition b32 (m : positive) (e : Z) : binary32 := S754_finite false m e.

Definition seconds_0_5 : binary32 := b32 8388608 (-24).
Definition seconds_1 : binary32 := b32 8388608 (-23).
Definition seconds_2 : binary32 := b32 8388608 (-22).
Definition seconds_3 : binary32 := b32 12582912 (-22).

Section Scenario.
Context `{FloatOps F}.

(** The timeline of the scenarios: one second of delay, two seconds of
    transition, nothing accumulated yet. *)
Definition bossTimeline : TimelineComponent F := {|
  Active := true;
  IsTransitioningIn := true;
  InternalTimer := f_zero;
  DelayAccumulated := f_zero;
  DelayOutAccumulated := f_zero;
  TransitionInDelay := f_one;
  TransitionOutDelay := f_zero;
  TransitionDuration := f_add f_one f_one;
  TransitionIn := Some "ScaleUp";
  TransitionOut := Some "FadeOut";
  TimelineTag := "Boss";
  startPosition := f_zero;
  endPosition := f_zero;
  Variable_1 := f_zero;
  Variable_2 := f_zero;
  Variable_3 := f_zero;
|}.

Definition origin : TransformComponent F :=
  {| position_x := f_zero; position_y := f_zero |}.

(** A world with entity 7 alone, on layer 2. *)
Definition bossWorld (state : EngineState) (timeline : TimelineComponent F)
    : World F := {|
  engineState := state;
  mEntities := [7%N];
  timelines := {[ 7%N := timeline ]};
  transforms := {[ 7%N := origin ]};
  layers := {[ 7%N := {| layerID := 2; sortID := 0 |} ]};
  tags := ∅;
|}.
End Scenario.

Definition playing : EngineState :=
  {| IsPlay := true; layerVisibility := λ _, true |}.

Definition editing : EngineState :=
  {| IsPlay := false; layerVisibility := λ _, true |}.

(** ** Further definitions: tags, activation by tag, invocations *)

Section TimelineExtras.
Context `{FloatOps F}.

(** Callbacks that leave the tag storage alone. *)
Definition keeps_tags
    (registry : Callback → Entity → F → World F → option (World F)) : Prop :=
  ∀ name entity timer w w',
    registry name entity timer w = Some w' → tags w' = tags w.

(** The tags of an entity once lines 60-63 have run for it with [tag]. *)
Definition tagged (tag : string) (l : list string) : list string :=
  if bool_decide (tag ∈ l) then l else l ++ [tag].

(** Whether the loop of [ToggleActive] activates [entity]: its component
    carries the tag. *)
Definition carries (tag : string) (w : World F) (entity : Entity) : bool :=
  bool_decide (TimelineTag <$> timelines w !! entity = Some tag).

(** The callbacks the state machine invokes for one entity over a run of
    frames. *)
Fixpoint invocationsOf (deltaTimes : list F) (entity : Entity)
    (t : TimelineComponent F) : list (Invocation F) :=
  match deltaTimes with
  | [] => []
  | deltaTime :: rest =>
      invokedBy deltaTime entity t
        ++ invocationsOf rest entity (stepTimeline deltaTime t)
  end.

(** The invocations of a run that are made for [entity]. *)
Definition callsFor (entity : Entity) (calls : list (Invocation F))
    : list (Invocation F) :=
  filter (λ c, c.1.2 = entity) calls.
End TimelineExtras.

(** ** Further callbacks (TimelineBehavior.h) *)

Section MoreCallbacks.
Context `{FloatOps F}.

(** [Credits], registered as "CreditsY". *)
Definition Credits (entity : Entity) (timer : F) (w : World F)
    : option (World F) :=
  transform ← transforms w !! entity;
  timeline ← timelines w !! entity;
  let progress := progress timer (TransitionDuration timeline) in
  let transform :=
    {| position_x := position_x transform;
       position_y := Lerp (startPosition timeline) (endPosition timeline) progress |} in
  if f_ge progress f_one then
    let timeline := set_InternalTimer f_zero timeline in
    let transform :=
      {| position_x := position_x transform;
         position_y := startPosition timeline |} in
    let timeline := set_IsTransitioningIn true timeline in
    Some (store entity timeline
            (with_transforms (<[entity := transform]> (transforms w)) w))
  else
    Some (with_transforms (<[entity := transform]> (transforms w)) w).

(** The registered callbacks among those modelled, under the names
    [RegisterTimelineEvents] gives them; every other name stands for a
    callback without effect on the modelled components. *)
Definition behaviorRegistry (name : Callback) (entity : Entity) (timer : F)
    (w : World F) : option (World F) :=
  if bool_decide (name = "SlideOut") then SlideOut entity timer w
  else if bool_decide (name = "CreditsY") then Credits entity timer w
  else if bool_decide (name = "ScaleUp") then ScaleUpEvent entity timer w
  else Some w.
End MoreCallbacks.

(** An active timeline in its out phase whose [TransitionOut] is
    "SlideOut", with a positive duration. *)
Definition sliding_out (t : TimelineComponent Q) : Prop :=
  Active t = true ∧ IsTransitioningIn t = false
  ∧ TransitionOut t = Some "SlideOut" ∧ (0 < TransitionDuration t)%Q.

(** An active timeline in its in phase whose [TransitionIn] is "CreditsY",
    with a positive duration. *)
Definition rolling_credits (t : TimelineComponent Q) : Prop :=
  Active t = true ∧ IsTransitioningIn t = true
  ∧ TransitionIn t = Some "CreditsY" ∧ (0 < TransitionDuration t)%Q.

(** ** Graphics: paths (Graphics.cpp, lines 3744-3773) *)

Section BasicString.
Context {CharT : Type} `{EqDecision CharT}.

(** [s.find_last_of(chars)]: the position of the last character of [s]
    that is one of [chars]; [None] stands for [npos]. *)
Fixpoint find_last_of (chars s : list CharT) : option nat :=
  match s with
  | [] => None
  | c :: rest =>
      match find_last_of chars rest with
      | Some pos => Some (S pos)
      | None => if bool_decide (c ∈ chars) then Some 0%nat else None
      end
  end.

(** [s.substr(pos, len)], for [pos] within the string; both callers pass
    [pos = 0]. *)
Definition substr (s : list CharT) (pos len : nat) : list CharT :=
  take len (drop pos s).

(** The loop of [ExtractParentDirectory], with the number of iterations
    that are left. *)
Fixpoint parentLoop (chars : list CharT) (iterations : nat)
    (result : list CharT) : list CharT :=
  match iterations with
  | O => result
  | S iterations =>
      match find_last_of chars result with
      | Some lastSlash => parentLoop chars iterations (substr result 0 lastSlash)
      | None => result
      end
  end.

(** How many characters of [s] are among [chars]. *)
Definition occurrences (chars s : list CharT) : nat :=
  length (filter (λ c, c ∈ chars) s).
End BasicString.

(** The characters of the literal ["/\\"]. *)
Definition slashes : list Ascii.ascii := String.list_ascii_of_string "/\".

(** [Graphics::ExtractBasePath]. *)
Definition ExtractBasePath (baseFilePath : list Ascii.ascii) : list Ascii.ascii :=
  match find_last_of slashes baseFilePath with
  | Some lastSlash => substr baseFilePath 0 lastSlash
  | None => String.list_ascii_of_string "."
  end.

(** A [wchar_t], by its code. *)
Definition wchar_t : Type := N.

(** The characters of the literal [L"/\\"]. *)
Definition wslashes : list wchar_t := [47%N; 92%N].

(** [Graphics::ExtractParentDirectory]: [for (int i = 0; i < levels; ++i)]
    runs [levels] times, and not at all for [levels <= 0]. *)
Definition ExtractParentDirectory (directory : list wchar_t) (levels : Z)
    : list wchar_t :=
  parentLoop wslashes (Z.to_nat levels) directory.

(** ** Graphics: the texture rectangle of an animation frame
    (Graphics.cpp, lines 3429-3447) *)

(** The conversion of an [int] to [float]. *)
Class IntToFloat (F : Type) := f_of_int : Z → F.

#[export] Instance binary32_of_int : IntToFloat binary32 :=
  λ i, binary_normalize 24 128 i 0 false.




Section Animation.
Context `{FloatOps F} `{IntToFloat F}.

End Animation.

(** Reduction of the field accessors and setters of a timeline. *)
Ltac fields :=
  cbn [Active IsTransitioningIn InternalTimer DelayAccumulated
       DelayOutAccumulated TransitionInDelay TransitionOutDelay
       TransitionDuration TransitionIn TransitionOut TimelineTag
       set_Active set_IsTransitioningIn set_InternalTimer
       set_DelayAccumulated set_DelayOutAccumulated].

(** ** Further concrete timelines *)

(** A timeline in its out phase that slides from 2400 to 800 within two
    seconds (the positions the comments of [SlideOut] give as an
    example). *)
Definition slidingTimeline : TimelineComponent Q := {|
  Active := true;
  IsTransitioningIn := false;
  InternalTimer := 0;
  DelayAccumulated := 0;
  DelayOutAccumulated := 0;
  TransitionInDelay := 0;
  TransitionOutDelay := 0;
  TransitionDuration := 2;
  TransitionIn := None;
  TransitionOut := Some "SlideOut";
  TimelineTag := "Banner";
  startPosition := 2400;
  endPosition := 800;
  Variable_1 := 0;
  Variable_2 := 0;
  Variable_3 := 0;
|}%Q.

(** A timeline in its in phase that scrolls from 1200 to 600 within two
    seconds (the positions the comments of [Credits] give as an example). *)
Definition creditsTimeline : TimelineComponent Q := {|
  Active := true;
  IsTransitioningIn := true;
  InternalTimer := 0;
  DelayAccumulated := 0;
  DelayOutAccumulated := 0;
  TransitionInDelay := 0;
  TransitionOutDelay := 0;
  TransitionDuration := 2;
  TransitionIn := Some "CreditsY";
  TransitionOut := None;
  TimelineTag := "Credits";
  startPosition := 1200;
  endPosition := 600;
  Variable_1 := 0;
  Variable_2 := 0;
  Variable_3 := 0;
|}%Q.

(** ** Callbacks that write their own entity *)

Section OwnEntity.
Context `{FloatOps F}.
Implicit Types (w : World F) (t : TimelineComponent F).

(** Callbacks that write the components of the entity they are called for
    and nothing else of what the timeline system reads.  Called on an
    entity that has its timeline and its transform, they return; they leave
    the layers, the engine state, the member set and the timelines of the
    other entities as they are, and remove neither a transform nor the
    timeline of their entity.  The timeline of their own entity they may
    write, as [SlideOut] and [Credits] do. *)
Definition own_entity_only
    (registry : Callback → Entity → F → World F → option (World F)) : Prop :=
  ∀ name entity timer w,
    is_Some (timelines w !! entity) → is_Some (transforms w !! entity) →
    ∃ w', registry name entity timer w = Some w'
      ∧ same_frame w w'
      ∧ is_Some (timelines w' !! entity)
      ∧ ∀ other, other ≠ entity → timelines w' !! other = timelines w !! other.

(** A callback that leaves the timeline of [entity] as it is. *)
Definition keeps_own_timeline
    (registry : Callback → Entity → F → World F → option (World F))
    (name : Callback) (entity : Entity) : Prop :=
  ∀ timer w w', registry name entity timer w = Some w' →
    timelines w' !! entity = timelines w !! entity.

(** What the completion check of lines 84-89 makes of a component. *)
Definition completedIn t : TimelineComponent F :=
  if f_ge (InternalTimer t) (TransitionDuration t)
  then set_DelayAccumulated f_zero
         (set_InternalTimer f_zero (set_IsTransitioningIn false t))
  else t.

(** What the completion check of lines 106-109 makes of a component. *)
Definition completedOut t : TimelineComponent F :=
  if f_ge (InternalTimer t) (TransitionDuration t) then set_Active false t
  else t.

(** The invocation of the callback [cb], if one is bound. *)
Definition invocation (cb : option Callback) (entity : Entity) (timer : F)
    : list (Invocation F) :=
  match cb with
  | Some name => [(name, entity, timer)]
  | None => []
  end.
End OwnEntity.

(** ** The callbacks bound to a timeline *)

Section BoundCallbacks.
Context `{FloatOps F}.

(** The callback of the phase a timeline is in. *)
Definition phaseCallback (t : TimelineComponent F) : option Callback :=
  if IsTransitioningIn t then TransitionIn t else TransitionOut t.

(** The callbacks bound to the timeline [t] of [entity] leave that
    timeline as it is. *)
Definition bound_callbacks_keep
    (registry : Callback → Entity → F → World F → option (World F))
    (entity : Entity) (t : TimelineComponent F) : Prop :=
  ∀ name, TransitionIn t = Some name ∨ TransitionOut t = Some name →
    keeps_own_timeline registry name entity.
End BoundCallbacks.

(** ** Frame times in binary32 *)

(** The rational a finite binary32 number stands for. *)
Definition value (x : binary32) : Q :=
  match x with
  | S754_finite s m e =>
      ((if s then -1 else 1) * inject_Z (Z.pos m) * Qpower 2 e)%Q
  | _ => 0%Q
  end.

(** [1.0f / 60.0f], the frame time at 60 frames per second. *)
Definition sixtieth : binary32 := b32 8947849 (-29).

(** 180 frames, 179 of a sixtieth of a second and one a little shorter,
    so that their values add up to 3 exactly. *)
Definition threeSeconds : list binary32 :=
  replicate 179 sixtieth ++ [b32 8947765 (-29)].

(** * Properties *)

Section TimelineProperties.
Context `{FloatOps F}.
Variable registry : Callback → Entity → F → World F → option (World F).

Implicit Types (w : World F) (t : TimelineComponent F) (e : Entity) (dt : F).

(** *** Reading the world back after a write *)

Lemma timelines_store e t w : timelines (store e t w) = <[e := t]> (timelines w).
Proof. reflexivity. Qed.

Lemma lookup_store e t w : timelines (store e t w) !! e = Some t.
Proof. apply lookup_insert_eq. Qed.

Lemma lookup_store_ne e e' t w :
  e ≠ e' → timelines (store e t w) !! e' = timelines w !! e'.
Proof. intros Hne. by apply lookup_insert_ne. Qed.

Lemma store_store e t t' w : store e t' (store e t w) = store e t' w.
Proof. unfold store, with_timelines; simpl. by rewrite insert_insert_eq. Qed.

Lemma store_same e t w : timelines w !! e = Some t → store e t w = w.
Proof.
  intros Hl. destruct w; unfold store, with_timelines; simpl in *.
  by rewrite insert_id.
Qed.

Lemma timelines_ensureTag e tag w : timelines (ensureTag e tag w) = timelines w.
Proof. unfold ensureTag. by destruct (HasTag w e tag). Qed.

Lemma tagsOf_AddTag e tag w : tagsOf (AddTag w e tag) e = tagsOf w e ++ [tag].
Proof. unfold tagsOf at 1, AddTag; simpl. by rewrite lookup_insert_eq. Qed.

Lemma tagsOf_AddTag_ne e e' tag w : e ≠ e' → tagsOf (AddTag w e tag) e' = tagsOf w e'.
Proof. intros Hne. unfold tagsOf, AddTag; simpl. by rewrite lookup_insert_ne. Qed.

(** After [ensureTag] the entity carries the tag, and carries it as often
    as before when it already had it. *)
Lemma HasTag_ensureTag e tag w : HasTag (ensureTag e tag w) e tag = true.
Proof.
  unfold ensureTag. destruct (HasTag w e tag) eqn:Hhas; simpl; [done|].
  unfold HasTag. rewrite tagsOf_AddTag. apply bool_decide_eq_true.
  set_solver.
Qed.

(** The loop body, for an entity that has its three components and whose
    layer is visible. *)
Lemma updateEntity_visible dt e w t tr l :
  timelines w !! e = Some t → transforms w !! e = Some tr →
  layers w !! e = Some l →
  layerVisibility (engineState w) (layerID l) = true →
  updateEntity registry dt e w =
    if negb (Active t) then Some (ensureTag e (TimelineTag t) w, [])
    else if IsTransitioningIn t
         then transitionIn registry dt e t (ensureTag e (TimelineTag t) w)
         else transitionOut registry dt e t (ensureTag e (TimelineTag t) w).
Proof.
  intros Ht Htr Hl Hvis. unfold updateEntity.
  rewrite Ht, Htr, Hl; simpl. rewrite Hvis; simpl. reflexivity.
Qed.

(** C2: outside play mode [Update] returns at once: the world it yields is
    the world it was given, whole (every [TimelineComponent] field, every
    tag, every other component), and the list of invoked callbacks is
    empty. *)
Theorem Update_outside_play_mode dt w :
  IsPlay (engineState w) = false → Update registry dt w = Some (w, []).
Proof. intros Hplay. unfold Update. by rewrite Hplay. Qed.

(** C3 (amended): when the loop reaches an entity on a visible layer whose
    timeline has [Active = false], no callback is invoked, the timeline
    components, transforms, layers, engine state and member set are left as
    they are, and the tags of the other entities too; the entity's own
    [TimelineTag] is attached to it when it does not carry it yet, and is
    not attached a second time when it does. *)
Theorem updateEntity_inactive dt e w t tr l :
  timelines w !! e = Some t → transforms w !! e = Some tr →
  layers w !! e = Some l →
  layerVisibility (engineState w) (layerID l) = true →
  Active t = false →
  ∃ w', updateEntity registry dt e w = Some (w', [])
    ∧ timelines w' = timelines w
    ∧ transforms w' = transforms w ∧ layers w' = layers w
    ∧ engineState w' = engineState w ∧ mEntities w' = mEntities w
    ∧ tagsOf w' e =
        (if HasTag w e (TimelineTag t) then tagsOf w e
         else tagsOf w e ++ [TimelineTag t])
    ∧ ∀ e', e ≠ e' → tagsOf w' e' = tagsOf w e'.
Proof.
  intros Ht Htr Hl Hvis Hact.
  rewrite (updateEntity_visible dt e w t tr l) by done. rewrite Hact; simpl.
  eexists; split; [reflexivity|]. unfold ensureTag.
  destruct (HasTag w e (TimelineTag t)); simpl; repeat split; try done.
  - apply tagsOf_AddTag.
  - intros e' Hne. by apply tagsOf_AddTag_ne.
Qed.

End TimelineProperties.

Section StepCases.
Context `{FloatOps F}.
Implicit Types (t : TimelineComponent F) (dt : F).

Lemma stepTimeline_waiting_in dt t :
  Active t = true → IsTransitioningIn t = true →
  f_lt (f_add (DelayAccumulated t) dt) (TransitionInDelay t) = true →
  stepTimeline dt t = set_DelayAccumulated (f_add (DelayAccumulated t) dt) t.
Proof.
  intros Ha Hi Hw. unfold stepTimeline, stepIn. rewrite Ha, Hi; simpl. by rewrite Hw.
Qed.

Lemma stepTimeline_advance_in dt t :
  Active t = true → IsTransitioningIn t = true →
  f_lt (f_add (DelayAccumulated t) dt) (TransitionInDelay t) = false →
  f_ge (f_add (InternalTimer t) dt) (TransitionDuration t) = false →
  stepTimeline dt t =
    set_InternalTimer (f_add (InternalTimer t) dt)
      (set_DelayAccumulated (f_add (DelayAccumulated t) dt) t).
Proof.
  intros Ha Hi Hw Hd. unfold stepTimeline, stepIn. rewrite Ha, Hi; simpl.
  by rewrite Hw, Hd.
Qed.

Lemma stepTimeline_complete_in dt t :
  Active t = true → IsTransitioningIn t = true →
  f_lt (f_add (DelayAccumulated t) dt) (TransitionInDelay t) = false →
  f_ge (f_add (InternalTimer t) dt) (TransitionDuration t) = true →
  stepTimeline dt t =
    set_DelayAccumulated f_zero
      (set_InternalTimer f_zero (set_IsTransitioningIn false
         (set_InternalTimer (f_add (InternalTimer t) dt)
            (set_DelayAccumulated (f_add (DelayAccumulated t) dt) t)))).
Proof.
  intros Ha Hi Hw Hd. unfold stepTimeline, stepIn. rewrite Ha, Hi; simpl.
  by rewrite Hw, Hd.
Qed.

(** [Update] never sets [IsTransitioningIn]: once out, always out. *)
Lemma stepTimeline_stays_out dt t :
  IsTransitioningIn t = false → IsTransitioningIn (stepTimeline dt t) = false.
Proof.
  intros Hi. unfold stepTimeline, stepOut. rewrite Hi.
  destruct (Active t); simpl; [|done].
  repeat (case_match; simpl; try done).
Qed.

Lemma runTimeline_stays_out dts : ∀ t,
  IsTransitioningIn t = false → IsTransitioningIn (runTimeline dts t) = false.
Proof.
  induction dts as [|dt dts IH]; intros t Hi; [done|].
  apply IH. by apply stepTimeline_stays_out.
Qed.

Lemma runTimeline_cons dt dts t :
  runTimeline (dt :: dts) t = runTimeline dts (stepTimeline dt t).
Proof. reflexivity. Qed.

End StepCases.


(** ** The loop body, case by case, and against the state machine *)

Section Refinement.
Context `{FloatOps F}.
Variable registry : Callback → Entity → F → World F → option (World F).
Implicit Types (w : World F) (t : TimelineComponent F) (e : Entity) (dt : F).

Lemma completeIn_lookup e w t :
  timelines w !! e = Some t →
  completeIn e w =
    Some (if f_ge (InternalTimer t) (TransitionDuration t)
          then store e (set_DelayAccumulated f_zero (set_InternalTimer f_zero
                          (set_IsTransitioningIn false t))) w
          else w).
Proof.
  intros Ht. unfold completeIn. rewrite Ht; simpl.
  by destruct (f_ge (InternalTimer t) (TransitionDuration t)).
Qed.

Lemma completeOut_lookup e w t :
  timelines w !! e = Some t →
  completeOut e w =
    Some (if f_ge (InternalTimer t) (TransitionDuration t)
          then store e (set_Active false t) w else w).
Proof.
  intros Ht. unfold completeOut. rewrite Ht; simpl.
  by destruct (f_ge (InternalTimer t) (TransitionDuration t)).
Qed.

(** The transition-in branch, case by case. *)
Lemma transitionIn_waiting dt e t w :
  f_lt (f_add (DelayAccumulated t) dt) (TransitionInDelay t) = true →
  transitionIn registry dt e t w =
    Some (store e (set_DelayAccumulated (f_add (DelayAccumulated t) dt) t) w, []).
Proof. intros Hw. unfold transitionIn; simpl. by rewrite Hw. Qed.

Lemma transitionIn_running dt e t w :
  f_lt (f_add (DelayAccumulated t) dt) (TransitionInDelay t) = false →
  transitionIn registry dt e t w =
    let t2 := set_InternalTimer (f_add (InternalTimer t) dt)
                (set_DelayAccumulated (f_add (DelayAccumulated t) dt) t) in
    '(w2, calls) ← invoke registry (TransitionIn t) e (InternalTimer t2) (store e t2 w);
    w3 ← completeIn e w2; Some (w3, calls).
Proof.
  intros Hw. unfold transitionIn; simpl. rewrite Hw. by rewrite store_store.
Qed.

Lemma transitionOut_waiting dt e t w :
  f_lt (f_add (DelayOutAccumulated t) dt) (TransitionOutDelay t) = true →
  transitionOut registry dt e t w =
    Some (store e (set_DelayOutAccumulated (f_add (DelayOutAccumulated t) dt) t) w, []).
Proof. intros Hw. unfold transitionOut; simpl. by rewrite Hw. Qed.

Lemma transitionOut_running dt e t w :
  f_lt (f_add (DelayOutAccumulated t) dt) (TransitionOutDelay t) = false →
  transitionOut registry dt e t w =
    let t2 := set_InternalTimer (f_add (InternalTimer t) dt)
                (set_DelayOutAccumulated (f_add (DelayOutAccumulated t) dt) t) in
    '(w2, calls) ← invoke registry (TransitionOut t) e (InternalTimer t2) (store e t2 w);
    w3 ← completeOut e w2; Some (w3, calls).
Proof.
  intros Hw. unfold transitionOut; simpl. rewrite Hw. by rewrite store_store.
Qed.

Lemma same_frame_refl w : same_frame w w.
Proof. by repeat split. Qed.

Lemma same_frame_trans w1 w2 w3 :
  same_frame w1 w2 → same_frame w2 w3 → same_frame w1 w3.
Proof. unfold same_frame. intros (?&?&?&?) (?&?&?&?). repeat split; congruence. Qed.

Lemma same_frame_store e t w : same_frame w (store e t w).
Proof. by repeat split. Qed.

Lemma same_frame_ensureTag e tag w : same_frame w (ensureTag e tag w).
Proof. unfold ensureTag. destruct (HasTag w e tag); by repeat split. Qed.

Lemma same_frame_visible e w w' : same_frame w w' → visible w' e = visible w e.
Proof. intros (Hl & He & _). unfold visible. by rewrite Hl, He. Qed.

Lemma same_frame_transform e w w' :
  same_frame w w' → is_Some (transforms w !! e) → is_Some (transforms w' !! e).
Proof. intros (_ & _ & _ & Hd). rewrite <- !elem_of_dom. by rewrite Hd. Qed.

Hypothesis Hvisual : visual_only registry.

Lemma invoke_visual cb e timer w :
  is_Some (timelines w !! e) → is_Some (transforms w !! e) →
  ∃ w', invoke registry cb e timer w =
          Some (w', match cb with Some name => [(name, e, timer)] | None => [] end)
    ∧ timelines w' = timelines w ∧ same_frame w w'.
Proof.
  intros Ht Htr. destruct cb as [name|]; simpl.
  - destruct (Hvisual name e timer w Ht Htr) as (w' & -> & ? & ?).
    by exists w'.
  - exists w. split; [done|]. split; [done | apply same_frame_refl].
Qed.

Lemma transitionIn_refines dt e t w :
  is_Some (transforms w !! e) →
  ∃ w', transitionIn registry dt e t w =
          Some (w', if f_lt (f_add (DelayAccumulated t) dt) (TransitionInDelay t)
                    then []
                    else match TransitionIn t with
                         | Some name => [(name, e, f_add (InternalTimer t) dt)]
                         | None => []
                         end)
    ∧ timelines w' = <[e := stepIn dt t]> (timelines w) ∧ same_frame w w'.
Proof.
  intros Htr. unfold stepIn.
  destruct (f_lt (f_add (DelayAccumulated t) dt) (TransitionInDelay t)) eqn:Hw.
  - rewrite transitionIn_waiting by done. eexists; split; [done|].
    cbn [DelayAccumulated set_DelayAccumulated TransitionInDelay]. rewrite Hw.
    split; [done | apply same_frame_store].
  - rewrite transitionIn_running by done. cbn zeta.
    set (t2 := set_InternalTimer _ _).
    destruct (invoke_visual (TransitionIn t) e (InternalTimer t2) (store e t2 w))
      as (w2 & Hinv & Htl & Hsame).
    { rewrite lookup_store. by eexists. }
    { done. }
    rewrite Hinv; simpl.
    rewrite (completeIn_lookup e w2 t2) by (by rewrite Htl, lookup_store); simpl.
    eexists; split; [reflexivity|].
    cbn [DelayAccumulated set_DelayAccumulated TransitionInDelay]. rewrite Hw.
    fold t2.
    destruct (f_ge (f_add (InternalTimer t) dt) (TransitionDuration t)).
    + split.
      * rewrite timelines_store, Htl, timelines_store. by rewrite insert_insert_eq.
      * eapply same_frame_trans; [apply same_frame_store|].
        eapply same_frame_trans; [exact Hsame | apply same_frame_store].
    + split; [by rewrite Htl|].
      eapply same_frame_trans; [apply same_frame_store | exact Hsame].
Qed.

Lemma transitionOut_refines dt e t w :
  is_Some (transforms w !! e) →
  ∃ w', transitionOut registry dt e t w =
          Some (w', if f_lt (f_add (DelayOutAccumulated t) dt) (TransitionOutDelay t)
                    then []
                    else match TransitionOut t with
                         | Some name => [(name, e, f_add (InternalTimer t) dt)]
                         | None => []
                         end)
    ∧ timelines w' = <[e := stepOut dt t]> (timelines w) ∧ same_frame w w'.
Proof.
  intros Htr. unfold stepOut.
  destruct (f_lt (f_add (DelayOutAccumulated t) dt) (TransitionOutDelay t)) eqn:Hw.
  - rewrite transitionOut_waiting by done. eexists; split; [done|].
    cbn [DelayOutAccumulated set_DelayOutAccumulated TransitionOutDelay]. rewrite Hw.
    split; [done | apply same_frame_store].
  - rewrite transitionOut_running by done. cbn zeta.
    set (t2 := set_InternalTimer _ _).
    destruct (invoke_visual (TransitionOut t) e (InternalTimer t2) (store e t2 w))
      as (w2 & Hinv & Htl & Hsame).
    { rewrite lookup_store. by eexists. }
    { done. }
    rewrite Hinv; simpl.
    rewrite (completeOut_lookup e w2 t2) by (by rewrite Htl, lookup_store); simpl.
    eexists; split; [reflexivity|].
    cbn [DelayOutAccumulated set_DelayOutAccumulated TransitionOutDelay]. rewrite Hw.
    fold t2.
    destruct (f_ge (f_add (InternalTimer t) dt) (TransitionDuration t)).
    + split.
      * rewrite timelines_store, Htl, timelines_store. by rewrite insert_insert_eq.
      * eapply same_frame_trans; [apply same_frame_store|].
        eapply same_frame_trans; [exact Hsame | apply same_frame_store].
    + split; [by rewrite Htl|].
      eapply same_frame_trans; [apply same_frame_store | exact Hsame].
Qed.

(** The loop body against the state machine of the specification. *)
Lemma updateEntity_refines dt e w t :
  timelines w !! e = Some t →
  is_Some (transforms w !! e) → is_Some (layers w !! e) →
  ∃ w', updateEntity registry dt e w =
          Some (w', if visible w e then invokedBy dt e t else [])
    ∧ timelines w' =
        <[e := if visible w e then stepTimeline dt t else t]> (timelines w)
    ∧ same_frame w w'.
Proof.
  intros Ht [tr Htr] [l Hl]. unfold visible. rewrite Hl.
  destruct (layerVisibility (engineState w) (layerID l)) eqn:Hvis.
  - rewrite (updateEntity_visible registry dt e w t tr l) by done.
    unfold stepTimeline, invokedBy.
    pose proof (same_frame_ensureTag e (TimelineTag t) w) as Htag.
    assert (is_Some (transforms (ensureTag e (TimelineTag t) w) !! e)) as Htr'.
    { eapply same_frame_transform; [exact Htag | by eexists]. }
    destruct (Active t); simpl.
    + destruct (IsTransitioningIn t).
      * destruct (transitionIn_refines dt e t _ Htr') as (w' & -> & Htl & Hsame).
        exists w'. split; [done|]. rewrite Htl, timelines_ensureTag.
        split; [done | by eapply same_frame_trans].
      * destruct (transitionOut_refines dt e t _ Htr') as (w' & -> & Htl & Hsame).
        exists w'. split; [done|]. rewrite Htl, timelines_ensureTag.
        split; [done | by eapply same_frame_trans].
    + eexists; split; [done|]. rewrite timelines_ensureTag.
      split; [by rewrite insert_id | done].
  - unfold updateEntity. rewrite Ht, Htr, Hl; simpl. rewrite Hvis; simpl.
    eexists; split; [done|]. split; [by rewrite insert_id | apply same_frame_refl].
Qed.

Lemma has_components_same w w' e :
  same_frame w w' → (is_Some (timelines w !! e) → is_Some (timelines w' !! e)) →
  has_components w e → has_components w' e.
Proof.
  intros Hsame Htl (Ht & Htr & Hl). split; [auto|]. split.
  - by eapply same_frame_transform.
  - destruct Hsame as (-> & _). done.
Qed.

(** One pass of the loop: each member goes through one step of the state
    machine when its layer is visible; nothing else happens to the
    timelines. *)
Lemma forEntities_refines dt es : ∀ w,
  NoDup es → (∀ e, e ∈ es → has_components w e) →
  ∃ w' calls, forEntities registry dt es w = Some (w', calls)
    ∧ (∀ e, timelines w' !! e =
             (if bool_decide (e ∈ es) && visible w e
              then stepTimeline dt else id) <$> timelines w !! e)
    ∧ same_frame w w'.
Proof.
  induction es as [|e0 rest IH]; intros w Hnd Hall; simpl.
  - exists w, []. split; [done|]. split; [|apply same_frame_refl].
    intros e. simpl. by destruct (timelines w !! e).
  - apply NoDup_cons in Hnd as [Hnotin Hnd].
    destruct (Hall e0) as ([t0 Ht0] & Htr0 & Hl0); [set_solver|].
    destruct (updateEntity_refines dt e0 w t0 Ht0 Htr0 Hl0)
      as (w1 & -> & Htl1 & Hsame1); simpl.
    destruct (IH w1 Hnd) as (w' & calls & -> & Hlook & Hsame).
    { intros e He. apply (has_components_same w); [done| |apply Hall; set_solver].
      rewrite Htl1. destruct (decide (e0 = e)) as [<-|Hne].
      - by rewrite lookup_insert_eq.
      - by rewrite lookup_insert_ne. }
    simpl. eexists _, _. split; [reflexivity|].
    split; [|by eapply same_frame_trans].
    intros e. rewrite Hlook, Htl1, (same_frame_visible e w w1) by done.
    destruct (decide (e0 = e)) as [<-|Hne].
    + rewrite lookup_insert_eq, Ht0.
      rewrite (bool_decide_eq_false_2 (e0 ∈ rest)) by done.
      rewrite (bool_decide_eq_true_2 (e0 ∈ e0 :: rest)) by set_solver.
      simpl. by destruct (visible w e0).
    + rewrite lookup_insert_ne by done.
      replace (bool_decide (e ∈ e0 :: rest)) with (bool_decide (e ∈ rest));
        [done|]. apply bool_decide_ext. rewrite elem_of_cons. intuition congruence.
Qed.

Lemma Update_refines dt w :
  well_formed w →
  ∃ w' calls, Update registry dt w = Some (w', calls)
    ∧ (∀ e, timelines w' !! e =
             (if bool_decide (e ∈ mEntities w) && visible w e
              then stepTimeline dt else id) <$> timelines w !! e)
    ∧ same_frame w w' ∧ well_formed w'.
Proof.
  intros (Hplay & Hnd & Hall). unfold Update. rewrite Hplay; simpl.
  destruct (forEntities_refines dt (mEntities w) w Hnd Hall)
    as (w' & calls & -> & Hlook & Hsame).
  exists w', calls. split; [done|]. split; [done|]. split; [done|].
  pose proof Hsame as (_ & Hes & Hm & _).
  split; [by rewrite Hes|]. split; [by rewrite Hm|].
  rewrite Hm. intros e He.
  apply (has_components_same w); [done| |by apply Hall].
  rewrite Hlook. intros [t ->]. by eexists.
Qed.

Lemma frames_refines dts : ∀ w,
  well_formed w →
  ∃ w' calls, frames registry dts w = Some (w', calls)
    ∧ (∀ e t, e ∈ mEntities w → visible w e = true →
         timelines w !! e = Some t →
         timelines w' !! e = Some (runTimeline dts t))
    ∧ same_frame w w' ∧ well_formed w'.
Proof.
  induction dts as [|dt dts IH]; intros w Hwf; simpl.
  - exists w, []. split; [done|]. split; [by intros|].
    split; [apply same_frame_refl | done].
  - destruct (Update_refines dt w Hwf) as (w1 & calls1 & -> & Hlook1 & Hsame1 & Hwf1).
    simpl. destruct (IH w1 Hwf1) as (w' & calls & -> & Hlook & Hsame & Hwf').
    simpl. eexists _, _. split; [reflexivity|].
    split; [|split; [by eapply same_frame_trans | done]].
    intros e t He Hvis Ht. apply Hlook.
    + destruct Hsame1 as (_ & _ & -> & _). done.
    + by rewrite (same_frame_visible e w w1).
    + rewrite Hlook1, Ht. rewrite bool_decide_eq_true_2, Hvis by done. done.
Qed.

End Refinement.

Section ToggleProperties.
Context {F : Type}.
Implicit Types (w : World F) (t : TimelineComponent F) (e : Entity).

Lemma toggled_cons_in tag e es t :
  e ∈ es → TimelineTag t = tag → toggled tag es e t = set_Active true t.
Proof.
  intros He Htag. unfold toggled. by rewrite bool_decide_eq_true_2.
Qed.

Lemma toggled_cons_same tag e rest t :
  TimelineTag t = tag → toggled tag (e :: rest) e t = set_Active true t.
Proof.
  intros Htag. unfold toggled. rewrite bool_decide_eq_true_2; [done|].
  split; [set_solver | done].
Qed.

Lemma toggled_cons_ne tag e0 e rest t :
  e0 ≠ e → toggled tag (e0 :: rest) e t = toggled tag rest e t.
Proof.
  intros Hne. unfold toggled. apply (f_equal (λ b : bool, if b then _ else _)).
  apply bool_decide_ext. rewrite elem_of_cons. intuition congruence.
Qed.

Lemma toggled_other_tag tag es e t :
  TimelineTag t ≠ tag → toggled tag es e t = t.
Proof.
  intros Hne. unfold toggled. rewrite bool_decide_eq_false_2; [done|]. tauto.
Qed.

Lemma toggled_activated tag es e t :
  toggled tag es e (set_Active true t) = set_Active true t.
Proof. unfold toggled. by case_bool_decide. Qed.

(** The loop changes nothing but timeline components, and those as
    [toggled] says. *)
Lemma toggleLoop_effect tag es : ∀ w activated out w' activated' out',
  toggleLoop tag es w activated out = Some (w', activated', out') →
  (∀ e, timelines w' !! e = toggled tag es e <$> timelines w !! e)
  ∧ engineState w' = engineState w ∧ mEntities w' = mEntities w
  ∧ transforms w' = transforms w ∧ layers w' = layers w ∧ tags w' = tags w.
Proof.
  induction es as [|e0 rest IH]; intros w a out w' a' out' Hrun; simpl in Hrun.
  - simplify_eq. split; [|done]. intros e.
    destruct (timelines w' !! e) as [t|]; [|done].
    reflexivity.
  - destruct (timelines w !! e0) as [t0|] eqn:Ht0; simpl in Hrun; [|done].
    case_bool_decide as Htag.
    + apply IH in Hrun as (Hlook & -> & -> & -> & -> & ->).
      split; [|done]. intros e. rewrite Hlook, timelines_store.
      destruct (decide (e0 = e)) as [<-|Hne].
      * rewrite lookup_insert_eq, Ht0; simpl.
        by rewrite toggled_activated, toggled_cons_same.
      * rewrite lookup_insert_ne by done.
        destruct (timelines w !! e); simpl; [|done].
        by rewrite toggled_cons_ne.
    + apply IH in Hrun as (Hlook & -> & -> & -> & -> & ->).
      split; [|done]. intros e. rewrite Hlook.
      destruct (timelines w !! e) as [t|] eqn:Ht; simpl; [|done]. f_equal.
      destruct (decide (e0 = e)) as [<-|Hne].
      * simplify_eq. by rewrite !toggled_other_tag.
      * by rewrite toggled_cons_ne.
Qed.

(** With a component for every tracked entity the loop runs to its end. *)
Lemma toggleLoop_total tag es : ∀ w activated out,
  (∀ e, e ∈ es → is_Some (timelines w !! e)) →
  is_Some (toggleLoop tag es w activated out).
Proof.
  induction es as [|e0 rest IH]; intros w a out Hall; simpl; [done|].
  destruct (Hall e0) as [t0 Ht0]; [set_solver|]. rewrite Ht0; simpl.
  case_bool_decide.
  - apply IH. intros e He. rewrite timelines_store.
    destruct (decide (e0 = e)) as [<-|Hne].
    + by rewrite lookup_insert_eq.
    + rewrite lookup_insert_ne by done. apply Hall. set_solver.
  - apply IH. intros e He. apply Hall. set_solver.
Qed.

(** Without a match the loop leaves everything as it was. *)
Lemma toggleLoop_no_match tag es : ∀ w activated out,
  (∀ e, e ∈ es → ∃ t, timelines w !! e = Some t ∧ TimelineTag t ≠ tag) →
  toggleLoop tag es w activated out = Some (w, activated, out).
Proof.
  induction es as [|e0 rest IH]; intros w a out Hall; simpl; [done|].
  destruct (Hall e0) as (t0 & Ht0 & Htag); [set_solver|]. rewrite Ht0; simpl.
  rewrite bool_decide_eq_false_2 by done. apply IH.
  intros e He. apply Hall. set_solver.
Qed.

Lemma toggleLoop_flag_kept tag es : ∀ w out w' activated' out',
  toggleLoop tag es w true out = Some (w', activated', out') →
  activated' = true.
Proof.
  induction es as [|e0 rest IH]; intros w out w' a' out' Hrun; simpl in Hrun.
  - by simplify_eq.
  - destruct (timelines w !! e0) as [t0|]; simpl in Hrun; [|done].
    case_bool_decide; eauto.
Qed.

(** With a match the [activated] flag is set. *)
Lemma toggleLoop_match tag es : ∀ w activated out w' activated' out' e t,
  toggleLoop tag es w activated out = Some (w', activated', out') →
  e ∈ es → timelines w !! e = Some t → TimelineTag t = tag →
  activated' = true.
Proof.
  induction es as [|e0 rest IH]; intros w a out w' a' out' e t Hrun He Ht Htag;
    simpl in Hrun; [set_solver|].
  destruct (timelines w !! e0) as [t0|] eqn:Ht0; simpl in Hrun; [|done].
  case_bool_decide as Htag0.
  - by eapply toggleLoop_flag_kept.
  - apply (IH _ _ _ _ _ _ e t Hrun); [|done..].
    apply elem_of_cons in He as [->|He]; [congruence | done].
Qed.

(** C4: with a [TimelineComponent] for every tracked entity,
    [ToggleActive(tag)] runs to its end; afterwards every tracked entity
    whose [TimelineTag] is [tag] has [Active = true], however many there
    are; and when no tracked entity carries the tag, the world is left as it
    was (no [Active] flag changes), nothing is written to [std::cout], and
    the warning is written to [std::cerr]. *)
Theorem ToggleActive_by_tag tag w :
  tracked_have_timeline w →
  ∃ w' out, ToggleActive tag w = Some (w', out)
    ∧ (∀ e t, e ∈ mEntities w → timelines w !! e = Some t →
         TimelineTag t = tag →
         Active <$> timelines w' !! e = Some true)
    ∧ ((∀ e t, e ∈ mEntities w → timelines w !! e = Some t →
          TimelineTag t ≠ tag) →
       w' = w ∧ cout out = [] ∧ cerr out = [notFoundWarning tag])
    ∧ ((∃ e t, e ∈ mEntities w ∧ timelines w !! e = Some t ∧
          TimelineTag t = tag) →
       cerr out = []).
Proof.
  intros Hinv. unfold ToggleActive.
  unfold tracked_have_timeline in Hinv. rewrite Forall_forall in Hinv.
  destruct (toggleLoop_total tag (mEntities w) w false [] Hinv)
    as [[[w' a'] out'] Hrun].
  rewrite Hrun; simpl. eexists _, _; split; [reflexivity|]. split; [|split].
  - intros e t He Ht Htag.
    apply toggleLoop_effect in Hrun as (Hlook & _).
    rewrite Hlook, Ht; simpl. by rewrite toggled_cons_in.
  - intros Hnone.
    rewrite toggleLoop_no_match in Hrun; [by simplify_eq|].
    intros e He. destruct (Hinv e He) as [t Ht]. eauto.
  - intros (e & t & He & Ht & Htag); simpl.
    by rewrite (toggleLoop_match _ _ _ _ _ _ _ _ e t Hrun He Ht Htag).
Qed.

(** C9: [ToggleActive(tag)] writes the [Active] field and nothing else.
    The component of a tracked entity carrying the tag becomes
    [set_Active true] of itself, so [IsTransitioningIn], the timer, the
    accumulated delays and every other field keep their values (the timeline
    resumes in the phase and at the timer state it was left in); every other
    timeline component, present or absent, is as before, and so are the
    transforms, layers, tags, engine state and member set. *)
Theorem ToggleActive_only_Active tag w w' out :
  ToggleActive tag w = Some (w', out) →
  (∀ e t, timelines w !! e = Some t →
     e ∈ mEntities w → TimelineTag t = tag →
     ∃ t', timelines w' !! e = Some t' ∧ Active t' = true
       ∧ IsTransitioningIn t' = IsTransitioningIn t
       ∧ InternalTimer t' = InternalTimer t
       ∧ DelayAccumulated t' = DelayAccumulated t
       ∧ DelayOutAccumulated t' = DelayOutAccumulated t
       ∧ t' = set_Active true t)
  ∧ (∀ e t, timelines w !! e = Some t →
       e ∉ mEntities w ∨ TimelineTag t ≠ tag →
       timelines w' !! e = Some t)
  ∧ (∀ e, timelines w !! e = None → timelines w' !! e = None)
  ∧ transforms w' = transforms w ∧ layers w' = layers w
  ∧ tags w' = tags w ∧ engineState w' = engineState w
  ∧ mEntities w' = mEntities w.
Proof.
  unfold ToggleActive. intros Hrun.
  destruct (toggleLoop tag (mEntities w) w false []) as [[[w1 a1] out1]|] eqn:Hloop;
    simpl in Hrun; [|done].
  simplify_eq.
  apply toggleLoop_effect in Hloop as (Hlook & Hes & Hms & Htr & Hl & Htg).
  repeat split; try done.
  - intros e t Ht He Htag. exists (set_Active true t).
    rewrite Hlook, Ht; simpl. rewrite toggled_cons_in by done. done.
  - intros e t Ht Hor. rewrite Hlook, Ht; simpl. f_equal.
    unfold toggled. rewrite bool_decide_eq_false_2; [done|]. tauto.
  - intros e Hnone. by rewrite Hlook, Hnone.
Qed.
End ToggleProperties.

(** ** Invocations by entity *)

Section CallsFor.
Context {F : Type}.

Lemma callsFor_app e (c1 c2 : list (Invocation F)) :
  callsFor e (c1 ++ c2) = callsFor e c1 ++ callsFor e c2.
Proof. apply filter_app. Qed.

Lemma callsFor_same e (calls : list (Invocation F)) :
  Forall (λ c, c.1.2 = e) calls → callsFor e calls = calls.
Proof.
  intros Hall. unfold callsFor. induction Hall as [|c l Hc _ IH]; [done|].
  rewrite filter_cons_True by done. by f_equal.
Qed.

Lemma callsFor_other e e' (calls : list (Invocation F)) :
  e' ≠ e → Forall (λ c, c.1.2 = e') calls → callsFor e calls = [].
Proof.
  intros Hne Hall. unfold callsFor. induction Hall as [|c l Hc _ IH]; [done|].
  rewrite filter_cons_False by congruence. done.
Qed.
End CallsFor.

(** ** The loop with callbacks that write their own entity *)

Section OwnEntityProperties.
Context `{FloatOps F}.
Variable registry : Callback → Entity → F → World F → option (World F).
Implicit Types (w : World F) (t : TimelineComponent F) (e : Entity) (dt : F).

Lemma visual_only_own : visual_only registry → own_entity_only registry.
Proof.
  intros Hvisual name e timer w Ht Htr.
  destruct (Hvisual name e timer w Ht Htr) as (w' & Hrun & Htl & Hsame).
  exists w'. split; [done|]. split; [done|]. rewrite Htl. by split.
Qed.

Hypothesis Hown : own_entity_only registry.

Lemma invoke_own cb e timer w :
  is_Some (timelines w !! e) → is_Some (transforms w !! e) →
  ∃ w', invoke registry cb e timer w = Some (w', invocation cb e timer)
    ∧ same_frame w w'
    ∧ is_Some (timelines w' !! e)
    ∧ ∀ other, other ≠ e → timelines w' !! other = timelines w !! other.
Proof.
  intros Ht Htr. destruct cb as [name|]; simpl.
  - destruct (Hown name e timer w Ht Htr) as (w' & -> & ?). by exists w'.
  - exists w. split; [done|]. split; [apply same_frame_refl|]. by split.
Qed.

Lemma invocation_entity cb e (timer : F) :
  Forall (λ c : Invocation F, c.1.2 = e) (invocation cb e timer).
Proof. destruct cb; by repeat constructor. Qed.

(** The transition-in branch: the component the callback leaves goes
    through the completion check. *)
Lemma transitionIn_own dt e t w :
  is_Some (transforms w !! e) →
  let t1 := set_DelayAccumulated (f_add (DelayAccumulated t) dt) t in
  let t2 := set_InternalTimer (f_add (InternalTimer t) dt) t1 in
  if f_lt (DelayAccumulated t1) (TransitionInDelay t)
  then transitionIn registry dt e t w = Some (store e t1 w, [])
  else ∃ w1 left,
         invoke registry (TransitionIn t) e (InternalTimer t2) (store e t2 w)
           = Some (w1, invocation (TransitionIn t) e (InternalTimer t2))
         ∧ same_frame w w1
         ∧ timelines w1 !! e = Some left
         ∧ (∀ other, other ≠ e → timelines w1 !! other = timelines w !! other)
         ∧ transitionIn registry dt e t w
           = Some (store e (completedIn left) w1,
                   invocation (TransitionIn t) e (InternalTimer t2)).
Proof.
  intros Htr t1 t2.
  destruct (f_lt (DelayAccumulated t1) (TransitionInDelay t)) eqn:Hw.
  - by apply transitionIn_waiting.
  - destruct (invoke_own (TransitionIn t) e (InternalTimer t2) (store e t2 w))
      as (w1 & Hinv & Hsame & [left Hleft] & Hothers).
    { rewrite lookup_store. by eexists. }
    { done. }
    exists w1, left. split; [done|].
    split; [eapply same_frame_trans; [apply same_frame_store | done]|].
    split; [done|]. split.
    { intros other Hne. rewrite Hothers by done. by apply lookup_store_ne. }
    rewrite transitionIn_running by done. cbn zeta. fold t1 t2.
    rewrite Hinv; simpl. rewrite (completeIn_lookup e w1 left Hleft); simpl.
    unfold completedIn. destruct (f_ge _ _); [done|].
    by rewrite store_same.
Qed.

Lemma transitionOut_own dt e t w :
  is_Some (transforms w !! e) →
  let t1 := set_DelayOutAccumulated (f_add (DelayOutAccumulated t) dt) t in
  let t2 := set_InternalTimer (f_add (InternalTimer t) dt) t1 in
  if f_lt (DelayOutAccumulated t1) (TransitionOutDelay t)
  then transitionOut registry dt e t w = Some (store e t1 w, [])
  else ∃ w1 left,
         invoke registry (TransitionOut t) e (InternalTimer t2) (store e t2 w)
           = Some (w1, invocation (TransitionOut t) e (InternalTimer t2))
         ∧ same_frame w w1
         ∧ timelines w1 !! e = Some left
         ∧ (∀ other, other ≠ e → timelines w1 !! other = timelines w !! other)
         ∧ transitionOut registry dt e t w
           = Some (store e (completedOut left) w1,
                   invocation (TransitionOut t) e (InternalTimer t2)).
Proof.
  intros Htr t1 t2.
  destruct (f_lt (DelayOutAccumulated t1) (TransitionOutDelay t)) eqn:Hw.
  - by apply transitionOut_waiting.
  - destruct (invoke_own (TransitionOut t) e (InternalTimer t2) (store e t2 w))
      as (w1 & Hinv & Hsame & [left Hleft] & Hothers).
    { rewrite lookup_store. by eexists. }
    { done. }
    exists w1, left. split; [done|].
    split; [eapply same_frame_trans; [apply same_frame_store | done]|].
    split; [done|]. split.
    { intros other Hne. rewrite Hothers by done. by apply lookup_store_ne. }
    rewrite transitionOut_running by done. cbn zeta. fold t1 t2.
    rewrite Hinv; simpl. rewrite (completeOut_lookup e w1 left Hleft); simpl.
    unfold completedOut. destruct (f_ge _ _); [done|].
    by rewrite store_same.
Qed.

(** The loop body returns, stays within the entity, and invokes callbacks
    for that entity only. *)
Lemma updateEntity_own dt e w :
  has_components w e →
  ∃ w' calls, updateEntity registry dt e w = Some (w', calls)
    ∧ same_frame w w'
    ∧ is_Some (timelines w' !! e)
    ∧ (∀ other, other ≠ e → timelines w' !! other = timelines w !! other)
    ∧ Forall (λ c, c.1.2 = e) calls.
Proof.
  intros ([t Ht] & [tr Htr] & [l Hl]).
  destruct (layerVisibility (engineState w) (layerID l)) eqn:Hvis.
  - rewrite (updateEntity_visible registry dt e w t tr l) by done.
    pose proof (same_frame_ensureTag e (TimelineTag t) w) as Htag.
    set (w0 := ensureTag e (TimelineTag t) w) in *.
    assert (timelines w0 = timelines w) as Htl0 by apply timelines_ensureTag.
    assert (is_Some (transforms w0 !! e)) as Htr0.
    { eapply same_frame_transform; [exact Htag | by eexists]. }
    destruct (Active t); simpl.
    + destruct (IsTransitioningIn t).
      * pose proof (transitionIn_own dt e t w0 Htr0) as Hrun. cbn zeta in Hrun.
        destruct (f_lt _ _).
        -- rewrite Hrun. eexists _, _. split; [done|].
           split; [eapply same_frame_trans; [done | apply same_frame_store]|].
           split; [rewrite lookup_store; by eexists|].
           split; [|done]. intros other Hne.
           by rewrite lookup_store_ne, Htl0.
        -- destruct Hrun as (w1 & left & _ & Hsame & Hleft & Hothers & ->).
           eexists _, _. split; [done|].
           split; [eapply same_frame_trans; [done|];
                   eapply same_frame_trans; [done | apply same_frame_store]|].
           split; [rewrite lookup_store; by eexists|].
           split; [|apply invocation_entity]. intros other Hne.
           by rewrite lookup_store_ne, Hothers, Htl0.
      * pose proof (transitionOut_own dt e t w0 Htr0) as Hrun. cbn zeta in Hrun.
        destruct (f_lt _ _).
        -- rewrite Hrun. eexists _, _. split; [done|].
           split; [eapply same_frame_trans; [done | apply same_frame_store]|].
           split; [rewrite lookup_store; by eexists|].
           split; [|done]. intros other Hne.
           by rewrite lookup_store_ne, Htl0.
        -- destruct Hrun as (w1 & left & _ & Hsame & Hleft & Hothers & ->).
           eexists _, _. split; [done|].
           split; [eapply same_frame_trans; [done|];
                   eapply same_frame_trans; [done | apply same_frame_store]|].
           split; [rewrite lookup_store; by eexists|].
           split; [|apply invocation_entity]. intros other Hne.
           by rewrite lookup_store_ne, Hothers, Htl0.
    + eexists _, _. split; [done|]. split; [done|].
      split; [rewrite Htl0, Ht; by eexists|]. split; [|done].
      intros other _. by rewrite Htl0.
  - unfold updateEntity. rewrite Ht, Htr, Hl; simpl. rewrite Hvis; simpl.
    eexists _, _. split; [done|]. split; [apply same_frame_refl|].
    split; [by eexists|]. by split.
Qed.

(** One pass of the loop, seen from one of its members: the loop body runs
    once for it, on a world in which its timeline is still the one the
    pass started with, and what the body leaves of its timeline is what
    the pass leaves. *)
Lemma forEntities_own dt es : ∀ w,
  NoDup es → (∀ e, e ∈ es → has_components w e) →
  ∃ w' calls, forEntities registry dt es w = Some (w', calls)
    ∧ same_frame w w'
    ∧ (∀ e, is_Some (timelines w !! e) → is_Some (timelines w' !! e))
    ∧ (∀ e, e ∉ es →
         timelines w' !! e = timelines w !! e ∧ callsFor e calls = [])
    ∧ (∀ e, e ∈ es →
         ∃ wa wb, same_frame w wa
           ∧ timelines wa !! e = timelines w !! e
           ∧ updateEntity registry dt e wa = Some (wb, callsFor e calls)
           ∧ timelines w' !! e = timelines wb !! e).
Proof.
  induction es as [|e0 rest IH]; intros w Hnd Hall; simpl.
  - exists w, []. split; [done|]. split; [apply same_frame_refl|].
    split; [done|]. split; [done|]. intros e He. by apply elem_of_nil in He.
  - apply NoDup_cons in Hnd as [Hnotin Hnd].
    destruct (updateEntity_own dt e0 w) as
      (w1 & calls1 & Hrun1 & Hsame1 & Hsome1 & Hothers1 & Hcalls1);
      [apply Hall; by left|].
    rewrite Hrun1; simpl.
    assert (∀ e, is_Some (timelines w !! e) → is_Some (timelines w1 !! e))
      as Hkeep1.
    { intros e He. destruct (decide (e = e0)) as [->|Hne]; [done|].
      by rewrite Hothers1. }
    destruct (IH w1 Hnd) as (w' & calls & -> & Hsame & Hkeep & Hout & Hin).
    { intros e He. apply (has_components_same w); [done|apply Hkeep1|].
      apply Hall. by right. }
    simpl. eexists _, _. split; [reflexivity|].
    split; [by eapply same_frame_trans|].
    split; [intros e He; by apply Hkeep, Hkeep1|].
    split.
    + intros e He. apply not_elem_of_cons in He as [Hne He].
      destruct (Hout e He) as [Htl Hc]. rewrite Htl, Hothers1 by done.
      split; [done|]. rewrite callsFor_app, Hc, app_nil_r.
      by apply (callsFor_other e e0).
    + intros e He. apply elem_of_cons in He as [->|He].
      * exists w, w1. split; [apply same_frame_refl|]. split; [done|].
        destruct (Hout e0 Hnotin) as [Htl Hc].
        rewrite callsFor_app, Hc, app_nil_r, callsFor_same by done.
        by split.
      * assert (e ≠ e0) as Hne by (intros ->; done).
        destruct (Hin e He) as (wa & wb & Hsa & Hta & Hrun & Htb).
        exists wa, wb. split; [by eapply same_frame_trans|].
        split; [by rewrite Hta, Hothers1|].
        rewrite callsFor_app, (callsFor_other e e0) by done.
        by split.
Qed.

(** [Update] on a well-formed world, seen from one of its members on a
    visible layer. *)
Lemma Update_own dt w :
  well_formed w →
  ∃ w' calls, Update registry dt w = Some (w', calls)
    ∧ same_frame w w' ∧ well_formed w'
    ∧ ∀ e t, e ∈ mEntities w → visible w e = true →
        timelines w !! e = Some t →
        ∃ wa wb tr l,
          timelines wa !! e = Some t ∧ transforms wa !! e = Some tr
          ∧ layers wa !! e = Some l
          ∧ layerVisibility (engineState wa) (layerID l) = true
          ∧ updateEntity registry dt e wa = Some (wb, callsFor e calls)
          ∧ timelines w' !! e = timelines wb !! e.
Proof.
  intros (Hplay & Hnd & Hall). unfold Update. rewrite Hplay; simpl.
  destruct (forEntities_own dt (mEntities w) w Hnd Hall)
    as (w' & calls & -> & Hsame & Hkeep & _ & Hin).
  exists w', calls. split; [done|]. split; [done|]. split.
  { pose proof Hsame as (_ & Hes & Hm & _).
    split; [by rewrite Hes|]. split; [by rewrite Hm|].
    rewrite Hm. intros e He.
    apply (has_components_same w); [done|apply Hkeep|by apply Hall]. }
  intros e t He Hvis Ht.
  destruct (Hin e He) as (wa & wb & Hsa & Hta & Hrun & Htb).
  destruct (Hall e He) as (_ & Htr & _).
  destruct (same_frame_transform e w wa Hsa Htr) as [tr Htra].
  rewrite <- (same_frame_visible e w wa Hsa) in Hvis.
  unfold visible in Hvis.
  destruct (layers wa !! e) as [l|] eqn:Hl; [|done].
  exists wa, wb, tr, l. by rewrite Hta.
Qed.
End OwnEntityProperties.

(** ** One frame and runs of frames for one entity *)

Section StepOfOneEntity.
Context `{FloatOps F}.
Variable registry : Callback → Entity → F → World F → option (World F).
Implicit Types (w : World F) (t : TimelineComponent F) (e : Entity) (dt : F).

Lemma stepTimeline_callbacks dt t :
  TransitionIn (stepTimeline dt t) = TransitionIn t
  ∧ TransitionOut (stepTimeline dt t) = TransitionOut t.
Proof.
  unfold stepTimeline, stepIn, stepOut. repeat (case_match; simpl; try done).
Qed.

Lemma stepTimeline_in_active dt t :
  Active t = true → IsTransitioningIn t = true →
  Active (stepTimeline dt t) = true.
Proof.
  intros Ha Hi. unfold stepTimeline, stepIn. rewrite Ha, Hi; simpl.
  repeat (case_match; simpl; try done).
Qed.

(** The in phase ends at most once: the flag is true up to a frame of the
    run and false after it, and that frame is the first whose sums reach
    the delay and the duration. *)
Lemma in_phase_flips_once dts : ∀ t,
  Active t = true → IsTransitioningIn t = true →
  ∃ n, (∀ k, (k ≤ length dts)%nat →
          IsTransitioningIn (runTimeline (take k dts) t) = bool_decide (k ≤ n)%nat)
    ∧ ∀ d, dts !! n = Some d →
        let before := runTimeline (take n dts) t in
        let advanced :=
          set_InternalTimer (f_add (InternalTimer before) d)
            (set_DelayAccumulated (f_add (DelayAccumulated before) d) before) in
        f_lt (DelayAccumulated advanced) (TransitionInDelay before) = false
        ∧ f_ge (InternalTimer advanced) (TransitionDuration before) = true
        ∧ runTimeline (take (S n) dts) t =
            set_DelayAccumulated f_zero
              (set_InternalTimer f_zero (set_IsTransitioningIn false advanced)).
Proof.
  induction dts as [|d rest IH]; intros t Ha Hi.
  - exists 0%nat. split; [|done]. intros k Hk. simpl in Hk.
    replace k with 0%nat by lia. done.
  - destruct (IsTransitioningIn (stepTimeline d t)) eqn:Hstep.
    + destruct (IH (stepTimeline d t)) as (n & Hflag & Hflip);
        [by apply stepTimeline_in_active | done |].
      exists (S n). split.
      * intros [|k] Hk; [done|]. simpl in Hk. cbn [take].
        rewrite runTimeline_cons, Hflag by lia.
        apply bool_decide_ext. lia.
      * intros d' Hd'. cbn [take]. rewrite !runTimeline_cons. by apply Hflip.
    + exists 0%nat. split.
      * intros [|k] Hk; [done|]. cbn [take]. rewrite runTimeline_cons.
        rewrite runTimeline_stays_out by done.
        symmetry. apply bool_decide_eq_false_2. lia.
      * intros d' [= <-]. cbn [take]. cbn zeta. fields.
        unfold runTimeline at 1 2 3; simpl.
        destruct (f_lt (f_add (DelayAccumulated t) d) (TransitionInDelay t)) eqn:Hw.
        { rewrite stepTimeline_waiting_in in Hstep by done. simpl in Hstep.
          congruence. }
        destruct (f_ge (f_add (InternalTimer t) d) (TransitionDuration t)) eqn:Hd.
        { by rewrite stepTimeline_complete_in. }
        rewrite stepTimeline_advance_in in Hstep by done. simpl in Hstep.
        congruence.
Qed.

Hypothesis Hown : own_entity_only registry.

(** The loop body on an entity whose callback for the running phase leaves
    its timeline alone: the state machine's step. *)
Lemma updateEntity_step dt e w t tr l :
  timelines w !! e = Some t → transforms w !! e = Some tr →
  layers w !! e = Some l →
  layerVisibility (engineState w) (layerID l) = true →
  (∀ name, Active t = true → phaseCallback t = Some name →
     keeps_own_timeline registry name e) →
  ∃ w', updateEntity registry dt e w = Some (w', invokedBy dt e t)
    ∧ timelines w' !! e = Some (stepTimeline dt t).
Proof.
  intros Ht Htr Hl Hvis Hkeep.
  rewrite (updateEntity_visible registry dt e w t tr l) by done.
  unfold stepTimeline, invokedBy, phaseCallback in *.
  set (w0 := ensureTag e (TimelineTag t) w).
  assert (is_Some (transforms w0 !! e)) as Htr0.
  { eapply same_frame_transform; [apply same_frame_ensureTag | by eexists]. }
  destruct (Active t); simpl.
  - destruct (IsTransitioningIn t).
    + pose proof (transitionIn_own registry Hown dt e t w0 Htr0) as Hrun.
      cbn zeta in Hrun. unfold stepIn. revert Hrun. fields. intros Hrun.
      destruct (f_lt (f_add (DelayAccumulated t) dt) (TransitionInDelay t)).
      * rewrite Hrun. eexists. split; [done|]. apply lookup_store.
      * destruct Hrun as (w1 & left & Hinv & _ & Hleft & _ & ->).
        assert (left = set_InternalTimer (f_add (InternalTimer t) dt)
                         (set_DelayAccumulated (f_add (DelayAccumulated t) dt) t))
          as ->.
        { destruct (TransitionIn t) as [name|]; simpl in Hinv.
          - destruct (registry name e _ _) as [w2|] eqn:Hreg; simpl in Hinv;
              [|done].
            simplify_eq. apply (Hkeep name eq_refl eq_refl) in Hreg.
            rewrite Hleft, lookup_store in Hreg. by simplify_eq.
          - simplify_eq. rewrite lookup_store in Hleft. by simplify_eq. }
        eexists. split; [done|]. rewrite lookup_store. done.
    + pose proof (transitionOut_own registry Hown dt e t w0 Htr0) as Hrun.
      cbn zeta in Hrun. unfold stepOut. revert Hrun. fields. intros Hrun.
      destruct (f_lt (f_add (DelayOutAccumulated t) dt) (TransitionOutDelay t)).
      * rewrite Hrun. eexists. split; [done|]. apply lookup_store.
      * destruct Hrun as (w1 & left & Hinv & _ & Hleft & _ & ->).
        assert (left = set_InternalTimer (f_add (InternalTimer t) dt)
                         (set_DelayOutAccumulated (f_add (DelayOutAccumulated t) dt) t))
          as ->.
        { destruct (TransitionOut t) as [name|]; simpl in Hinv.
          - destruct (registry name e _ _) as [w2|] eqn:Hreg; simpl in Hinv;
              [|done].
            simplify_eq. apply (Hkeep name eq_refl eq_refl) in Hreg.
            rewrite Hleft, lookup_store in Hreg. by simplify_eq.
          - simplify_eq. rewrite lookup_store in Hleft. by simplify_eq. }
        eexists. split; [done|]. rewrite lookup_store. done.
  - eexists. split; [done|]. unfold w0. by rewrite timelines_ensureTag.
Qed.

Lemma Update_step dt w e t :
  well_formed w → e ∈ mEntities w → visible w e = true →
  timelines w !! e = Some t →
  (∀ name, Active t = true → phaseCallback t = Some name →
     keeps_own_timeline registry name e) →
  ∃ w' calls, Update registry dt w = Some (w', calls)
    ∧ same_frame w w' ∧ well_formed w'
    ∧ timelines w' !! e = Some (stepTimeline dt t)
    ∧ callsFor e calls = invokedBy dt e t.
Proof.
  intros Hwf He Hvis Ht Hkeep.
  destruct (Update_own registry Hown dt w Hwf)
    as (w' & calls & Hrun & Hsame & Hwf' & Hat).
  destruct (Hat e t He Hvis Ht)
    as (wa & wb & tr & l & Hta & Htra & Hla & Hvisa & Hbody & Htb).
  destruct (updateEntity_step dt e wa t tr l Hta Htra Hla Hvisa Hkeep)
    as (wb' & Hbody' & Hstep).
  rewrite Hbody in Hbody'. simplify_eq.
  exists w', calls. split; [done|]. split; [done|]. split; [done|].
  split; [by rewrite Htb | done].
Qed.

Lemma frames_step dts e : ∀ w t,
  well_formed w → e ∈ mEntities w → visible w e = true →
  timelines w !! e = Some t → bound_callbacks_keep registry e t →
  ∃ w' calls, frames registry dts w = Some (w', calls)
    ∧ timelines w' !! e = Some (runTimeline dts t)
    ∧ callsFor e calls = invocationsOf dts e t.
Proof.
  induction dts as [|dt dts IH]; intros w t Hwf He Hvis Ht Hkeep; simpl.
  - exists w, []. by split.
  - destruct (Update_step dt w e t Hwf He Hvis Ht)
      as (w1 & calls1 & -> & Hsame1 & Hwf1 & Ht1 & Hcalls1).
    { intros name _ Hname. apply Hkeep. unfold phaseCallback in Hname.
      destruct (IsTransitioningIn t); [by left | by right]. }
    simpl.
    destruct (IH w1 (stepTimeline dt t)) as (w' & calls & -> & Ht' & Hcalls);
      try done.
    { destruct Hsame1 as (_ & _ & -> & _). done. }
    { by rewrite (same_frame_visible e w w1). }
    { intros name. destruct (stepTimeline_callbacks dt t) as [-> ->].
      apply Hkeep. }
    simpl. eexists _, _. split; [reflexivity|]. split; [done|].
    by rewrite callsFor_app, Hcalls1, Hcalls.
Qed.

Lemma timelineAfter_step dts e w t :
  well_formed w → e ∈ mEntities w → visible w e = true →
  timelines w !! e = Some t → bound_callbacks_keep registry e t →
  timelineAfter registry dts e w = Some (runTimeline dts t).
Proof.
  intros Hwf He Hvis Ht Hkeep. unfold timelineAfter.
  destruct (frames_step dts e w t Hwf He Hvis Ht Hkeep) as (w' & calls & -> & ? & _).
  done.
Qed.
End StepOfOneEntity.

(** ** The phases under [Update] *)

Section PhasesUnderUpdate.
Context `{FloatOps F}.
Variable registry : Callback → Entity → F → World F → option (World F).
Implicit Types (w : World F) (t : TimelineComponent F) (e : Entity) (dt : F).
Hypothesis Hown : own_entity_only registry.

Lemma invokedBy_unbound dt e t :
  phaseCallback t = None → invokedBy dt e t = [].
Proof.
  unfold phaseCallback, invokedBy. intros Hcb.
  destruct (Active t); simpl; [|done].
  destruct (IsTransitioningIn t); rewrite Hcb; by case_match.
Qed.

Lemma well_formed_store e t w : well_formed w → well_formed (store e t w).
Proof.
  intros (Hplay & Hnd & Hall). split; [done|]. split; [done|].
  intros e' He'. destruct (Hall e' He') as (Ht & Htr & Hl).
  split; [|by split]. rewrite timelines_store.
  destruct (decide (e = e')) as [->|Hne];
    [rewrite lookup_insert_eq; by eexists | by rewrite lookup_insert_ne].
Qed.

Lemma frames_return dts : ∀ w,
  well_formed w → is_Some (frames registry dts w).
Proof.
  induction dts as [|dt dts IH]; intros w Hwf; simpl; [by eexists|].
  destruct (Update_own registry Hown dt w Hwf) as (w1 & calls1 & -> & _ & Hwf1 & _).
  simpl. destruct (IH w1 Hwf1) as [[w' calls] ->]. by eexists.
Qed.

(** One call of [Update] for an entity in its in phase. *)
Lemma Update_in_phase dt e w t :
  well_formed w → e ∈ mEntities w → visible w e = true →
  timelines w !! e = Some t → Active t = true → IsTransitioningIn t = true →
  let t1 := set_DelayAccumulated (f_add (DelayAccumulated t) dt) t in
  let t2 := set_InternalTimer (f_add (InternalTimer t) dt) t1 in
  ∃ w' calls, Update registry dt w = Some (w', calls)
    ∧ (f_lt (DelayAccumulated t1) (TransitionInDelay t) = true →
         timelines w' !! e = Some t1 ∧ callsFor e calls = [])
    ∧ (f_lt (DelayAccumulated t1) (TransitionInDelay t) = false →
         callsFor e calls = invocation (TransitionIn t) e (InternalTimer t2)
         ∧ (∃ wa w1 left,
              timelines wa !! e = Some t2
              ∧ invoke registry (TransitionIn t) e (InternalTimer t2) wa
                = Some (w1, callsFor e calls)
              ∧ timelines w1 !! e = Some left
              ∧ timelines w' !! e = Some (completedIn left))
         ∧ ((∀ name, TransitionIn t = Some name →
               keeps_own_timeline registry name e) →
            timelines w' !! e = Some (completedIn t2))).
Proof.
  intros Hwf He Hvis Ht Hact Hin t1 t2.
  destruct (Update_own registry Hown dt w Hwf)
    as (w' & calls & Hrun & _ & _ & Hat).
  destruct (Hat e t He Hvis Ht)
    as (wa & wb & tr & l & Hta & Htra & Hla & Hvisa & Hbody & Htb).
  exists w', calls. split; [done|].
  rewrite (updateEntity_visible registry dt e wa t tr l) in Hbody by done.
  rewrite Hact, Hin in Hbody; simpl in Hbody.
  set (w0 := ensureTag e (TimelineTag t) wa) in *.
  assert (is_Some (transforms w0 !! e)) as Htr0.
  { eapply same_frame_transform; [apply same_frame_ensureTag | by eexists]. }
  pose proof (transitionIn_own registry Hown dt e t w0 Htr0) as Hbranch.
  cbn zeta in Hbranch. fold t1 t2 in Hbranch.
  destruct (f_lt (DelayAccumulated t1) (TransitionInDelay t)).
  - split; [|done]. intros _. rewrite Hbranch in Hbody. simplify_eq.
    split; [|done]. rewrite Htb. apply lookup_store.
  - split; [done|]. intros _.
    destruct Hbranch as (w1 & left & Hinv & _ & Hleft & _ & Hbranch).
    rewrite Hbranch in Hbody. simplify_eq.
    assert (timelines w' !! e = Some (completedIn left)) as Hafter.
    { rewrite Htb. apply lookup_store. }
    match goal with Hc : _ = callsFor e calls |- _ => rewrite <- Hc end.
    split; [done|]. split.
    + exists (store e t2 w0), w1, left. split; [apply lookup_store|]. done.
    + intros Hkeep. rewrite Hafter. do 2 f_equal.
      destruct (TransitionIn t) as [name|]; simpl in Hinv.
      * destruct (registry name e _ _) as [w2|] eqn:Hreg; simpl in Hinv; [|done].
        simplify_eq. apply (Hkeep name eq_refl) in Hreg.
        rewrite Hleft, lookup_store in Hreg. by simplify_eq.
      * simplify_eq. rewrite lookup_store in Hleft. by simplify_eq.
Qed.

(** One call of [Update] for an entity in its out phase, past the delay. *)
Lemma Update_out_phase dt e w t :
  well_formed w → e ∈ mEntities w → visible w e = true →
  timelines w !! e = Some t → Active t = true → IsTransitioningIn t = false →
  let t1 := set_DelayOutAccumulated (f_add (DelayOutAccumulated t) dt) t in
  let t2 := set_InternalTimer (f_add (InternalTimer t) dt) t1 in
  f_lt (DelayOutAccumulated t1) (TransitionOutDelay t) = false →
  ∃ w' calls, Update registry dt w = Some (w', calls)
    ∧ callsFor e calls = invocation (TransitionOut t) e (InternalTimer t2)
    ∧ (∃ wa w1 left,
         timelines wa !! e = Some t2
         ∧ invoke registry (TransitionOut t) e (InternalTimer t2) wa
           = Some (w1, callsFor e calls)
         ∧ timelines w1 !! e = Some left
         ∧ timelines w' !! e = Some (completedOut left))
    ∧ ((∀ name, TransitionOut t = Some name →
          keeps_own_timeline registry name e) →
       f_ge (InternalTimer t2) (TransitionDuration t) = true →
       timelines w' !! e = Some (set_Active false t2)).
Proof.
  intros Hwf He Hvis Ht Hact Hin t1 t2 Hpast.
  destruct (Update_own registry Hown dt w Hwf)
    as (w' & calls & Hrun & _ & _ & Hat).
  destruct (Hat e t He Hvis Ht)
    as (wa & wb & tr & l & Hta & Htra & Hla & Hvisa & Hbody & Htb).
  exists w', calls. split; [done|].
  rewrite (updateEntity_visible registry dt e wa t tr l) in Hbody by done.
  rewrite Hact, Hin in Hbody; simpl in Hbody.
  set (w0 := ensureTag e (TimelineTag t) wa) in *.
  assert (is_Some (transforms w0 !! e)) as Htr0.
  { eapply same_frame_transform; [apply same_frame_ensureTag | by eexists]. }
  pose proof (transitionOut_own registry Hown dt e t w0 Htr0) as Hbranch.
  cbn zeta in Hbranch. fold t1 t2 in Hbranch. rewrite Hpast in Hbranch.
  destruct Hbranch as (w1 & left & Hinv & _ & Hleft & _ & Hbranch).
  rewrite Hbranch in Hbody. simplify_eq.
  assert (timelines w' !! e = Some (completedOut left)) as Hafter.
  { rewrite Htb. apply lookup_store. }
  match goal with Hc : _ = callsFor e calls |- _ => rewrite <- Hc end.
  split; [done|]. split.
  - exists (store e t2 w0), w1, left. split; [apply lookup_store|]. done.
  - intros Hkeep Hge. rewrite Hafter. f_equal.
    assert (left = t2) as ->.
    { destruct (TransitionOut t) as [name|]; simpl in Hinv.
      * destruct (registry name e _ _) as [w2|] eqn:Hreg; simpl in Hinv; [|done].
        simplify_eq. apply (Hkeep name eq_refl) in Hreg.
        rewrite Hleft, lookup_store in Hreg. by simplify_eq.
      * simplify_eq. rewrite lookup_store in Hleft. by simplify_eq. }
    unfold completedOut.
    change (TransitionDuration t2) with (TransitionDuration t). by rewrite Hge.
Qed.
End PhasesUnderUpdate.

(** ** Unbound callbacks and deactivated timelines *)

Section PhaseClaims.
Context `{FloatOps F}.
Variable registry : Callback → Entity → F → World F → option (World F).
Implicit Types (w : World F) (t : TimelineComponent F) (e : Entity) (dt : F).

(** The state machine does not look at the callbacks. *)
Lemma stepTimeline_set_callbacks dt t cb_in cb_out :
  stepTimeline dt (set_TransitionIn cb_in (set_TransitionOut cb_out t))
  = set_TransitionIn cb_in (set_TransitionOut cb_out (stepTimeline dt t)).
Proof.
  unfold stepTimeline, stepIn, stepOut; destruct t; simpl.
  repeat (case_match; simpl; try done).
Qed.

(** *** A deactivated timeline *)

Lemma invoke_other cb e e' timer w w' calls :
  keeps_timeline_of registry e → e' ≠ e →
  invoke registry cb e' timer w = Some (w', calls) →
  timelines w' !! e = timelines w !! e ∧ Forall (λ c, c.1.2 = e') calls.
Proof.
  intros Hkeep Hne Hinv. destruct cb as [name|]; simpl in Hinv.
  - destruct (registry name e' timer w) as [w1|] eqn:Hreg; simpl in Hinv; [|done].
    simplify_eq. split; [by eapply Hkeep|]. by repeat constructor.
  - by simplify_eq.
Qed.

Lemma completeIn_other e e' w w' :
  e' ≠ e → completeIn e' w = Some w' → timelines w' !! e = timelines w !! e.
Proof.
  intros Hne. unfold completeIn.
  destruct (timelines w !! e') as [t'|]; simpl; [|done].
  case_match; intros ?; simplify_eq; [by apply lookup_store_ne | done].
Qed.

Lemma completeOut_other e e' w w' :
  e' ≠ e → completeOut e' w = Some w' → timelines w' !! e = timelines w !! e.
Proof.
  intros Hne. unfold completeOut.
  destruct (timelines w !! e') as [t'|]; simpl; [|done].
  case_match; intros ?; simplify_eq; [by apply lookup_store_ne | done].
Qed.

(** The loop body on another entity. *)
Lemma updateEntity_other dt e e' w w' calls :
  keeps_timeline_of registry e → e' ≠ e →
  updateEntity registry dt e' w = Some (w', calls) →
  timelines w' !! e = timelines w !! e ∧ Forall (λ c, c.1.2 = e') calls.
Proof.
  intros Hkeep Hne. unfold updateEntity.
  destruct (timelines w !! e') as [t'|]; simpl; [|done].
  destruct (transforms w !! e') as [tr'|]; simpl; [|done].
  destruct (layers w !! e') as [l'|]; simpl; [|done].
  destruct (layerVisibility _ _); simpl; [|by intros; simplify_eq].
  set (w0 := ensureTag e' (TimelineTag t') w).
  assert (timelines w0 !! e = timelines w !! e) as <-
    by (unfold w0; by rewrite timelines_ensureTag).
  clearbody w0.
  destruct (Active t'); simpl; [|by intros; simplify_eq].
  destruct (IsTransitioningIn t').
  - destruct (f_lt (f_add (DelayAccumulated t') dt) (TransitionInDelay t')) eqn:Hw.
    + rewrite transitionIn_waiting by done. intros; simplify_eq.
      split; [by apply lookup_store_ne | done].
    + rewrite transitionIn_running by done. cbn zeta.
      destruct (invoke _ _ _ _ _) as [[w2 calls2]|] eqn:Hinv; simpl; [|done].
      destruct (completeIn e' w2) as [w3|] eqn:Hc; simpl; [|done].
      intros; simplify_eq.
      eapply invoke_other in Hinv as [Hk Hcalls]; [|done..].
      split; [|done]. erewrite completeIn_other by done.
      rewrite Hk. by apply lookup_store_ne.
  - destruct (f_lt (f_add (DelayOutAccumulated t') dt) (TransitionOutDelay t')) eqn:Hw.
    + rewrite transitionOut_waiting by done. intros; simplify_eq.
      split; [by apply lookup_store_ne | done].
    + rewrite transitionOut_running by done. cbn zeta.
      destruct (invoke _ _ _ _ _) as [[w2 calls2]|] eqn:Hinv; simpl; [|done].
      destruct (completeOut e' w2) as [w3|] eqn:Hc; simpl; [|done].
      intros; simplify_eq.
      eapply invoke_other in Hinv as [Hk Hcalls]; [|done..].
      split; [|done]. erewrite completeOut_other by done.
      rewrite Hk. by apply lookup_store_ne.
Qed.

(** The loop body on the deactivated entity itself. *)
Lemma updateEntity_deactivated dt e w w' calls t :
  timelines w !! e = Some t → Active t = false →
  updateEntity registry dt e w = Some (w', calls) →
  timelines w' !! e = Some t ∧ calls = [].
Proof.
  intros Ht Hact. unfold updateEntity. rewrite Ht; simpl.
  destruct (transforms w !! e) as [tr|]; simpl; [|done].
  destruct (layers w !! e) as [l|]; simpl; [|done].
  destruct (layerVisibility _ _); simpl; [|by intros; simplify_eq].
  rewrite Hact; simpl. intros; simplify_eq.
  by rewrite timelines_ensureTag.
Qed.

Lemma forEntities_deactivated dt e t es : ∀ w w' calls,
  keeps_timeline_of registry e →
  timelines w !! e = Some t → Active t = false →
  forEntities registry dt es w = Some (w', calls) →
  timelines w' !! e = Some t ∧ Forall (λ c, c.1.2 ≠ e) calls.
Proof.
  induction es as [|e0 rest IH]; intros w w' calls Hkeep Ht Hact Hrun;
    simpl in Hrun.
  - by simplify_eq.
  - destruct (updateEntity registry dt e0 w) as [[w1 calls1]|] eqn:H1;
      simpl in Hrun; [|done].
    destruct (forEntities registry dt rest w1) as [[w2 calls2]|] eqn:H2;
      simpl in Hrun; [|done].
    simplify_eq.
    assert (timelines w1 !! e = Some t ∧ Forall (λ c, c.1.2 ≠ e) calls1) as [Ht1 Hc1].
    { destruct (decide (e0 = e)) as [->|Hne].
      - destruct (updateEntity_deactivated dt e w w1 calls1 t Ht Hact H1) as [? ->].
        done.
      - destruct (updateEntity_other dt e e0 w w1 calls1 Hkeep Hne H1) as [Hk Hc].
        split; [by rewrite Hk|].
        eapply Forall_impl; [exact Hc|]. simpl. congruence. }
    destruct (IH w1 w' calls2 Hkeep Ht1 Hact H2) as [Ht2 Hc2].
    split; [done|]. by apply Forall_app.
Qed.

Lemma frames_deactivated e t dts : ∀ w w' calls,
  keeps_timeline_of registry e →
  timelines w !! e = Some t → Active t = false →
  frames registry dts w = Some (w', calls) →
  timelines w' !! e = Some t ∧ Forall (λ c, c.1.2 ≠ e) calls.
Proof.
  induction dts as [|dt dts IH]; intros w w' calls Hkeep Ht Hact Hrun;
    simpl in Hrun.
  - by simplify_eq.
  - destruct (Update registry dt w) as [[w1 calls1]|] eqn:H1;
      simpl in Hrun; [|done].
    destruct (frames registry dts w1) as [[w2 calls2]|] eqn:H2;
      simpl in Hrun; [|done].
    simplify_eq.
    assert (timelines w1 !! e = Some t ∧ Forall (λ c, c.1.2 ≠ e) calls1) as [Ht1 Hc1].
    { unfold Update in H1. destruct (IsPlay (engineState w)); simpl in H1.
      - by eapply forEntities_deactivated.
      - by simplify_eq. }
    destruct (IH w1 w' calls2 Hkeep Ht1 Hact H2) as [Ht2 Hc2].
    split; [done|]. by apply Forall_app.
Qed.

End PhaseClaims.

(** ** Comparisons in exact arithmetic *)

Section ExactComparisons.
Local Open Scope Q_scope.

Lemma exact_lt a b : f_lt a b = true ↔ a < b.
Proof.
  simpl. rewrite negb_true_iff. split.
  - intros Hf. apply Qnot_le_lt. intros Hle.
    apply Qle_bool_iff in Hle. congruence.
  - intros Hlt. destruct (Qle_bool b a) eqn:Hb; [|done].
    apply Qle_bool_iff in Hb. lra.
Qed.

Lemma exact_lt_false a b : f_lt a b = false ↔ b <= a.
Proof.
  simpl. rewrite negb_false_iff. apply Qle_bool_iff.
Qed.

Lemma exact_ge a b : f_ge a b = true ↔ b <= a.
Proof. simpl. apply Qle_bool_iff. Qed.

Lemma exact_ge_false a b : f_ge a b = false ↔ a < b.
Proof.
  simpl. split.
  - intros Hf. apply Qnot_le_lt. intros Hle.
    apply Qle_bool_iff in Hle. congruence.
  - intros Hlt. destruct (Qle_bool b a) eqn:Hb; [|done].
    apply Qle_bool_iff in Hb. lra.
Qed.

End ExactComparisons.






(** ** Reactivation *)

Section Reactivation.
Context {F : Type}.
Implicit Types (w : World F) (t : TimelineComponent F) (e : Entity).


(** [ToggleActive] with the tag of a tracked timeline. *)
Lemma ToggleActive_reactivates w e t :
  tracked_have_timeline w → e ∈ mEntities w → timelines w !! e = Some t →
  ∃ w' out, ToggleActive (TimelineTag t) w = Some (w', out)
    ∧ timelines w' !! e = Some (set_Active true t)
    ∧ transforms w' = transforms w ∧ layers w' = layers w
    ∧ engineState w' = engineState w.
Proof.
  intros Htracked He Ht. unfold ToggleActive.
  unfold tracked_have_timeline in Htracked. rewrite Forall_forall in Htracked.
  destruct (toggleLoop_total (TimelineTag t) (mEntities w) w false [] Htracked)
    as [[[w' a'] out'] Hrun].
  rewrite Hrun; simpl. eexists _, _. split; [reflexivity|].
  apply toggleLoop_effect in Hrun as (Hlook & Hes & _ & Htr & Hl & _).
  rewrite Hlook, Ht; simpl. by rewrite toggled_cons_in.
Qed.
End Reactivation.


(** ** The transition-in phase *)

(** C1 (amended): the transition-in phase, for any arithmetic (binary32
    included) and callbacks that write their own entity only.  One call of
    [Update] first adds [deltaTime] to [DelayAccumulated]; while the sum is
    below [TransitionInDelay] nothing else of the timeline changes and no
    callback is invoked for the entity; otherwise the call adds [deltaTime]
    to [InternalTimer], invokes the [TransitionIn] callback (when one is
    bound) with that timer, and makes the completion check on the
    component as the callback left it: [IsTransitioningIn = false] and
    both [InternalTimer] and [DelayAccumulated] at zero when the timer it
    finds has reached [TransitionDuration].  When the bound callbacks leave
    the timeline alone the flag is set to false at most once over a run of
    frames: it is true after each frame up to one frame of the run and
    false after every later one, and that frame is the first in which the
    sums [DelayAccumulated + deltaTime] and [InternalTimer + deltaTime], as
    the arithmetic computes them, are not below the delay and the
    duration; it leaves [InternalTimer] and [DelayAccumulated] at zero. *)
Theorem transition_in_phase :
  (∀ (F : Type) (ops : FloatOps F)
     (registry : Callback → Entity → F → World F → option (World F))
     dt e (w : World F) t,
     own_entity_only registry → well_formed w → e ∈ mEntities w →
     visible w e = true → timelines w !! e = Some t →
     Active t = true → IsTransitioningIn t = true →
     let t1 := set_DelayAccumulated (f_add (DelayAccumulated t) dt) t in
     let t2 := set_InternalTimer (f_add (InternalTimer t) dt) t1 in
     ∃ w' calls, Update registry dt w = Some (w', calls)
       ∧ (f_lt (DelayAccumulated t1) (TransitionInDelay t) = true →
            timelines w' !! e = Some t1 ∧ callsFor e calls = [])
       ∧ (f_lt (DelayAccumulated t1) (TransitionInDelay t) = false →
            callsFor e calls = invocation (TransitionIn t) e (InternalTimer t2)
            ∧ (∃ wa w1 left,
                 timelines wa !! e = Some t2
                 ∧ invoke registry (TransitionIn t) e (InternalTimer t2) wa
                   = Some (w1, callsFor e calls)
                 ∧ timelines w1 !! e = Some left
                 ∧ timelines w' !! e = Some (completedIn left))
            ∧ ((∀ name, TransitionIn t = Some name →
                  keeps_own_timeline registry name e) →
               timelines w' !! e = Some (completedIn t2))))
  ∧ (∀ (F : Type) (ops : FloatOps F)
       (registry : Callback → Entity → F → World F → option (World F))
       dts e (w : World F) t,
       own_entity_only registry → well_formed w → e ∈ mEntities w →
       visible w e = true → timelines w !! e = Some t →
       bound_callbacks_keep registry e t →
       Active t = true → IsTransitioningIn t = true →
       ∃ n,
         (∀ k, (k ≤ length dts)%nat →
            IsTransitioningIn <$> timelineAfter registry (take k dts) e w
            = Some (bool_decide (k ≤ n)%nat))
         ∧ ∀ d, dts !! n = Some d →
             ∃ before,
               timelineAfter registry (take n dts) e w = Some before
               ∧ let advanced :=
                   set_InternalTimer (f_add (InternalTimer before) d)
                     (set_DelayAccumulated
                        (f_add (DelayAccumulated before) d) before) in
                 f_lt (DelayAccumulated advanced) (TransitionInDelay before)
                   = false
                 ∧ f_ge (InternalTimer advanced) (TransitionDuration before)
                   = true
                 ∧ timelineAfter registry (take (S n) dts) e w
                   = Some (set_DelayAccumulated f_zero
                             (set_InternalTimer f_zero
                                (set_IsTransitioningIn false advanced)))).
Proof.
  split.
  - intros F ops registry dt e w t Hown Hwf He Hvis Ht Hact Hin.
    by apply Update_in_phase.
  - intros F ops registry dts e w t Hown Hwf He Hvis Ht Hkeep Hact Hin.
    destruct (in_phase_flips_once dts t Hact Hin) as (n & Hflag & Hflip).
    exists n. split.
    + intros k Hk.
      rewrite (timelineAfter_step registry Hown _ e w t) by done.
      simpl. f_equal. by apply Hflag.
    + intros d Hd. exists (runTimeline (take n dts) t).
      rewrite !(timelineAfter_step registry Hown _ e w t) by done.
      split; [done|]. destruct (Hflip d Hd) as (Hpast & Hdone & Hafter).
      cbn zeta. split; [done|]. split; [done|]. by rewrite Hafter.
Qed.

(** ** Unbound callbacks and deactivation *)

Section PhaseTheorems.
Context `{FloatOps F}.
Variable registry : Callback → Entity → F → World F → option (World F).
Implicit Types (w : World F) (t : TimelineComponent F) (e : Entity) (dt : F).

(** C7: an entity in an active phase whose callback for that phase is
    unbound, among callbacks that write their own entity only.  [Update]
    returns without error, invokes nothing for the entity and leaves its
    timeline at the state machine's step: past the delay, the timer
    advanced by [deltaTime] and the completion check made on it.  With
    callbacks bound in place of the unbound ones that leave the timeline
    alone, [Update] leaves the component the same but for the bindings. *)
Theorem unbound_callback_is_tolerated dt e w t :
  own_entity_only registry → well_formed w → e ∈ mEntities w →
  visible w e = true → timelines w !! e = Some t →
  Active t = true → phaseCallback t = None →
  (∃ w' calls, Update registry dt w = Some (w', calls)
     ∧ timelines w' !! e = Some (stepTimeline dt t)
     ∧ callsFor e calls = [])
  ∧ (IsTransitioningIn t = true →
     f_lt (f_add (DelayAccumulated t) dt) (TransitionInDelay t) = false →
     stepTimeline dt t =
       let t2 := set_InternalTimer (f_add (InternalTimer t) dt)
                   (set_DelayAccumulated (f_add (DelayAccumulated t) dt) t) in
       if f_ge (f_add (InternalTimer t) dt) (TransitionDuration t)
       then set_DelayAccumulated f_zero
              (set_InternalTimer f_zero (set_IsTransitioningIn false t2))
       else t2)
  ∧ (IsTransitioningIn t = false →
     f_lt (f_add (DelayOutAccumulated t) dt) (TransitionOutDelay t) = false →
     stepTimeline dt t =
       let t2 := set_InternalTimer (f_add (InternalTimer t) dt)
                   (set_DelayOutAccumulated (f_add (DelayOutAccumulated t) dt) t) in
       if f_ge (f_add (InternalTimer t) dt) (TransitionDuration t)
       then set_Active false t2 else t2)
  ∧ (∀ cb_in cb_out,
     let bound := set_TransitionIn cb_in (set_TransitionOut cb_out t) in
     (∀ name, phaseCallback bound = Some name →
        keeps_own_timeline registry name e) →
     ∃ w' calls, Update registry dt (store e bound w) = Some (w', calls)
       ∧ timelines w' !! e =
           Some (set_TransitionIn cb_in
                   (set_TransitionOut cb_out (stepTimeline dt t)))
       ∧ callsFor e calls = invokedBy dt e bound).
Proof.
  intros Hown Hwf He Hvis Ht Hact Hcb. split; [|split; [|split]].
  - destruct (Update_step registry Hown dt w e t Hwf He Hvis Ht)
      as (w' & calls & Hrun & _ & _ & Hafter & Hcalls).
    { intros name _ Hname. congruence. }
    exists w', calls. split; [done|]. split; [done|].
    by rewrite Hcalls, invokedBy_unbound.
  - intros Hin Hw. unfold stepTimeline, stepIn. rewrite Hact, Hin; simpl.
    by rewrite Hw.
  - intros Hin Hw. unfold stepTimeline, stepOut. rewrite Hact, Hin; simpl.
    by rewrite Hw.
  - intros cb_in cb_out bound Hkeep.
    destruct (Update_step registry Hown dt (store e bound w) e bound)
      as (w' & calls & Hrun & _ & _ & Hafter & Hcalls).
    { by apply well_formed_store. }
    { done. }
    { done. }
    { apply lookup_store. }
    { intros name _. apply Hkeep. }
    exists w', calls. split; [done|]. split; [|done].
    rewrite Hafter. f_equal. apply stepTimeline_set_callbacks.
Qed.

(** C5 (amended): the end of the transition-out phase, among callbacks that
    write their own entity only.  Past the out delay, [Update] adds
    [deltaTime] to [InternalTimer], invokes the [TransitionOut] callback
    and sets [Active = false] when the timer, as the callback left it, has
    reached [TransitionDuration]; with a callback that leaves the timeline
    alone that is when [InternalTimer + deltaTime] has reached it.  From
    then on no run of frames changes the component or invokes a callback
    for the entity, as long as the callbacks of the other entities leave
    this timeline alone, and such runs return.  [ToggleActive] with the
    timeline's tag sets [Active] again. *)
Theorem deactivated_timeline_is_terminal e :
  (∀ dt w t,
     own_entity_only registry → well_formed w → e ∈ mEntities w →
     visible w e = true → timelines w !! e = Some t →
     Active t = true → IsTransitioningIn t = false →
     let t1 := set_DelayOutAccumulated (f_add (DelayOutAccumulated t) dt) t in
     let t2 := set_InternalTimer (f_add (InternalTimer t) dt) t1 in
     f_lt (DelayOutAccumulated t1) (TransitionOutDelay t) = false →
     ∃ w' calls, Update registry dt w = Some (w', calls)
       ∧ callsFor e calls = invocation (TransitionOut t) e (InternalTimer t2)
       ∧ (∃ wa w1 left,
            timelines wa !! e = Some t2
            ∧ invoke registry (TransitionOut t) e (InternalTimer t2) wa
              = Some (w1, callsFor e calls)
            ∧ timelines w1 !! e = Some left
            ∧ timelines w' !! e = Some (completedOut left))
       ∧ ((∀ name, TransitionOut t = Some name →
             keeps_own_timeline registry name e) →
          f_ge (InternalTimer t2) (TransitionDuration t) = true →
          timelines w' !! e = Some (set_Active false t2)))
  ∧ (∀ dts w w' calls t,
       keeps_timeline_of registry e →
       timelines w !! e = Some t → Active t = false →
       frames registry dts w = Some (w', calls) →
       timelines w' !! e = Some t ∧ Forall (λ c, c.1.2 ≠ e) calls)
  ∧ (∀ dts w, own_entity_only registry → well_formed w →
       is_Some (frames registry dts w))
  ∧ (∀ w t, tracked_have_timeline w → e ∈ mEntities w →
       timelines w !! e = Some t →
       ∃ w' out, ToggleActive (TimelineTag t) w = Some (w', out)
         ∧ timelines w' !! e = Some (set_Active true t)).
Proof.
  split; [|split; [|split]].
  - intros dt w t Hown Hwf He Hvis Ht Hact Hin t1 t2 Hpast.
    by apply Update_out_phase.
  - intros dts w w' calls t Hkeep Ht Hact Hrun. by eapply frames_deactivated.
  - intros dts w Hown Hwf. by apply frames_return.
  - intros w t Htracked He Ht.
    destruct (ToggleActive_reactivates w e t Htracked He Ht)
      as (w' & out & Hrun & Hafter & _).
    by exists w', out.
Qed.
End PhaseTheorems.

(** ** Progress of a phase *)

Section Progress.
Local Open Scope Q_scope.

Lemma progress_exact (timer duration : Q) :
  progress timer duration =
    if f_lt 1 (timer / duration) then 1 else timer / duration.
Proof. reflexivity. Qed.

Lemma progress_le_1 (timer duration : Q) : progress timer duration <= 1.
Proof.
  rewrite progress_exact.
  destruct (f_lt 1 (timer / duration)) eqn:Hlt.
  - lra.
  - by apply exact_lt_false in Hlt.
Qed.

Lemma quotient_mono (t1 t2 duration : Q) :
  0 < duration → t1 <= t2 → t1 / duration <= t2 / duration.
Proof.
  intros HD Hle. unfold Qdiv. apply Qmult_le_compat_r; [done|].
  apply Qinv_le_0_compat. lra.
Qed.

Lemma progress_mono (t1 t2 duration : Q) :
  0 < duration → t1 <= t2 → progress t1 duration <= progress t2 duration.
Proof.
  intros HD Hle. pose proof (quotient_mono t1 t2 duration HD Hle) as Hq.
  rewrite !progress_exact.
  destruct (f_lt 1 (t1 / duration)) eqn:H1; destruct (f_lt 1 (t2 / duration)) eqn:H2.
  - lra.
  - apply exact_lt in H1. apply exact_lt_false in H2. lra.
  - by apply exact_lt_false in H1.
  - done.
Qed.

Lemma progress_complete (timer duration : Q) :
  0 < duration → duration <= timer → progress timer duration == 1.
Proof.
  intros HD Hle. rewrite progress_exact.
  assert (1 <= timer / duration) as Hq by (apply Qle_shift_div_l; lra).
  destruct (f_lt 1 (timer / duration)) eqn:H1.
  - reflexivity.
  - apply exact_lt_false in H1. lra.
Qed.
End Progress.

Lemma progress_binary32_le_1 (timer duration : binary32) :
  f_lt f_one (progress timer duration) = false.
Proof.
  unfold progress, std_min.
  destruct (f_lt f_one (f_div timer duration)) eqn:Hlt; [reflexivity | exact Hlt].
Qed.

(** C6: [progress = min(timer / TransitionDuration, 1.0)] as the callbacks
    compute it.  In exact arithmetic and for a positive duration it does not
    decrease when the timer grows, it never exceeds 1 however far the timer
    overshoots, and it is 1 as soon as the timer has reached the duration; in
    binary32 too it never compares greater than [1.0f].  In a frame in which
    the state machine ends a phase (callbacks that only draw), the timer
    handed to the callback of that phase has progress 1. *)
Theorem progress_is_monotone_and_clamped :
  (∀ t1 t2 duration : Q,
     (0 < duration)%Q → (t1 <= t2)%Q →
     (progress t1 duration <= progress t2 duration)%Q)
  ∧ (∀ timer duration : Q, (progress timer duration <= 1)%Q)
  ∧ (∀ timer duration : binary32, f_lt f_one (progress timer duration) = false)
  ∧ (∀ timer duration : Q,
       (0 < duration)%Q → (duration <= timer)%Q →
       (progress timer duration == 1)%Q)
  ∧ (∀ (registry : Callback → Entity → Q → World Q → option (World Q))
       dt e w t w' calls,
       visual_only registry →
       timelines w !! e = Some t → is_Some (transforms w !! e) →
       visible w e = true →
       Active t = true → (0 < TransitionDuration t)%Q →
       updateEntity registry dt e w = Some (w', calls) →
       (IsTransitioningIn t = true
          ∧ IsTransitioningIn <$> timelines w' !! e = Some false)
       ∨ (IsTransitioningIn t = false
          ∧ Active <$> timelines w' !! e = Some false) →
       ∀ name e' timer, (name, e', timer) ∈ calls →
         (progress timer (TransitionDuration t) == 1)%Q).
Proof.
  split; [exact progress_mono|]. split; [exact progress_le_1|].
  split; [exact progress_binary32_le_1|]. split; [exact progress_complete|].
  intros registry dt e w t w' calls Hvisual Ht Htr Hvis Hact HD Hrun Hend
    name e' timer Hcall.
  assert (is_Some (layers w !! e)) as Hl.
  { unfold visible in Hvis. destruct (layers w !! e); [by eexists | done]. }
  destruct (updateEntity_refines registry Hvisual dt e w t Ht Htr Hl)
    as (w1 & Hrun1 & Htl & _).
  rewrite Hvis in Hrun1, Htl. rewrite Hrun in Hrun1. simplify_eq.
  rewrite Htl, lookup_insert_eq in Hend. simpl in Hend.
  unfold invokedBy in Hcall. unfold stepTimeline, stepIn, stepOut in Hend.
  rewrite Hact in Hcall, Hend. simpl negb in Hcall, Hend. cbv iota in Hcall, Hend.
  destruct Hend as [[Hin Hend]|[Hin Hend]]; rewrite Hin in Hcall, Hend;
    cbn [DelayAccumulated DelayOutAccumulated TransitionInDelay
         TransitionOutDelay TransitionDuration InternalTimer
         set_DelayAccumulated set_DelayOutAccumulated set_InternalTimer]
      in Hend.
  - destruct (f_lt (f_add (DelayAccumulated t) dt) (TransitionInDelay t));
      [set_solver|].
    destruct (f_ge (f_add (InternalTimer t) dt) (TransitionDuration t)) eqn:Hge.
    + apply exact_ge in Hge.
      destruct (TransitionIn t); [|set_solver].
      apply list_elem_of_singleton in Hcall. simplify_eq.
      by apply progress_complete.
    + simpl in Hend. congruence.
  - destruct (f_lt (f_add (DelayOutAccumulated t) dt) (TransitionOutDelay t));
      [set_solver|].
    destruct (f_ge (f_add (InternalTimer t) dt) (TransitionDuration t)) eqn:Hge.
    + apply exact_ge in Hge.
      destruct (TransitionOut t); [|set_solver].
      apply list_elem_of_singleton in Hcall. simplify_eq.
      by apply progress_complete.
    + simpl in Hend. congruence.
Qed.

(** ** The order of drawing *)

Section GraphicsOrder.
Import Graphics.
Variable layers : gmap Entity LayerComponent.
Implicit Types (a b c : Entity) (l : list Entity).

Lemma key_lt_irrefl k : ¬ key_lt k k.
Proof. destruct k as [[? ?] ?]. unfold key_lt. lia. Qed.

Lemma key_lt_trans k1 k2 k3 : key_lt k1 k2 → key_lt k2 k3 → key_lt k1 k3.
Proof. destruct k1 as [[? ?] ?], k2 as [[? ?] ?], k3 as [[? ?] ?]. unfold key_lt. lia. Qed.

Lemma key_lt_total k1 k2 : k1 ≠ k2 → key_lt k1 k2 ∨ key_lt k2 k1.
Proof.
  destruct k1 as [[l1 s1] a1], k2 as [[l2 s2] a2]. unfold key_lt. intros Hne.
  destruct (decide (l1 = l2)) as [->|]; [|lia].
  destruct (decide (s1 = s2)) as [->|]; [|lia].
  destruct (decide (a1 = a2)) as [->|]; [done|lia].
Qed.

(** The comparator decides the lexicographic order on the keys. *)
Lemma compare_key a b la lb :
  layers !! a = Some la → layers !! b = Some lb →
  compare layers a b =
    Some (bool_decide (key_lt (layerID la, sortID la, a) (layerID lb, sortID lb, b))).
Proof.
  intros Ha Hb. unfold compare. rewrite Ha, Hb; simpl. unfold key_lt.
  case_bool_decide as Hl; [|case_bool_decide as Hs]; f_equal.
  - destruct (Z.ltb_spec (layerID la) (layerID lb)).
    + rewrite bool_decide_eq_true_2; [done | lia].
    + rewrite bool_decide_eq_false_2; [done | lia].
  - destruct (Z.ltb_spec (sortID la) (sortID lb)).
    + rewrite bool_decide_eq_true_2; [done | lia].
    + rewrite bool_decide_eq_false_2; [done | lia].
  - destruct (N.ltb_spec a b).
    + rewrite bool_decide_eq_true_2; [done | lia].
    + rewrite bool_decide_eq_false_2; [done | lia].
Qed.

Lemma compare_before a b :
  is_Some (layers !! a) → is_Some (layers !! b) →
  compare layers a b = Some (bool_decide (before layers a b)).
Proof.
  intros [la Ha] [lb Hb]. rewrite (compare_key a b la lb) by done.
  f_equal. apply bool_decide_ext. unfold before, key. by rewrite Ha, Hb.
Qed.

Lemma before_irrefl a : ¬ before layers a a.
Proof.
  unfold before. destruct (key layers a); [apply key_lt_irrefl | tauto].
Qed.

Lemma before_trans a b c :
  before layers a b → before layers b c → before layers a c.
Proof.
  unfold before.
  destruct (key layers a), (key layers b), (key layers c); try done.
  apply key_lt_trans.
Qed.

Lemma before_asym a b : before layers a b → ¬ before layers b a.
Proof. intros Hab Hba. apply (before_irrefl a). by eapply before_trans. Qed.

Lemma before_total a b :
  is_Some (layers !! a) → is_Some (layers !! b) → a ≠ b →
  before layers a b ∨ before layers b a.
Proof.
  intros [la Ha] [lb Hb] Hne. unfold before, key. rewrite Ha, Hb.
  apply (key_lt_total (layerID la, sortID la, a) (layerID lb, sortID lb, b)).
  congruence.
Qed.

(** Insertion into a sorted list. *)
Lemma insert_sorted x l :
  is_Some (layers !! x) → (∀ y, y ∈ l → is_Some (layers !! y)) → x ∉ l →
  StronglySorted (before layers) l →
  ∃ l', insert (compare layers) x l = Some l'
    ∧ l' ≡ₚ x :: l ∧ StronglySorted (before layers) l'.
Proof.
  intros Hx. induction l as [|y rest IH]; intros Hall Hnotin Hsorted; simpl.
  - exists [x]. split; [done|]. split; [done|]. by repeat constructor.
  - apply StronglySorted_inv in Hsorted as [Hrest Hy].
    assert (is_Some (layers !! y)) as Hyl by (apply Hall; left).
    rewrite (compare_before x y) by done; simpl.
    apply not_elem_of_cons in Hnotin as [Hne Hnotin].
    case_bool_decide as Hxy.
    + exists (x :: y :: rest). split; [done|]. split; [done|].
      constructor; [by constructor|]. constructor; [done|].
      eapply Forall_impl; [exact Hy|]. intros z Hyz. by eapply before_trans.
    + destruct IH as (rest' & -> & Hperm & Hsorted'); [|done..|].
      { intros z Hz. apply Hall. by right. }
      simpl. exists (y :: rest'). split; [done|]. split.
      * rewrite Hperm. apply Permutation_swap.
      * constructor; [done|]. rewrite Hperm. constructor; [|done].
        destruct (before_total x y) as [?|?]; done.
Qed.

Lemma std_sort_sorted l :
  NoDup l → (∀ y, y ∈ l → is_Some (layers !! y)) →
  ∃ l', std_sort (compare layers) l = Some l'
    ∧ l' ≡ₚ l ∧ StronglySorted (before layers) l'.
Proof.
  induction l as [|x rest IH]; intros Hnd Hall; simpl.
  - exists []. split; [done|]. split; [done|]. constructor.
  - apply NoDup_cons in Hnd as [Hnotin Hnd].
    destruct IH as (sorted & -> & Hperm & Hsorted); [done| |].
    { intros y Hy. apply Hall. by right. }
    simpl. destruct (insert_sorted x sorted) as (l' & -> & Hperm' & Hsorted').
    + apply Hall. left.
    + intros y Hy. apply Hall. right. by rewrite <- Hperm.
    + by rewrite Hperm.
    + done.
    + exists l'. split; [done|]. split; [|done]. by rewrite Hperm', Hperm.
Qed.

(** A list that [std::sort] may return is sorted by the keys. *)
Lemma sorted_by_before l :
  NoDup l → (∀ y, y ∈ l → is_Some (layers !! y)) →
  sorted_by (compare layers) l → StronglySorted (before layers) l.
Proof.
  unfold sorted_by. induction l as [|x rest IH]; intros Hnd Hall Hs.
  - constructor.
  - apply NoDup_cons in Hnd as [Hnotin Hnd].
    apply StronglySorted_inv in Hs as [Hrest Hx].
    constructor.
    + apply IH; [done| |done]. intros y Hy. apply Hall. by right.
    + apply Forall_forall. intros y Hy.
      rewrite Forall_forall in Hx. specialize (Hx y Hy).
      assert (is_Some (layers !! x)) as Hxl by (apply Hall; left).
      assert (is_Some (layers !! y)) as Hyl by (apply Hall; by right).
      rewrite (compare_before y x) in Hx by done.
      destruct (before_total x y) as [?|Hyx]; [done..| |done|].
      * intros ->. done.
      * simplify_eq. by rewrite bool_decide_eq_true_2 in Hx.
Qed.

Lemma compare_Some a b r :
  compare layers a b = Some r → is_Some (layers !! a) ∧ is_Some (layers !! b).
Proof.
  unfold compare. destruct (layers !! a), (layers !! b); simpl; done.
Qed.

Lemma compare_true a b : compare layers a b = Some true ↔ before layers a b.
Proof.
  split.
  - intros Hc. destruct (compare_Some a b true Hc) as [Ha Hb].
    rewrite (compare_before a b Ha Hb) in Hc. simplify_eq.
    by eapply bool_decide_eq_true_1.
  - intros Hb. assert (is_Some (layers !! a) ∧ is_Some (layers !! b)) as [Ha Hb'].
    { unfold before, key in Hb.
      destruct (layers !! a), (layers !! b); simpl in Hb; done. }
    rewrite (compare_before a b Ha Hb'). by rewrite bool_decide_eq_true_2.
Qed.

(** C8: the comparator of the per-frame sort decides the lexicographic
    order on (layerID, sortID, entity id); on entities that carry a
    [LayerComponent] it is irreflexive, transitive and total on distinct
    entities, hence a strict weak ordering in which no two distinct
    entities are equivalent.  For a member set without repetition whose
    entities all carry a [LayerComponent], the sort returns a permutation
    of the member set in strictly increasing key order, and that list is
    the only one [std::sort] may return: the order is total and leaves
    nothing to stability. *)
Theorem sortedEntities_is_totally_ordered :
  (∀ a b la lb, layers !! a = Some la → layers !! b = Some lb →
     compare layers a b =
       Some (bool_decide (key_lt (layerID la, sortID la, a)
                                 (layerID lb, sortID lb, b))))
  ∧ (∀ a, is_Some (layers !! a) → compare layers a a = Some false)
  ∧ (∀ a b c, compare layers a b = Some true → compare layers b c = Some true →
       compare layers a c = Some true)
  ∧ (∀ a b, is_Some (layers !! a) → is_Some (layers !! b) → a ≠ b →
       compare layers a b = Some true ∨ compare layers b a = Some true)
  ∧ (∀ mEntities,
       NoDup mEntities → (∀ e, e ∈ mEntities → is_Some (layers !! e)) →
       ∃ sorted, sortedEntities layers mEntities = Some sorted
         ∧ sorted ≡ₚ mEntities
         ∧ StronglySorted (before layers) sorted
         ∧ ∀ l, l ≡ₚ mEntities → sorted_by (compare layers) l → l = sorted).
Proof.
  split; [exact compare_key|]. split; [|split; [|split]].
  - intros a Ha. rewrite (compare_before a a Ha Ha).
    rewrite bool_decide_eq_false_2; [done | apply before_irrefl].
  - intros a b c. rewrite !compare_true. apply before_trans.
  - intros a b Ha Hb Hne. rewrite !compare_true. by apply before_total.
  - intros mEntities Hnd Hall.
    destruct (std_sort_sorted mEntities Hnd Hall) as (sorted & Hs & Hperm & Hsorted).
    exists sorted. split; [exact Hs|]. split; [done|]. split; [done|].
    intros l Hl Hby.
    apply (StronglySorted_unique_strong (before layers)); [| |done|by rewrite Hl, Hperm].
    + intros x1 x2 _ _ H12 H21. by destruct (before_asym x1 x2).
    + apply sorted_by_before; [by rewrite Hl| |done].
      intros y Hy. apply Hall. by rewrite <- Hl.
Qed.
End GraphicsOrder.

(** ** The registered callbacks *)

Section Registry.
Context `{FloatOps F}.

(** [ScaleUpEvent] and the callbacks without effect on the modelled
    components only draw, and touch no timeline. *)
Lemma scaleRegistry_visual_only : visual_only (scaleRegistry (F:=F)).
Proof.
  intros name e timer w _ [tr Htr]. exists w.
  unfold scaleRegistry, ScaleUpEvent. rewrite Htr; simpl.
  split; [by case_bool_decide|]. split; [done|]. by repeat split.
Qed.

Lemma scaleRegistry_keeps e : keeps_timeline_of (scaleRegistry (F:=F)) e.
Proof.
  intros name other timer w w' _. unfold scaleRegistry, ScaleUpEvent.
  case_bool_decide; [|by intros; simplify_eq].
  destruct (transforms w !! other); simpl; [|done]. by intros; simplify_eq.
Qed.

Lemma bossWorld_well_formed (t : TimelineComponent F) :
  well_formed (bossWorld playing t).
Proof.
  split; [done|]. split; [apply NoDup_singleton|].
  intros e He. apply list_elem_of_singleton in He as ->.
  repeat split; by eexists.
Qed.
End Registry.

(** ** Runs in binary32 *)

(** Scenario 1: after half a second the timeline is still waiting; only
    [DelayAccumulated] has moved. *)
Example waiting_after_half_a_second :
  timelineAfter scaleRegistry [seconds_0_5] 7%N (bossWorld playing bossTimeline)
  = Some (set_DelayAccumulated seconds_0_5 bossTimeline).
Proof. vm_compute. reflexivity. Qed.

(** Scenario 2 in frames of half a second: the delay is over with the second
    frame, whose time already counts towards the timer, so the phase is
    complete with the fifth frame; timer and delay are back at zero. *)
Example in_phase_in_half_seconds :
  (λ k, IsTransitioningIn <$>
          timelineAfter scaleRegistry (replicate k seconds_0_5) 7%N
            (bossWorld playing bossTimeline)) <$> seq 0 7
  = Some <$> [true; true; true; true; true; false; false]
  ∧ timelineAfter scaleRegistry (replicate 5 seconds_0_5) 7%N
      (bossWorld playing bossTimeline)
    = Some (set_IsTransitioningIn false bossTimeline).
Proof. split; vm_compute; reflexivity. Qed.

(** The callbacks invoked over these frames, with the timer they are handed:
    "ScaleUp" from the second frame to the fifth, then "FadeOut". *)
Example invocations_in_half_seconds :
  snd <$> frames scaleRegistry (replicate 6 seconds_0_5)
            (bossWorld playing bossTimeline)
  = Some [("ScaleUp", 7%N, seconds_0_5); ("ScaleUp", 7%N, seconds_1);
          ("ScaleUp", 7%N, b32 12582912 (-23)); ("ScaleUp", 7%N, seconds_2);
          ("FadeOut", 7%N, seconds_0_5)].
Proof. vm_compute. reflexivity. Qed.

(** [SlideOut] writes the timeline itself: bound as [TransitionOut] it
    resets [InternalTimer] when its progress is complete, before the
    completion check of the state machine reads the timer, and the timeline
    stays active. *)
Example SlideOut_resets_the_timer :
  let t := set_TransitionOut (Some "SlideOut")
             (set_IsTransitioningIn false bossTimeline) in
  timelineAfter slideRegistry [seconds_2] 7%N (bossWorld playing t)
  = Some (set_DelayOutAccumulated seconds_2 t).
Proof. vm_compute. reflexivity. Qed.

(** ** The properties on concrete worlds *)

Lemma Update_outside_play_mode_witness :
  Update slideRegistry seconds_0_5 (bossWorld (F:=binary32) editing bossTimeline)
  = Some (bossWorld (F:=binary32) editing bossTimeline, []).
Proof. apply Update_outside_play_mode. reflexivity. Defined.

(** C3, as stated, fails: entity 7 is inactive and on a visible layer, and one
    [Update] attaches the tag "Boss" to it. *)
Lemma inactive_entity_is_tagged :
  let w := bossWorld (F:=binary32) playing (set_Active false bossTimeline) in
  ∃ w', Update slideRegistry seconds_0_5 w = Some (w', [])
    ∧ (Active <$> timelines w !! 7%N) = Some false
    ∧ (layerVisibility (engineState w) <$> (layerID <$> layers w !! 7%N)) = Some true
    ∧ tagsOf w 7%N = []
    ∧ tagsOf w' 7%N = ["Boss"].
Proof. eexists. repeat split; vm_compute; reflexivity. Qed.

Lemma updateEntity_inactive_witness :
  let w := bossWorld (F:=binary32) playing (set_Active false bossTimeline) in
  ∃ w', updateEntity slideRegistry seconds_0_5 7%N w = Some (w', [])
    ∧ timelines w' = timelines w
    ∧ transforms w' = transforms w ∧ layers w' = layers w
    ∧ engineState w' = engineState w ∧ mEntities w' = mEntities w
    ∧ tagsOf w' 7%N =
        (if HasTag w 7%N "Boss" then tagsOf w 7%N else tagsOf w 7%N ++ ["Boss"])
    ∧ ∀ e', 7%N ≠ e' → tagsOf w' e' = tagsOf w e'.
Proof.
  apply (updateEntity_inactive slideRegistry seconds_0_5 7%N
           (bossWorld (F:=binary32) playing (set_Active false bossTimeline))
           (set_Active false bossTimeline) origin {| layerID := 2; sortID := 0 |});
    reflexivity.
Defined.

Lemma ToggleActive_by_tag_witness :
  let w := bossWorld (F:=binary32) playing (set_Active false bossTimeline) in
  ∃ w' out, ToggleActive "Minion" w = Some (w', out)
    ∧ (∀ e t, e ∈ mEntities w → timelines w !! e = Some t →
         TimelineTag t = "Minion" →
         Active <$> timelines w' !! e = Some true)
    ∧ ((∀ e t, e ∈ mEntities w → timelines w !! e = Some t →
          TimelineTag t ≠ "Minion") →
       w' = w ∧ cout out = [] ∧ cerr out = [notFoundWarning "Minion"])
    ∧ ((∃ e t, e ∈ mEntities w ∧ timelines w !! e = Some t ∧
          TimelineTag t = "Minion") →
       cerr out = []).
Proof.
  apply (ToggleActive_by_tag "Minion"
           (bossWorld (F:=binary32) playing (set_Active false bossTimeline))).
  repeat constructor. by eexists.
Defined.

Lemma ToggleActive_only_Active_witness :
  let w := bossWorld (F:=binary32) playing (set_Active false bossTimeline) in
  let w' := bossWorld (F:=binary32) playing bossTimeline in
  let out := {| cout := [activatedMessage "Boss" 7%N]; cerr := [] |} in
  ToggleActive "Boss" w = Some (w', out)
  ∧ transforms w' = transforms w ∧ layers w' = layers w ∧ tags w' = tags w.
Proof.
  intros w w' out.
  assert (ToggleActive "Boss" w = Some (w', out)) as Hrun
    by (vm_compute; reflexivity).
  split; [exact Hrun|].
  pose proof (ToggleActive_only_Active "Boss" w w' out Hrun)
    as (_ & _ & _ & Htr & Hl & Htg & _).
  exact (conj Htr (conj Hl Htg)).
Defined.


Lemma progress_is_monotone_and_clamped_witness :
  (progress 3%Q 2%Q == 1)%Q.
Proof.
  apply (proj1 (proj2 (proj2 (proj2 progress_is_monotone_and_clamped))) 3%Q 2%Q).
  - reflexivity.
  - vm_compute. discriminate.
Defined.

(** Three entities: 5 on layer 1, 3 and 9 on layer 0 with sort keys 4 and 4;
    they are drawn in the order 3, 9, 5. *)
Lemma sortedEntities_is_totally_ordered_witness :
  let layers : gmap Entity LayerComponent :=
    {[ 5%N := {| layerID := 1; sortID := 0 |};
       3%N := {| layerID := 0; sortID := 4 |};
       9%N := {| layerID := 0; sortID := 4 |} ]} in
  ∃ sorted, Graphics.sortedEntities layers [3%N; 5%N; 9%N] = Some sorted
    ∧ sorted ≡ₚ [3%N; 5%N; 9%N]
    ∧ StronglySorted (Graphics.before layers) sorted
    ∧ ∀ l, l ≡ₚ [3%N; 5%N; 9%N] →
        Graphics.sorted_by (Graphics.compare layers) l → l = sorted.
Proof.
  intros layers.
  apply (proj2 (proj2 (proj2 (proj2
           (sortedEntities_is_totally_ordered layers)))) [3%N; 5%N; 9%N]).
  - compute_done.
  - intros e He. repeat (apply elem_of_cons in He as [->|He]); [by eexists..|].
    by apply elem_of_nil in He.
Defined.
(** * Further properties of the timeline system *)

Section UpdateErrors.
Context `{FloatOps F}.
Variable registry : Callback → Entity → F → World F → option (World F).
Implicit Types (w : World F) (t : TimelineComponent F) (e : Entity) (dt : F).
Hypothesis Hvisual : visual_only registry.

Lemma updateEntity_is_Some dt e w :
  is_Some (updateEntity registry dt e w) ↔ has_components w e.
Proof.
  split.
  - intros [r Hr]. unfold updateEntity in Hr. unfold has_components.
    destruct (timelines w !! e); simpl in Hr; [|done].
    destruct (transforms w !! e); simpl in Hr; [|done].
    destruct (layers w !! e); simpl in Hr; [|done].
    repeat split; by eexists.
  - intros ([t Ht] & Htr & Hl).
    destruct (updateEntity_refines registry Hvisual dt e w t Ht Htr Hl)
      as (w' & -> & _). by eexists.
Qed.

Lemma updateEntity_keeps_components dt e w w' calls e' :
  updateEntity registry dt e w = Some (w', calls) →
  has_components w' e' ↔ has_components w e'.
Proof.
  intros Hrun.
  assert (has_components w e) as ([t Ht] & Htr & Hl).
  { apply (updateEntity_is_Some dt). by eexists. }
  destruct (updateEntity_refines registry Hvisual dt e w t Ht Htr Hl)
    as (w1 & Hrun1 & Htl & Hl' & _ & _ & Hdom).
  rewrite Hrun in Hrun1. simplify_eq. unfold has_components.
  rewrite Htl, Hl', <- !(elem_of_dom (transforms _)), Hdom.
  destruct (decide (e = e')) as [->|Hne].
  - rewrite lookup_insert_eq, Ht. split; intros (_ & ? & ?); repeat split; eauto.
  - by rewrite lookup_insert_ne.
Qed.

Lemma forEntities_is_Some dt es : ∀ w,
  is_Some (forEntities registry dt es w) ↔ (∀ e, e ∈ es → has_components w e).
Proof.
  induction es as [|e0 rest IH]; intros w; simpl.
  - split; [intros _ e He; by apply elem_of_nil in He | by eexists].
  - split.
    + intros [r Hr].
      destruct (updateEntity registry dt e0 w) as [[w1 calls1]|] eqn:H1;
        simpl in Hr; [|done].
      destruct (forEntities registry dt rest w1) as [[w2 calls2]|] eqn:H2;
        simpl in Hr; [|done].
      intros e He. apply elem_of_cons in He as [->|He].
      * apply (updateEntity_is_Some dt). by eexists.
      * apply (updateEntity_keeps_components dt e0 w w1 calls1 e H1).
        apply (proj1 (IH w1)); [by eexists | done].
    + intros Hall.
      destruct (proj2 (updateEntity_is_Some dt e0 w)) as [[w1 calls1] H1].
      { apply Hall. left. }
      rewrite H1; simpl.
      destruct (proj2 (IH w1)) as [[w2 calls2] H2].
      { intros e He. apply (updateEntity_keeps_components dt e0 w w1 calls1 e H1).
        apply Hall. by right. }
      rewrite H2; simpl. by eexists.
Qed.

(** X1: in play mode and with callbacks that only draw, [Update] returns
    exactly when every tracked entity has a [TimelineComponent], a
    [TransformComponent] and a [LayerComponent]: the transform the loop
    fetches and never uses is required all the same. *)
Theorem Update_needs_the_three_components dt w :
  IsPlay (engineState w) = true →
  is_Some (Update registry dt w) ↔ (∀ e, e ∈ mEntities w → has_components w e).
Proof.
  intros Hplay. unfold Update. rewrite Hplay; simpl. apply forEntities_is_Some.
Qed.
End UpdateErrors.

Section UpdateTags.
Context `{FloatOps F}.
Variable registry : Callback → Entity → F → World F → option (World F).
Implicit Types (w : World F) (t : TimelineComponent F) (e : Entity) (dt : F).
Hypothesis Hvisual : visual_only registry.
Hypothesis Htags : keeps_tags registry.

Lemma tagsOf_ensureTag e tag w :
  tagsOf (ensureTag e tag w) e = tagged tag (tagsOf w e).
Proof.
  unfold ensureTag, HasTag, tagged. case_bool_decide; simpl; [done|].
  apply tagsOf_AddTag.
Qed.

Lemma tagsOf_ensureTag_ne e e' tag w :
  e ≠ e' → tagsOf (ensureTag e tag w) e' = tagsOf w e'.
Proof.
  intros Hne. unfold ensureTag. destruct (HasTag w e tag); simpl; [done|].
  by apply tagsOf_AddTag_ne.
Qed.

Lemma tagged_idemp tag l : tagged tag (tagged tag l) = tagged tag l.
Proof.
  unfold tagged. destruct (decide (tag ∈ l)) as [Hin|Hin].
  - by rewrite !(bool_decide_eq_true_2 (tag ∈ l)).
  - rewrite (bool_decide_eq_false_2 (tag ∈ l)) by done.
    rewrite bool_decide_eq_true_2; [done|].
    apply elem_of_app. right. apply list_elem_of_singleton. done.
Qed.

Lemma invoke_tags cb e timer w w' calls :
  invoke registry cb e timer w = Some (w', calls) → tags w' = tags w.
Proof.
  destruct cb as [name|]; simpl; [|by intros; simplify_eq].
  destruct (registry name e timer w) as [w1|] eqn:Hreg; simpl; [|done].
  intros; simplify_eq. by eapply Htags.
Qed.

Lemma completeIn_tags e w w' : completeIn e w = Some w' → tags w' = tags w.
Proof.
  unfold completeIn. destruct (timelines w !! e); simpl; [|done].
  case_match; by intros; simplify_eq.
Qed.

Lemma completeOut_tags e w w' : completeOut e w = Some w' → tags w' = tags w.
Proof.
  unfold completeOut. destruct (timelines w !! e); simpl; [|done].
  case_match; by intros; simplify_eq.
Qed.

Lemma transitionIn_tags dt e t w w' calls :
  transitionIn registry dt e t w = Some (w', calls) → tags w' = tags w.
Proof.
  unfold transitionIn. cbn zeta. case_match; [by intros; simplify_eq|].
  destruct (invoke _ _ _ _ _) as [[w2 calls2]|] eqn:Hinv; simpl; [|done].
  destruct (completeIn e w2) as [w3|] eqn:Hc; simpl; [|done].
  intros; simplify_eq. apply completeIn_tags in Hc. apply invoke_tags in Hinv.
  by rewrite Hc, Hinv.
Qed.

Lemma transitionOut_tags dt e t w w' calls :
  transitionOut registry dt e t w = Some (w', calls) → tags w' = tags w.
Proof.
  unfold transitionOut. cbn zeta. case_match; [by intros; simplify_eq|].
  destruct (invoke _ _ _ _ _) as [[w2 calls2]|] eqn:Hinv; simpl; [|done].
  destruct (completeOut e w2) as [w3|] eqn:Hc; simpl; [|done].
  intros; simplify_eq. apply completeOut_tags in Hc. apply invoke_tags in Hinv.
  by rewrite Hc, Hinv.
Qed.

(** The tags after the loop body: those of the entity it ran for are
    completed with its [TimelineTag] when its layer is visible. *)
Lemma updateEntity_tags dt e w w' calls t :
  timelines w !! e = Some t →
  updateEntity registry dt e w = Some (w', calls) →
  tags w' = tags (if visible w e then ensureTag e (TimelineTag t) w else w).
Proof.
  intros Ht. unfold updateEntity, visible. rewrite Ht; simpl.
  destruct (transforms w !! e); simpl; [|done].
  destruct (layers w !! e) as [l|]; simpl; [|done].
  destruct (layerVisibility _ _); simpl; [|by intros; simplify_eq].
  destruct (Active t); simpl; [|by intros; simplify_eq].
  destruct (IsTransitioningIn t); intros Hrun.
  - by apply transitionIn_tags in Hrun.
  - by apply transitionOut_tags in Hrun.
Qed.

Lemma stepTimeline_tag dt t : TimelineTag (stepTimeline dt t) = TimelineTag t.
Proof.
  unfold stepTimeline, stepIn, stepOut.
  repeat (case_match; simpl; try done).
Qed.

Lemma forEntities_tags dt es : ∀ w w' calls,
  NoDup es → (∀ e, e ∈ es → has_components w e) →
  forEntities registry dt es w = Some (w', calls) →
  ∀ e, tagsOf w' e =
    match timelines w !! e with
    | Some t =>
        if bool_decide (e ∈ es) && visible w e
        then tagged (TimelineTag t) (tagsOf w e) else tagsOf w e
    | None => tagsOf w e
    end.
Proof.
  induction es as [|e0 rest IH]; intros w w' calls Hnd Hall Hrun e;
    simpl in Hrun.
  - simplify_eq. by destruct (timelines w' !! e).
  - apply NoDup_cons in Hnd as [Hnotin Hnd].
    destruct (Hall e0) as ([t0 Ht0] & Htr0 & Hl0); [left|].
    destruct (updateEntity_refines registry Hvisual dt e0 w t0 Ht0 Htr0 Hl0)
      as (w1 & H1 & Htl1 & Hsame1).
    rewrite H1 in Hrun; simpl in Hrun.
    destruct (forEntities registry dt rest w1) as [[w2 calls2]|] eqn:H2;
      simpl in Hrun; [|done].
    simplify_eq.
    pose proof (updateEntity_tags dt e0 w w1 _ t0 Ht0 H1) as Htg1.
    rewrite (IH w1 w' calls2 Hnd) by
      (try done; intros e' He';
       apply (updateEntity_keeps_components registry Hvisual dt e0 w w1 _ e' H1);
       apply Hall; by right).
    rewrite Htl1, (same_frame_visible e w w1 Hsame1).
    assert (∀ e', tagsOf w1 e' =
              tagsOf (if visible w e0 then ensureTag e0 (TimelineTag t0) w else w) e')
      as Htags1 by (intros e'; unfold tagsOf; by rewrite Htg1).
    destruct (decide (e0 = e)) as [<-|Hne].
    + rewrite lookup_insert_eq, Ht0.
      rewrite (bool_decide_eq_false_2 (e0 ∈ rest)) by done.
      rewrite (bool_decide_eq_true_2 (e0 ∈ e0 :: rest)) by left.
      simpl. rewrite Htags1. destruct (visible w e0); [|done].
      apply tagsOf_ensureTag.
    + rewrite lookup_insert_ne by done.
      replace (bool_decide (e ∈ e0 :: rest)) with (bool_decide (e ∈ rest))
        by (apply bool_decide_ext; rewrite elem_of_cons; intuition congruence).
      rewrite Htags1.
      assert (tagsOf (if visible w e0 then ensureTag e0 (TimelineTag t0) w else w) e
              = tagsOf w e) as ->.
      { destruct (visible w e0); [|done]. by apply tagsOf_ensureTag_ne. }
      done.
Qed.
End UpdateTags.

Section UpdateTagsTheorems.
Context `{FloatOps F}.
Variable registry : Callback → Entity → F → World F → option (World F).
Implicit Types (w : World F) (t : TimelineComponent F) (e : Entity) (dt : F).
Hypothesis Hvisual : visual_only registry.
Hypothesis Htags : keeps_tags registry.

Lemma Update_tags_formula dt w :
  well_formed w →
  ∃ w' calls, Update registry dt w = Some (w', calls)
    ∧ ∀ e, tagsOf w' e =
        match timelines w !! e with
        | Some t =>
            if bool_decide (e ∈ mEntities w) && visible w e
            then tagged (TimelineTag t) (tagsOf w e) else tagsOf w e
        | None => tagsOf w e
        end.
Proof.
  intros Hwf.
  destruct (Update_refines registry Hvisual dt w Hwf) as (w' & calls & Hup & _).
  exists w', calls. split; [done|].
  destruct Hwf as (Hplay & Hnd & Hall).
  unfold Update in Hup. rewrite Hplay in Hup; simpl in Hup.
  by apply (forEntities_tags registry Hvisual Htags dt (mEntities w) w w' calls).
Qed.

(** X2: the tags after a frame.  A tracked entity on a visible layer carries
    its [TimelineTag] afterwards, appended when it was missing and not
    repeated when it was there; the tags of every other entity (not tracked,
    on a hidden layer, or without a timeline) are as before. *)
Theorem Update_tags dt w :
  well_formed w →
  ∃ w' calls, Update registry dt w = Some (w', calls)
    ∧ ∀ e, tagsOf w' e =
        match timelines w !! e with
        | Some t =>
            if bool_decide (e ∈ mEntities w) && visible w e
            then tagged (TimelineTag t) (tagsOf w e) else tagsOf w e
        | None => tagsOf w e
        end.
Proof. apply Update_tags_formula. Qed.

Lemma frames_keep_complete_tags dts : ∀ w,
  well_formed w →
  (∀ e t, e ∈ mEntities w → visible w e = true →
     timelines w !! e = Some t → TimelineTag t ∈ tagsOf w e) →
  ∃ w' calls, frames registry dts w = Some (w', calls)
    ∧ ∀ e, tagsOf w' e = tagsOf w e.
Proof.
  induction dts as [|dt' dts IH]; intros w1 Hwf1 Hdone; simpl.
  - exists w1, []. by split.
  - destruct (Update_tags_formula dt' w1 Hwf1) as (w2 & calls2 & Hup2 & Htg2).
    destruct (Update_refines registry Hvisual dt' w1 Hwf1)
      as (w2' & calls2' & Hup2' & Hlook2 & Hsame2 & Hwf2).
    rewrite Hup2 in Hup2'. simplify_eq. rewrite Hup2; simpl.
    assert (∀ e, tagsOf w2' e = tagsOf w1 e) as Heq.
    { intros e. rewrite Htg2. destruct (timelines w1 !! e) as [t|] eqn:Ht; [|done].
      destruct (bool_decide (e ∈ mEntities w1)) eqn:He; simpl; [|done].
      destruct (visible w1 e) eqn:Hvis; [|done].
      apply bool_decide_eq_true_1 in He.
      unfold tagged. rewrite bool_decide_eq_true_2; [done|]. by eapply Hdone. }
    destruct (IH w2' Hwf2) as (w' & calls' & Hrun & Htg').
    { intros e t He Hvis Ht. pose proof Hsame2 as (_ & _ & Hm & _).
      rewrite Hm in He. rewrite (same_frame_visible e w1 w2' Hsame2) in Hvis.
      rewrite Hlook2 in Ht. rewrite Heq.
      destruct (timelines w1 !! e) as [t0|] eqn:Ht0; [|done].
      rewrite bool_decide_eq_true_2, Hvis in Ht by done. simpl in Ht. simplify_eq.
      rewrite stepTimeline_tag. by eapply Hdone. }
    rewrite Hrun; simpl. eexists _, _. split; [done|].
    intros e. by rewrite Htg', Heq.
Qed.

(** X3: tagging happens in the first frame only: over any run of frames, the
    tags after the run are the tags after its first frame. *)
Theorem tags_settle_in_the_first_frame dt dts w :
  well_formed w →
  ∃ w1 calls1 w' calls',
    Update registry dt w = Some (w1, calls1)
    ∧ frames registry dts w1 = Some (w', calls')
    ∧ ∀ e, tagsOf w' e = tagsOf w1 e.
Proof.
  intros Hwf.
  destruct (Update_tags_formula dt w Hwf) as (w1 & calls1 & Hup & Htg).
  destruct (Update_refines registry Hvisual dt w Hwf)
    as (w1' & calls1' & Hup' & Hlook1 & Hsame1 & Hwf1).
  rewrite Hup in Hup'. simplify_eq.
  destruct (frames_keep_complete_tags dts w1' Hwf1) as (w' & calls' & Hrun & Heq).
  { intros e t He Hvis Ht. pose proof Hsame1 as (_ & _ & Hm & _).
    rewrite Hm in He. rewrite (same_frame_visible e w w1' Hsame1) in Hvis.
    rewrite Hlook1 in Ht. rewrite Htg.
    destruct (timelines w !! e) as [t0|]; [|done].
    rewrite bool_decide_eq_true_2, Hvis in * by done. simpl in Ht. simplify_eq.
    rewrite stepTimeline_tag. unfold tagged. case_bool_decide; [done|].
    apply elem_of_app. right. by apply list_elem_of_singleton. }
  by exists w1', calls1', w', calls'.
Qed.
End UpdateTagsTheorems.

Section ToggleCompose.
Context {F : Type}.
Implicit Types (w : World F) (t : TimelineComponent F) (e : Entity).

Lemma World_eq w w' :
  engineState w = engineState w' → mEntities w = mEntities w' →
  timelines w = timelines w' → transforms w = transforms w' →
  layers w = layers w' → tags w = tags w' → w = w'.
Proof. destruct w, w'; simpl. by intros -> -> -> -> -> ->. Qed.

Lemma set_Active_same t : Active t = true → set_Active true t = t.
Proof. destruct t; simpl. by intros ->. Qed.

Lemma toggled_tag tag es e t : TimelineTag (toggled tag es e t) = TimelineTag t.
Proof. unfold toggled. by case_bool_decide. Qed.

Lemma toggled_idemp tag es e t :
  toggled tag es e (toggled tag es e t) = toggled tag es e t.
Proof.
  unfold toggled at 2 3. case_bool_decide as Hc; [|by unfold toggled; rewrite bool_decide_eq_false_2].
  apply toggled_activated.
Qed.

Lemma toggled_comm a b es e t :
  toggled a es e (toggled b es e t) = toggled b es e (toggled a es e t).
Proof.
  unfold toggled. destruct t; simpl.
  repeat (case_bool_decide; simpl in * ); try done; naive_solver.
Qed.

(** What the loop writes and whether it found a match. *)
Lemma toggleLoop_output tag es : ∀ w activated out w' activated' out',
  toggleLoop tag es w activated out = Some (w', activated', out') →
  out' = out ++ (activatedMessage tag <$> filter (λ e, carries tag w e = true) es)
  ∧ activated' =
      activated || bool_decide (filter (λ e, carries tag w e = true) es ≠ []).
Proof.
  induction es as [|e0 rest IH]; intros w a out w' a' out' Hrun; simpl in Hrun.
  - simplify_eq. rewrite filter_nil. split; [by rewrite fmap_nil, app_nil_r|].
    rewrite bool_decide_eq_false_2; [by rewrite orb_false_r|].
    intros Hn; by apply Hn.
  - destruct (timelines w !! e0) as [t0|] eqn:Ht0; simpl in Hrun; [|done].
    assert (∀ t', filter (λ e, carries tag (store e0 t' w) e = true) rest
                  = filter (λ e, carries tag w e = true) rest
                  ∨ TimelineTag t' ≠ TimelineTag t0) as Hsame.
    { intros t'. destruct (decide (TimelineTag t' = TimelineTag t0)) as [Heq|]; [left|by right].
      apply list_filter_iff. intros e. unfold carries.
      rewrite !bool_decide_eq_true, timelines_store.
      destruct (decide (e0 = e)) as [<-|Hne].
      - rewrite lookup_insert_eq, Ht0. simpl. by rewrite Heq.
      - by rewrite lookup_insert_ne. }
    case_bool_decide as Htag.
    + apply IH in Hrun as [-> ->].
      destruct (Hsame (set_Active true t0)) as [->|Hne]; [|done].
      rewrite filter_cons_True
        by (unfold carries; apply bool_decide_eq_true_2; rewrite Ht0; simpl;
            by rewrite Htag).
      rewrite fmap_cons, <- app_assoc. split; [done|].
      rewrite (bool_decide_eq_true_2 (_ :: _ ≠ [])) by done.
      by rewrite orb_true_r.
    + apply IH in Hrun as [-> ->].
      rewrite filter_cons_False; [done|].
      unfold carries. rewrite bool_decide_eq_false_2; [done|].
      rewrite Ht0; simpl. congruence.
Qed.

(** A run of [ToggleActive] in a world where the tracked entities have their
    timeline. *)
Lemma ToggleActive_run tag w :
  tracked_have_timeline w →
  ∃ w' out, ToggleActive tag w = Some (w', out)
    ∧ (∀ e, timelines w' !! e = toggled tag (mEntities w) e <$> timelines w !! e)
    ∧ engineState w' = engineState w ∧ mEntities w' = mEntities w
    ∧ transforms w' = transforms w ∧ layers w' = layers w ∧ tags w' = tags w
    ∧ cout out = activatedMessage tag <$> filter (λ e, carries tag w e = true) (mEntities w)
    ∧ cerr out = (if bool_decide (filter (λ e, carries tag w e = true) (mEntities w) ≠ [])
                  then [] else [notFoundWarning tag])
    ∧ tracked_have_timeline w'.
Proof.
  intros Htracked. unfold ToggleActive.
  pose proof Htracked as Hall. unfold tracked_have_timeline in Hall.
  rewrite Forall_forall in Hall.
  destruct (toggleLoop_total tag (mEntities w) w false [] Hall)
    as [[[w' a'] out'] Hrun].
  rewrite Hrun; simpl. eexists _, _. split; [reflexivity|].
  destruct (toggleLoop_output tag _ _ _ _ _ _ _ Hrun) as [-> ->].
  apply toggleLoop_effect in Hrun as (Hlook & Hes & Hm & Htr & Hl & Htg).
  repeat split; try done.
  - simpl. by destruct (bool_decide _).
  - unfold tracked_have_timeline. rewrite Hm. apply Forall_forall.
    intros e He. rewrite Hlook. destruct (Hall e He) as [t ->]. by eexists.
Qed.

Lemma carries_toggled tag tag' w w' e :
  (∀ e, timelines w' !! e = toggled tag' (mEntities w) e <$> timelines w !! e) →
  carries tag w' e = carries tag w e.
Proof.
  intros Hlook. unfold carries. rewrite Hlook.
  destruct (timelines w !! e); simpl; [|done]. by rewrite toggled_tag.
Qed.

Lemma toggleLoop_Some_tracked tag es : ∀ w activated out r,
  toggleLoop tag es w activated out = Some r →
  Forall (λ e, is_Some (timelines w !! e)) es.
Proof.
  induction es as [|e0 rest IH]; intros w0 a0 out0 r Hloop; [constructor|].
  simpl in Hloop.
  destruct (timelines w0 !! e0) as [t0|] eqn:Ht0; simpl in Hloop; [|done].
  constructor; [by eexists|].
  case_bool_decide.
  - apply IH in Hloop. eapply Forall_impl; [exact Hloop|].
    intros e He. destruct (decide (e0 = e)) as [<-|Hne]; [by eexists|].
    unfold store, with_timelines in He; simpl in He.
    by rewrite lookup_insert_ne in He.
  - by eapply IH.
Qed.

(** X4: [ToggleActive] is idempotent: called again with the same tag it
    leaves the world as the first call left it and writes the same lines. *)
Theorem ToggleActive_twice tag w w' out :
  ToggleActive tag w = Some (w', out) → ToggleActive tag w' = Some (w', out).
Proof.
  intros Hrun.
  assert (tracked_have_timeline w) as Htracked.
  { unfold ToggleActive in Hrun.
    destruct (toggleLoop tag (mEntities w) w false []) as [r|] eqn:Hloop;
      [|done].
    by eapply toggleLoop_Some_tracked. }
  destruct (ToggleActive_run tag w Htracked)
    as (w1 & out1 & Hrun1 & Hlook & Hes & Hm & Htr & Hl & Htg & Hcout & Hcerr & Htracked1).
  rewrite Hrun in Hrun1. simplify_eq.
  destruct (ToggleActive_run tag w1 Htracked1)
    as (w2 & out2 & Hrun2 & Hlook2 & Hes2 & Hm2 & Htr2 & Hl2 & Htg2 & Hcout2 & Hcerr2 & _).
  rewrite Hrun2. f_equal. f_equal.
  - apply World_eq; try congruence.
    apply map_eq. intros e. rewrite Hlook2, Hm, Hlook.
    destruct (timelines w !! e); simpl; [|done]. by rewrite toggled_idemp.
  - assert (filter (λ e, carries tag w1 e = true) (mEntities w1)
            = filter (λ e, carries tag w e = true) (mEntities w)) as Hf.
    { rewrite Hm. apply list_filter_iff. intros e.
      by rewrite (carries_toggled tag tag w w1 e Hlook). }
    rewrite Hf in Hcout2, Hcerr2.
    destruct out1, out2; simpl in *. congruence.
Qed.

(** X5: activations by two tags commute: whichever tag is toggled first, the
    world after both calls is the same. *)
Theorem ToggleActive_commute a b w :
  tracked_have_timeline w →
  ∃ wa outa wab outab wb outb wba outba,
    ToggleActive a w = Some (wa, outa) ∧ ToggleActive b wa = Some (wab, outab)
    ∧ ToggleActive b w = Some (wb, outb) ∧ ToggleActive a wb = Some (wba, outba)
    ∧ wab = wba.
Proof.
  intros Htracked.
  destruct (ToggleActive_run a w Htracked)
    as (wa & outa & Hra & Hla & Hesa & Hma & Htra & Hlya & Htga & _ & _ & Htracked_a).
  destruct (ToggleActive_run b wa Htracked_a)
    as (wab & outab & Hrab & Hlab & Hesab & Hmab & Htrab & Hlyab & Htgab & _).
  destruct (ToggleActive_run b w Htracked)
    as (wb & outb & Hrb & Hlb & Hesb & Hmb & Htrb & Hlyb & Htgb & _ & _ & Htracked_b).
  destruct (ToggleActive_run a wb Htracked_b)
    as (wba & outba & Hrba & Hlba & Hesba & Hmba & Htrba & Hlyba & Htgba & _).
  exists wa, outa, wab, outab, wb, outb, wba, outba.
  repeat (split; [done|]).
  apply World_eq; try congruence.
  apply map_eq. intros e. rewrite Hlab, Hla, Hlba, Hlb, Hma, Hmb.
  destruct (timelines w !! e); simpl; [|done]. by rewrite toggled_comm.
Qed.
End ToggleCompose.

Section Calls.
Context `{FloatOps F}.
Variable registry : Callback → Entity → F → World F → option (World F).
Implicit Types (w : World F) (t : TimelineComponent F) (e : Entity) (dt : F).
Hypothesis Hvisual : visual_only registry.

Lemma invokedBy_entity dt e t : Forall (λ c, c.1.2 = e) (invokedBy dt e t).
Proof.
  unfold invokedBy. repeat case_match; by repeat constructor.
Qed.

Lemma forEntities_calls dt es : ∀ w w' calls e,
  NoDup es → (∀ e', e' ∈ es → has_components w e') →
  forEntities registry dt es w = Some (w', calls) →
  callsFor e calls =
    match timelines w !! e with
    | Some t => if bool_decide (e ∈ es) && visible w e
                then invokedBy dt e t else []
    | None => []
    end.
Proof.
  induction es as [|e0 rest IH]; intros w w' calls e Hnd Hall Hrun;
    simpl in Hrun.
  - simplify_eq. by destruct (timelines w' !! e).
  - apply NoDup_cons in Hnd as [Hnotin Hnd].
    destruct (Hall e0) as ([t0 Ht0] & Htr0 & Hl0); [left|].
    destruct (updateEntity_refines registry Hvisual dt e0 w t0 Ht0 Htr0 Hl0)
      as (w1 & H1 & Htl1 & Hsame1).
    rewrite H1 in Hrun; simpl in Hrun.
    destruct (forEntities registry dt rest w1) as [[w2 calls2]|] eqn:H2;
      simpl in Hrun; [|done].
    simplify_eq. rewrite callsFor_app.
    assert (∀ e', e' ∈ rest → has_components w1 e') as Hall1.
    { intros e' He'. apply (has_components_same w); [done| |apply Hall; by right].
      rewrite Htl1. destruct (decide (e0 = e')) as [<-|?];
        [by rewrite lookup_insert_eq | by rewrite lookup_insert_ne]. }
    rewrite (IH w1 w' calls2 e Hnd Hall1 H2).
    rewrite Htl1, (same_frame_visible e w w1 Hsame1).
    destruct (decide (e0 = e)) as [<-|Hne].
    + rewrite lookup_insert_eq, Ht0.
      rewrite (bool_decide_eq_false_2 (e0 ∈ rest)) by done.
      rewrite (bool_decide_eq_true_2 (e0 ∈ e0 :: rest)) by left.
      simpl. rewrite app_nil_r. destruct (visible w e0); [|done].
      apply callsFor_same, invokedBy_entity.
    + rewrite lookup_insert_ne by done.
      replace (bool_decide (e ∈ e0 :: rest)) with (bool_decide (e ∈ rest))
        by (apply bool_decide_ext; rewrite elem_of_cons; intuition congruence).
      rewrite (callsFor_other e e0); [done..|].
      destruct (visible w e0); [apply invokedBy_entity | constructor].
Qed.

Lemma frames_calls dts : ∀ w w' calls e t,
  well_formed w → e ∈ mEntities w → visible w e = true →
  timelines w !! e = Some t →
  frames registry dts w = Some (w', calls) →
  callsFor e calls = invocationsOf dts e t.
Proof.
  induction dts as [|dt dts IH]; intros w w' calls e t Hwf He Hvis Ht Hrun;
    simpl in Hrun.
  - by simplify_eq.
  - destruct (Update_refines registry Hvisual dt w Hwf)
      as (w1 & calls1 & Hup & Hlook1 & Hsame1 & Hwf1).
    rewrite Hup in Hrun; simpl in Hrun.
    destruct (frames registry dts w1) as [[w2 calls2]|] eqn:H2;
      simpl in Hrun; [|done].
    simplify_eq. rewrite callsFor_app. simpl.
    destruct Hwf as (Hplay & Hnd & Hall).
    unfold Update in Hup. rewrite Hplay in Hup; simpl in Hup.
    rewrite (forEntities_calls dt (mEntities w) w w1 calls1 e Hnd Hall Hup).
    rewrite Ht, bool_decide_eq_true_2, Hvis by done. simpl. f_equal.
    apply (IH w1 w' calls2 e (stepTimeline dt t)); try done.
    + destruct Hsame1 as (_ & _ & -> & _). done.
    + by rewrite (same_frame_visible e w w1).
    + rewrite Hlook1, Ht, bool_decide_eq_true_2, Hvis by done. done.
Qed.

(** X6: the callbacks invoked for an entity over a run of frames are the
    ones the state machine prescribes for its timeline, in order and with
    the timer values it prescribes, whatever the other entities do. *)
Theorem frames_invoke_what_the_state_machine_prescribes dts w e t :
  well_formed w → e ∈ mEntities w → visible w e = true →
  timelines w !! e = Some t →
  ∃ w' calls, frames registry dts w = Some (w', calls)
    ∧ callsFor e calls = invocationsOf dts e t
    ∧ timelines w' !! e = Some (runTimeline dts t).
Proof.
  intros Hwf He Hvis Ht.
  destruct (frames_refines registry Hvisual dts w Hwf) as (w' & calls & Hrun & Hlook & _).
  exists w', calls. split; [done|]. split.
  - by eapply frames_calls.
  - by apply Hlook.
Qed.
End Calls.

(** ** The sliding callbacks under [Update] *)

Section ExactCallbacks.
Local Open Scope Q_scope.
Implicit Types (a b t timer duration : Q).

Lemma quotient_ge_1 timer duration :
  0 < duration → (1 <= timer / duration ↔ duration <= timer).
Proof.
  intros HD. split.
  - intros Hq. assert (timer == duration * (timer / duration)) as ->.
    { rewrite Qmult_div_r; [reflexivity | lra]. }
    nra.
  - intros Hle. apply Qle_shift_div_l; lra.
Qed.

Lemma progress_complete_iff timer duration :
  0 < duration →
  f_ge (progress timer duration) f_one = true ↔ duration <= timer.
Proof.
  intros HD. rewrite exact_ge, progress_exact. cbn [f_one exact_ops].
  rewrite <- (quotient_ge_1 timer duration HD).
  destruct (f_lt 1 (timer / duration)) eqn:Hlt.
  - apply exact_lt in Hlt. split; intros; lra.
  - done.
Qed.

End ExactCallbacks.

Section CallbackFrames.
Context `{FloatOps F}.
Implicit Types (w : World F) (t : TimelineComponent F) (e : Entity) (timer : F).

Lemma SlideOut_run e timer w tr t :
  transforms w !! e = Some tr → timelines w !! e = Some t →
  SlideOut e timer w =
    let p := progress timer (TransitionDuration t) in
    let moved :=
      with_transforms
        (<[e := {| position_x := Lerp (startPosition t) (endPosition t) p;
                   position_y := position_y tr |}]> (transforms w)) w in
    Some (if f_ge p f_one
          then store e (set_InternalTimer f_zero (set_IsTransitioningIn false t)) moved
          else moved).
Proof.
  intros Htr Ht. unfold SlideOut. rewrite Htr, Ht; simpl.
  by destruct (f_ge _ _).
Qed.

Lemma Credits_run e timer w tr t :
  transforms w !! e = Some tr → timelines w !! e = Some t →
  Credits e timer w =
    let p := progress timer (TransitionDuration t) in
    Some (if f_ge p f_one
          then store e (set_IsTransitioningIn true (set_InternalTimer f_zero t))
                 (with_transforms
                    (<[e := {| position_x := position_x tr;
                               position_y := startPosition t |}]> (transforms w)) w)
          else with_transforms
                 (<[e := {| position_x := position_x tr;
                            position_y := Lerp (startPosition t) (endPosition t) p |}]>
                    (transforms w)) w).
Proof.
  intros Htr Ht. unfold Credits. rewrite Htr, Ht; simpl.
  by destruct (f_ge _ _).
Qed.

(** X10: [SlideOut] returns exactly when the entity has a transform and a
    timeline; what it returns differs from the world it was given in the
    [position.x] of that entity and, when its progress is complete, in the
    [IsTransitioningIn] and [InternalTimer] of that entity's timeline, and
    in nothing else. *)
Theorem SlideOut_touches_its_entity_only e timer w :
  (is_Some (SlideOut e timer w)
   ↔ is_Some (transforms w !! e) ∧ is_Some (timelines w !! e))
  ∧ ∀ w', SlideOut e timer w = Some w' →
      engineState w' = engineState w ∧ mEntities w' = mEntities w
      ∧ layers w' = layers w ∧ tags w' = tags w
      ∧ (∀ e', e' ≠ e → transforms w' !! e' = transforms w !! e'
                        ∧ timelines w' !! e' = timelines w !! e')
      ∧ (position_y <$> transforms w' !! e) = (position_y <$> transforms w !! e)
      ∧ ∃ t, timelines w !! e = Some t
          ∧ timelines w' !! e =
              Some (if f_ge (progress timer (TransitionDuration t)) f_one
                    then set_InternalTimer f_zero (set_IsTransitioningIn false t)
                    else t).
Proof.
  split.
  - split.
    + intros [w' Hrun]. unfold SlideOut in Hrun.
      destruct (transforms w !! e); simpl in Hrun; [|done].
      destruct (timelines w !! e); simpl in Hrun; [|done]. split; by eexists.
    + intros [[tr Htr] [t Ht]]. rewrite (SlideOut_run e timer w tr t Htr Ht).
      by eexists.
  - intros w' Hrun.
    destruct (transforms w !! e) as [tr|] eqn:Htr;
      [|unfold SlideOut in Hrun; rewrite Htr in Hrun; done].
    destruct (timelines w !! e) as [t|] eqn:Ht;
      [|unfold SlideOut in Hrun; rewrite Htr, Ht in Hrun; done].
    rewrite (SlideOut_run e timer w tr t Htr Ht) in Hrun. cbn zeta in Hrun.
    simplify_eq.
    destruct (f_ge (progress timer (TransitionDuration t)) f_one) eqn:Hp; simpl.
    all: repeat match goal with |- _ ∧ _ => split end; try done.
    all: try (intros e' Hne; split; by rewrite ?lookup_insert_ne by done).
    all: try (by rewrite lookup_insert_eq).
    all: exists t; split; [done|]; by rewrite ?lookup_insert_eq, ?Ht, Hp.
Qed.
End CallbackFrames.

Section Invariants.
Context `{FloatOps F}.
Variable registry : Callback → Entity → F → World F → option (World F).
Variable e : Entity.
Variable P : TimelineComponent F → Prop.
Hypothesis Hkeep : keeps_timeline_of registry e.
Hypothesis Hstep : ∀ dt w w' calls t,
  timelines w !! e = Some t → P t →
  updateEntity registry dt e w = Some (w', calls) →
  ∃ t', timelines w' !! e = Some t' ∧ P t'.

Lemma forEntities_invariant dt es : ∀ w w' calls t,
  timelines w !! e = Some t → P t →
  forEntities registry dt es w = Some (w', calls) →
  ∃ t', timelines w' !! e = Some t' ∧ P t'.
Proof.
  induction es as [|e0 rest IH]; intros w w' calls t Ht HP Hrun; simpl in Hrun.
  - simplify_eq. by exists t.
  - destruct (updateEntity registry dt e0 w) as [[w1 calls1]|] eqn:H1;
      simpl in Hrun; [|done].
    destruct (forEntities registry dt rest w1) as [[w2 calls2]|] eqn:H2;
      simpl in Hrun; [|done].
    simplify_eq.
    assert (∃ t1, timelines w1 !! e = Some t1 ∧ P t1) as (t1 & Ht1 & HP1).
    { destruct (decide (e0 = e)) as [->|Hne].
      - by eapply Hstep.
      - destruct (updateEntity_other registry dt e e0 w w1 calls1 Hkeep Hne H1)
          as [Hk _].
        exists t. by rewrite Hk. }
    by eapply IH.
Qed.

Lemma frames_invariant dts : ∀ w w' calls t,
  timelines w !! e = Some t → P t →
  frames registry dts w = Some (w', calls) →
  ∃ t', timelines w' !! e = Some t' ∧ P t'.
Proof.
  induction dts as [|dt dts IH]; intros w w' calls t Ht HP Hrun; simpl in Hrun.
  - simplify_eq. by exists t.
  - destruct (Update registry dt w) as [[w1 calls1]|] eqn:H1;
      simpl in Hrun; [|done].
    destruct (frames registry dts w1) as [[w2 calls2]|] eqn:H2;
      simpl in Hrun; [|done].
    simplify_eq.
    assert (∃ t1, timelines w1 !! e = Some t1 ∧ P t1) as (t1 & Ht1 & HP1).
    { unfold Update in H1. destruct (IsPlay (engineState w)); simpl in H1.
      - by eapply forEntities_invariant.
      - simplify_eq. by exists t. }
    by eapply IH.
Qed.
End Invariants.

Section ExactLoops.
Local Open Scope Q_scope.
Variable registry : Callback → Entity → Q → World Q → option (World Q).
Implicit Types (w : World Q) (t : TimelineComponent Q) (e : Entity).

Lemma updateEntity_sliding_out dt e w w' calls t :
  (∀ entity timer w, registry "SlideOut" entity timer w = SlideOut entity timer w) →
  timelines w !! e = Some t →
  sliding_out t →
  updateEntity registry dt e w = Some (w', calls) →
  ∃ t', timelines w' !! e = Some t' ∧ sliding_out t'.
Proof.
  intros Hbound Ht (Hact & Hin & Hcb & HD). unfold updateEntity.
  rewrite Ht; simpl.
  destruct (transforms w !! e) as [tr|] eqn:Htr; simpl; [|done].
  destruct (layers w !! e) as [l|]; simpl; [|done].
  destruct (layerVisibility _ _); simpl; [|intros; simplify_eq; by exists t].
  rewrite Hact, Hin; simpl.
  set (w0 := ensureTag e (TimelineTag t) w).
  assert (transforms w0 !! e = Some tr) as Htr0.
  { unfold w0, ensureTag. by destruct (negb _). }
  clearbody w0.
  destruct (f_lt (f_add (DelayOutAccumulated t) dt) (TransitionOutDelay t)) eqn:Hw.
  - rewrite transitionOut_waiting by done. intros; simplify_eq.
    eexists. split; [apply lookup_store|done].
  - rewrite transitionOut_running by done. cbn zeta. rewrite Hcb.
    set (t2 := set_InternalTimer _ _).
    unfold invoke. rewrite Hbound.
    rewrite (SlideOut_run e (InternalTimer t2) (store e t2 w0) tr t2)
      by (done || apply lookup_store).
    cbn zeta.
    destruct (f_ge (progress (InternalTimer t2) (TransitionDuration t2)) f_one) eqn:Hp;
      cbn [mbind option_bind]; unfold completeOut.
    + rewrite lookup_store; cbn [mbind option_bind]; subst t2; fields.
      assert (f_ge f_zero (TransitionDuration t) = false) as ->
        by (apply exact_ge_false; exact HD).
      simpl. intros; simplify_eq. eexists. split; [apply lookup_store|done].
    + replace (timelines _ !! e) with (Some t2) by (symmetry; apply lookup_store).
      cbn [mbind option_bind]; subst t2; fields.
      assert (f_ge (f_add (InternalTimer t) dt) (TransitionDuration t) = false) as ->.
      { apply not_true_is_false. intros Hge. apply exact_ge in Hge.
        apply (progress_complete_iff _ _ HD) in Hge.
        revert Hp. fields. rewrite Hge. discriminate. }
      simpl. intros; simplify_eq. eexists. split; [apply lookup_insert_eq|done].
Qed.

Lemma updateEntity_rolling_credits dt e w w' calls t :
  (∀ entity timer w, registry "CreditsY" entity timer w = Credits entity timer w) →
  timelines w !! e = Some t →
  rolling_credits t →
  updateEntity registry dt e w = Some (w', calls) →
  ∃ t', timelines w' !! e = Some t' ∧ rolling_credits t'.
Proof.
  intros Hbound Ht (Hact & Hin & Hcb & HD). unfold updateEntity.
  rewrite Ht; simpl.
  destruct (transforms w !! e) as [tr|] eqn:Htr; simpl; [|done].
  destruct (layers w !! e) as [l|]; simpl; [|done].
  destruct (layerVisibility _ _); simpl; [|intros; simplify_eq; by exists t].
  rewrite Hact, Hin; simpl.
  set (w0 := ensureTag e (TimelineTag t) w).
  assert (transforms w0 !! e = Some tr) as Htr0.
  { unfold w0, ensureTag. by destruct (negb _). }
  clearbody w0.
  destruct (f_lt (f_add (DelayAccumulated t) dt) (TransitionInDelay t)) eqn:Hw.
  - rewrite transitionIn_waiting by done. intros; simplify_eq.
    eexists. split; [apply lookup_store|done].
  - rewrite transitionIn_running by done. cbn zeta. rewrite Hcb.
    set (t2 := set_InternalTimer _ _).
    unfold invoke. rewrite Hbound.
    rewrite (Credits_run e (InternalTimer t2) (store e t2 w0) tr t2)
      by (done || apply lookup_store).
    cbn zeta.
    destruct (f_ge (progress (InternalTimer t2) (TransitionDuration t2)) f_one) eqn:Hp;
      cbn [mbind option_bind]; unfold completeIn.
    + rewrite lookup_store; cbn [mbind option_bind]; subst t2; fields.
      assert (f_ge f_zero (TransitionDuration t) = false) as ->
        by (apply exact_ge_false; exact HD).
      simpl. intros; simplify_eq. eexists. split; [apply lookup_store|done].
    + replace (timelines _ !! e) with (Some t2) by (symmetry; apply lookup_store).
      cbn [mbind option_bind]; subst t2; fields.
      assert (f_ge (f_add (InternalTimer t) dt) (TransitionDuration t) = false) as ->.
      { apply not_true_is_false. intros Hge. apply exact_ge in Hge.
        apply (progress_complete_iff _ _ HD) in Hge.
        revert Hp. fields. rewrite Hge. discriminate. }
      simpl. intros; simplify_eq. eexists. split; [apply lookup_insert_eq|done].
Qed.
End ExactLoops.

Section CallbackTheorems.
Local Open Scope Q_scope.
Implicit Types (w : World Q) (t : TimelineComponent Q) (e : Entity).

(** X12: an active timeline in its out phase whose [TransitionOut] is
    [SlideOut] is never deactivated by [Update]: [SlideOut] resets the
    timer before the completion test of lines 106-109 reads it. *)
Theorem SlideOut_timeline_is_never_deactivated registry e dts w w' calls t :
  (∀ entity timer w, registry "SlideOut" entity timer w = SlideOut entity timer w) →
  keeps_timeline_of registry e →
  timelines w !! e = Some t → sliding_out t →
  frames registry dts w = Some (w', calls) →
  ∃ t', timelines w' !! e = Some t' ∧ sliding_out t'.
Proof.
  intros Hbound Hkeep Ht Hs Hrun.
  eapply (frames_invariant registry e sliding_out Hkeep); [|done..].
  intros ?????. by apply updateEntity_sliding_out.
Qed.

(** X13: an active timeline in its in phase whose [TransitionIn] is
    [Credits] never leaves the in phase: [Credits] resets the timer before
    the completion test of lines 84-89 reads it. *)
Theorem Credits_timeline_stays_in_the_in_phase registry e dts w w' calls t :
  (∀ entity timer w, registry "CreditsY" entity timer w = Credits entity timer w) →
  keeps_timeline_of registry e →
  timelines w !! e = Some t → rolling_credits t →
  frames registry dts w = Some (w', calls) →
  ∃ t', timelines w' !! e = Some t' ∧ rolling_credits t'.
Proof.
  intros Hbound Hkeep Ht Hs Hrun.
  eapply (frames_invariant registry e rolling_credits Hkeep); [|done..].
  intros ?????. by apply updateEntity_rolling_credits.
Qed.
End CallbackTheorems.

(** ** Runs below the delay, and [SlideOut] in the in phase *)

Section FurtherPhases.
Context `{FloatOps F}.
Variable registry : Callback → Entity → F → World F → option (World F).
Implicit Types (w : World F) (t : TimelineComponent F) (e : Entity) (dt : F).
Hypothesis Hown : own_entity_only registry.

Lemma set_DelayAccumulated_same t : set_DelayAccumulated (DelayAccumulated t) t = t.
Proof. by destruct t. Qed.

Lemma set_DelayAccumulated_twice (x y : F) t :
  set_DelayAccumulated y (set_DelayAccumulated x t) = set_DelayAccumulated y t.
Proof. by destruct t. Qed.

(** X7: for any arithmetic (binary32 included) and callbacks that write
    their own entity only: over a run of frames after each of which the
    accumulated delay, as the arithmetic adds it up, is still below
    [TransitionInDelay], nothing of an active timeline in its in phase
    changes but [DelayAccumulated], which ends as that sum, and no callback
    is invoked for the entity. *)
Theorem delay_only_accumulates dts e : ∀ w t,
  well_formed w → e ∈ mEntities w → visible w e = true →
  timelines w !! e = Some t → Active t = true → IsTransitioningIn t = true →
  (∀ k, (k < length dts)%nat →
     f_lt (foldl f_add (DelayAccumulated t) (take (S k) dts))
       (TransitionInDelay t) = true) →
  ∃ w' calls, frames registry dts w = Some (w', calls)
    ∧ timelines w' !! e
      = Some (set_DelayAccumulated (foldl f_add (DelayAccumulated t) dts) t)
    ∧ callsFor e calls = [].
Proof.
  induction dts as [|dt dts IH]; intros w t Hwf He Hvis Ht Hact Hin Hbelow;
    simpl.
  - exists w, []. split; [done|]. by rewrite set_DelayAccumulated_same.
  - destruct (Update_own registry Hown dt w Hwf)
      as (w1 & calls1 & Hrun1 & Hsame1 & Hwf1 & _).
    destruct (Update_in_phase registry Hown dt e w t Hwf He Hvis Ht Hact Hin)
      as (w1' & calls1' & Hrun1' & Hwait & _).
    rewrite Hrun1 in Hrun1'. simplify_eq.
    destruct Hwait as [Ht1 Hcalls1]; [apply (Hbelow 0%nat); simpl; lia|].
    rewrite Hrun1; simpl.
    destruct (IH w1' (set_DelayAccumulated (f_add (DelayAccumulated t) dt) t))
      as (w' & calls & -> & Ht' & Hcalls); try done.
    { destruct Hsame1 as (_ & _ & -> & _). done. }
    { by rewrite (same_frame_visible e w w1'). }
    { intros k Hk. apply (Hbelow (S k)). simpl. lia. }
    simpl. eexists _, _. split; [reflexivity|].
    split; [by rewrite Ht', set_DelayAccumulated_twice|].
    by rewrite callsFor_app, Hcalls1, Hcalls.
Qed.

(** X14: [SlideOut] bound as [TransitionIn], for any arithmetic (binary32
    included).  In a frame past the delay in which the progress [SlideOut]
    computes is complete, the callback itself ends the in phase and resets
    the timer, so the completion test of lines 84-89 reads a timer of
    zero and, the duration being above zero, does not fire:
    [DelayAccumulated] keeps what it has accumulated instead of being
    reset. *)
Theorem SlideOut_as_TransitionIn_keeps_the_delay dt e w t :
  (∀ entity timer w, registry "SlideOut" entity timer w = SlideOut entity timer w) →
  well_formed w → e ∈ mEntities w → visible w e = true →
  timelines w !! e = Some t → Active t = true → IsTransitioningIn t = true →
  TransitionIn t = Some "SlideOut" →
  let t1 := set_DelayAccumulated (f_add (DelayAccumulated t) dt) t in
  let t2 := set_InternalTimer (f_add (InternalTimer t) dt) t1 in
  f_lt (DelayAccumulated t1) (TransitionInDelay t) = false →
  f_ge (progress (InternalTimer t2) (TransitionDuration t)) f_one = true →
  f_ge f_zero (TransitionDuration t) = false →
  ∃ w' calls, Update registry dt w = Some (w', calls)
    ∧ callsFor e calls = [("SlideOut", e, InternalTimer t2)]
    ∧ timelines w' !! e
      = Some (set_InternalTimer f_zero (set_IsTransitioningIn false t2)).
Proof.
  intros Hbound Hwf He Hvis Ht Hact Hin Hcb t1 t2 Hpast Hdone Hpos.
  destruct (Update_in_phase registry Hown dt e w t Hwf He Hvis Ht Hact Hin)
    as (w' & calls & Hrun & _ & Hrunning).
  destruct (Hrunning Hpast) as (Hcalls & (wa & w1 & left & Hta & Hinv & Hleft & Hafter) & _).
  exists w', calls. split; [done|]. rewrite Hcb in Hcalls, Hinv.
  split; [done|]. rewrite Hafter. f_equal.
  assert (is_Some (transforms wa !! e)) as [tr Htra].
  { simpl in Hinv. rewrite Hbound in Hinv. unfold SlideOut in Hinv.
    destruct (transforms wa !! e); [by eexists | done]. }
  assert (f_ge (progress (InternalTimer t2) (TransitionDuration t2)) f_one = true)
    as Hdone' by exact Hdone.
  pose proof (SlideOut_run e (InternalTimer t2) wa tr t2 Htra Hta) as Hslide.
  cbn zeta in Hslide. rewrite Hdone' in Hslide.
  change (invoke registry (Some "SlideOut") e (InternalTimer t2) wa
          = Some (w1, callsFor e calls)) in Hinv.
  unfold invoke in Hinv. rewrite Hbound, Hslide in Hinv. simpl in Hinv.
  simplify_eq. rewrite lookup_store in Hleft. simplify_eq.
  unfold completedIn. subst t1 t2. fields. by rewrite Hpos.
Qed.
End FurtherPhases.

(** ** Paths and animation frames (Graphics.cpp) *)

Section BasicStringProperties.
Context {CharT : Type} `{EqDecision CharT}.
Implicit Types (chars s dir name : list CharT) (c : CharT).

Lemma find_last_of_None chars s :
  find_last_of chars s = None ↔ Forall (λ c, c ∉ chars) s.
Proof.
  induction s as [|c rest IH]; simpl.
  - split; [constructor|done].
  - destruct (find_last_of chars rest) as [pos|].
    + split; [done|]. intros Hall. apply Forall_cons in Hall as [_ Hrest].
      apply IH in Hrest. done.
    + case_bool_decide as Hc.
      * split; [done|]. intros Hall. by apply Forall_cons in Hall as [? _].
      * split; [|done]. intros _. constructor; [done|]. by apply IH.
Qed.

Lemma find_last_of_app chars dir c name :
  c ∈ chars → Forall (λ c, c ∉ chars) name →
  find_last_of chars (dir ++ c :: name) = Some (length dir).
Proof.
  intros Hc Hname. induction dir as [|d dir IH]; simpl.
  - apply find_last_of_None in Hname. rewrite Hname.
    by rewrite bool_decide_eq_true_2.
  - by rewrite IH.
Qed.

Lemma find_last_of_Some chars s pos :
  find_last_of chars s = Some pos →
  ∃ c name, s = take pos s ++ c :: name ∧ length (take pos s) = pos
    ∧ c ∈ chars ∧ Forall (λ c, c ∉ chars) name.
Proof.
  revert pos. induction s as [|d rest IH]; intros pos; simpl; [done|].
  destruct (find_last_of chars rest) as [pos'|] eqn:Hrest.
  - intros [= <-]. destruct (IH pos' eq_refl) as (c & name & Heq & Hlen & Hc & Hn).
    exists c, name. simpl. rewrite Hlen. split; [by rewrite <- Heq|done].
  - case_bool_decide as Hd; [|done]. intros [= <-].
    exists d, rest. simpl. split; [done|]. split; [done|]. split; [done|].
    by apply find_last_of_None.
Qed.

Lemma substr_prefix dir rest : substr (dir ++ rest) 0 (length dir) = dir.
Proof. unfold substr. by rewrite drop_0, take_app_length. Qed.

Lemma occurrences_app chars s1 s2 :
  occurrences chars (s1 ++ s2) = (occurrences chars s1 + occurrences chars s2)%nat.
Proof. unfold occurrences. by rewrite filter_app, length_app. Qed.

Lemma occurrences_none chars s :
  Forall (λ c, c ∉ chars) s ↔ occurrences chars s = 0%nat.
Proof.
  unfold occurrences. induction s as [|c rest IH]; simpl.
  - split; [done|constructor].
  - destruct (decide (c ∈ chars)) as [Hc|Hc].
    + rewrite filter_cons_True by done. simpl. split; [|done].
      intros Hall. by apply Forall_cons in Hall as [? _].
    + rewrite filter_cons_False by done. rewrite Forall_cons. tauto.
Qed.

Lemma parentLoop_none chars n s :
  Forall (λ c, c ∉ chars) s → parentLoop chars n s = s.
Proof.
  intros Hs. apply find_last_of_None in Hs. destruct n; simpl; [done|].
  by rewrite Hs.
Qed.

Lemma parentLoop_component chars n dir c name :
  c ∈ chars → Forall (λ c, c ∉ chars) name →
  parentLoop chars (S n) (dir ++ c :: name) = parentLoop chars n dir.
Proof.
  intros Hc Hname. simpl. rewrite find_last_of_app by done.
  by rewrite substr_prefix.
Qed.

Lemma parentLoop_add chars m : ∀ n s,
  parentLoop chars n (parentLoop chars m s) = parentLoop chars (m + n) s.
Proof.
  induction m as [|m IH]; intros n s; simpl; [done|].
  destruct (find_last_of chars s) as [pos|] eqn:Hs.
  - apply IH.
  - apply find_last_of_None in Hs. by apply parentLoop_none.
Qed.

Lemma parentLoop_drops chars n : ∀ s,
  ∃ rest, s = parentLoop chars n s ++ rest
    ∧ occurrences chars rest = (n `min` occurrences chars s)%nat
    ∧ (rest = [] ∨ ∃ c rest', rest = c :: rest' ∧ c ∈ chars).
Proof.
  induction n as [|n IH]; intros s; simpl.
  - exists []. rewrite app_nil_r. split; [done|]. split; [done|]. by left.
  - destruct (find_last_of chars s) as [pos|] eqn:Hs.
    + destruct (find_last_of_Some chars s pos Hs) as (c & name & Heq & Hlen & Hc & Hname).
      unfold substr; rewrite drop_0.
      remember (take pos s) as dir eqn:Hdir. clear Hdir Hlen Hs. subst s.
      destruct (IH dir) as (rest & Hrest & Hocc & Hhead).
      exists (rest ++ c :: name). split.
      { by rewrite app_assoc, <- Hrest. }
      split.
      { change (c :: name) with ([c] ++ name).
        rewrite !occurrences_app, Hocc.
        apply occurrences_none in Hname. rewrite Hname.
        assert (occurrences chars [c] = 1%nat) as ->.
        { unfold occurrences. by rewrite filter_cons_True. }
        replace (occurrences chars dir + (1 + 0))%nat with (S (occurrences chars dir)) by lia. lia. }
      right. destruct Hhead as [->|(c' & rest' & -> & Hc')].
      * by exists c, name.
      * by exists c', (rest' ++ c :: name).
    + exists []. rewrite app_nil_r. split; [done|].
      apply find_last_of_None, occurrences_none in Hs. rewrite Hs.
      split; [done|by left].
Qed.
End BasicStringProperties.

Section Paths.
Implicit Types (dir name path : list Ascii.ascii) (c : Ascii.ascii).

(** X15: [ExtractBasePath] returns what stands before the last slash or
    backslash of the path, and ["."] for a path without either. *)
Theorem ExtractBasePath_cuts_at_the_last_slash :
  (∀ path, Forall (λ c, c ∉ slashes) path → ExtractBasePath path = String.list_ascii_of_string ".")
  ∧ (∀ dir c name, c ∈ slashes → Forall (λ c, c ∉ slashes) name →
       ExtractBasePath (dir ++ c :: name) = dir)
  ∧ (∀ path, Forall (λ c, c ∉ slashes) path
       ∨ ∃ dir c name, path = dir ++ c :: name ∧ c ∈ slashes
           ∧ Forall (λ c, c ∉ slashes) name).
Proof.
  split; [|split].
  - intros path Hpath. unfold ExtractBasePath.
    apply find_last_of_None in Hpath. by rewrite Hpath.
  - intros dir c name Hc Hname. unfold ExtractBasePath.
    rewrite find_last_of_app by done. apply substr_prefix.
  - intros path. destruct (find_last_of slashes path) as [pos|] eqn:Hp.
    + right. destruct (find_last_of_Some slashes path pos Hp)
        as (c & name & Heq & _ & Hc & Hname).
      by exists (take pos path), c, name.
    + left. by apply find_last_of_None.
Qed.
End Paths.

Section ParentDirectories.
Implicit Types (directory dir name : list wchar_t) (c : wchar_t) (levels : Z).

(** X16: going up [m] levels and then [n] levels is going up [m + n] levels;
    a number of levels that is not positive leaves the directory as it
    is. *)
Theorem ExtractParentDirectory_composes directory :
  (∀ levels, levels <= 0 → ExtractParentDirectory directory levels = directory)
  ∧ (∀ m n, 0 <= m → 0 <= n →
       ExtractParentDirectory (ExtractParentDirectory directory m) n
       = ExtractParentDirectory directory (m + n)).
Proof.
  split.
  - intros levels Hle. unfold ExtractParentDirectory.
    by replace (Z.to_nat levels) with 0%nat by lia.
  - intros m n Hm Hn. unfold ExtractParentDirectory.
    rewrite parentLoop_add. f_equal. lia.
Qed.

(** X17: [ExtractParentDirectory] cuts the directory in front of one of its
    slashes or backslashes (or not at all), and what it cuts off holds
    [levels] of them, or all there are when the directory has fewer. *)
Theorem ExtractParentDirectory_drops_levels directory levels :
  0 <= levels →
  ∃ rest, directory = ExtractParentDirectory directory levels ++ rest
    ∧ Z.of_nat (occurrences wslashes rest)
      = levels `min` Z.of_nat (occurrences wslashes directory)
    ∧ (rest = [] ∨ ∃ c rest', rest = c :: rest' ∧ c ∈ wslashes).
Proof.
  intros Hle. unfold ExtractParentDirectory.
  destruct (parentLoop_drops wslashes (Z.to_nat levels) directory)
    as (rest & Heq & Hocc & Hhead).
  exists rest. split; [done|]. split; [lia|done].
Qed.

End ParentDirectories.

Section ExactAnimation.
Implicit Types (currFrame cols rows col row : Z).




End ExactAnimation.

(** ** The cell of an animation frame *)

Section AnimationCell.
Context `{FloatOps F} `{IntToFloat F}.
Implicit Types (currFrame cols rows col row : Z).

End AnimationCell.

(** ** The further properties on concrete worlds *)

Section MoreRegistry.
Context `{FloatOps F}.

Lemma scaleRegistry_keeps_tags : keeps_tags (scaleRegistry (F:=F)).
Proof.
  intros name e timer w w'. unfold scaleRegistry, ScaleUpEvent.
  case_bool_decide; [|by intros; simplify_eq].
  destruct (transforms w !! e); simpl; [|done]. by intros; simplify_eq.
Qed.

Lemma SlideOut_keeps e other timer w w' :
  other ≠ e → SlideOut other timer w = Some w' →
  timelines w' !! e = timelines w !! e.
Proof.
  intros Hne. unfold SlideOut.
  destruct (transforms w !! other) as [tr|]; simpl; [|done].
  destruct (timelines w !! other) as [t|]; simpl; [|done].
  destruct (f_ge _ _); intros; simplify_eq; [|done].
  by rewrite lookup_store_ne.
Qed.

Lemma Credits_keeps e other timer w w' :
  other ≠ e → Credits other timer w = Some w' →
  timelines w' !! e = timelines w !! e.
Proof.
  intros Hne. unfold Credits.
  destruct (transforms w !! other) as [tr|]; simpl; [|done].
  destruct (timelines w !! other) as [t|]; simpl; [|done].
  destruct (f_ge _ _); intros; simplify_eq; [|done].
  by rewrite lookup_store_ne.
Qed.

Lemma behaviorRegistry_keeps e : keeps_timeline_of (behaviorRegistry (F:=F)) e.
Proof.
  intros name other timer w w' Hne. unfold behaviorRegistry.
  case_bool_decide; [by apply SlideOut_keeps|].
  case_bool_decide; [by apply Credits_keeps|].
  case_bool_decide; [|by intros; simplify_eq].
  unfold ScaleUpEvent. destruct (transforms w !! other); simpl; [|done].
  by intros; simplify_eq.
Qed.
End MoreRegistry.

(** ** The registered callbacks write their own entity *)

Section OwnRegistry.
Context `{FloatOps F}.
Implicit Types (w : World F) (e : Entity).

Lemma scaleRegistry_own : own_entity_only (scaleRegistry (F:=F)).
Proof. apply visual_only_own, scaleRegistry_visual_only. Qed.

Lemma scaleRegistry_keeps_own name e :
  keeps_own_timeline (scaleRegistry (F:=F)) name e.
Proof.
  intros timer w w'. unfold scaleRegistry, ScaleUpEvent.
  case_bool_decide; [|by intros; simplify_eq].
  destruct (transforms w !! e); simpl; [|done]. by intros; simplify_eq.
Qed.

Lemma same_frame_transforms e tr w :
  is_Some (transforms w !! e) →
  same_frame w (with_transforms (<[e := tr]> (transforms w)) w).
Proof.
  intros Htr. split; [done|]. split; [done|]. split; [done|]. simpl.
  apply dom_insert_lookup_L. done.
Qed.

Lemma behaviorRegistry_own : own_entity_only (behaviorRegistry (F:=F)).
Proof.
  intros name e timer w [t Ht] [tr Htr]. unfold behaviorRegistry.
  case_bool_decide.
  { rewrite (SlideOut_run e timer w tr t Htr Ht). cbn zeta.
    eexists. split; [reflexivity|].
    destruct (f_ge _ _).
    - split; [eapply same_frame_trans;
               [by apply same_frame_transforms | apply same_frame_store]|].
      split; [rewrite lookup_store; by eexists|].
      intros other Hne. by rewrite lookup_store_ne.
    - split; [by apply same_frame_transforms|]. split; [by eexists | done]. }
  case_bool_decide.
  { rewrite (Credits_run e timer w tr t Htr Ht). cbn zeta.
    eexists. split; [reflexivity|].
    destruct (f_ge _ _).
    - split; [eapply same_frame_trans;
               [by apply same_frame_transforms | apply same_frame_store]|].
      split; [rewrite lookup_store; by eexists|].
      intros other Hne. by rewrite lookup_store_ne.
    - split; [by apply same_frame_transforms|]. split; [by eexists | done]. }
  exists w. split.
  { case_bool_decide; [|done]. unfold ScaleUpEvent. by rewrite Htr. }
  split; [apply same_frame_refl|]. split; [by eexists | done].
Qed.
End OwnRegistry.

Lemma Update_needs_the_three_components_witness :
  let w := bossWorld (F:=binary32) playing bossTimeline in
  is_Some (Update scaleRegistry seconds_1 w)
  ↔ (∀ e, e ∈ mEntities w → has_components w e).
Proof.
  intros w.
  apply (Update_needs_the_three_components scaleRegistry
           scaleRegistry_visual_only seconds_1 w).
  reflexivity.
Defined.

Lemma Update_tags_witness :
  let w := bossWorld (F:=binary32) playing (set_Active false bossTimeline) in
  ∃ w' calls, Update scaleRegistry seconds_1 w = Some (w', calls)
    ∧ ∀ e, tagsOf w' e =
        match timelines w !! e with
        | Some t =>
            if bool_decide (e ∈ mEntities w) && visible w e
            then tagged (TimelineTag t) (tagsOf w e) else tagsOf w e
        | None => tagsOf w e
        end.
Proof.
  intros w.
  apply (Update_tags scaleRegistry scaleRegistry_visual_only
           scaleRegistry_keeps_tags seconds_1 w).
  apply bossWorld_well_formed.
Defined.

Lemma tags_settle_in_the_first_frame_witness :
  let w := bossWorld (F:=binary32) playing bossTimeline in
  ∃ w1 calls1 w' calls',
    Update scaleRegistry seconds_0_5 w = Some (w1, calls1)
    ∧ frames scaleRegistry [seconds_1; seconds_2] w1 = Some (w', calls')
    ∧ ∀ e, tagsOf w' e = tagsOf w1 e.
Proof.
  intros w.
  apply (tags_settle_in_the_first_frame scaleRegistry scaleRegistry_visual_only
           scaleRegistry_keeps_tags seconds_0_5 [seconds_1; seconds_2] w).
  apply bossWorld_well_formed.
Defined.

Lemma ToggleActive_twice_witness :
  let w := bossWorld (F:=binary32) playing (set_Active false bossTimeline) in
  let w' := bossWorld (F:=binary32) playing bossTimeline in
  let out := {| cout := [activatedMessage "Boss" 7%N]; cerr := [] |} in
  ToggleActive "Boss" w' = Some (w', out).
Proof.
  intros w w' out. apply (ToggleActive_twice "Boss" w w' out).
  vm_compute; reflexivity.
Defined.

Lemma ToggleActive_commute_witness :
  let w := bossWorld (F:=binary32) playing (set_Active false bossTimeline) in
  ∃ wa outa wab outab wb outb wba outba,
    ToggleActive "Boss" w = Some (wa, outa)
    ∧ ToggleActive "Minion" wa = Some (wab, outab)
    ∧ ToggleActive "Minion" w = Some (wb, outb)
    ∧ ToggleActive "Boss" wb = Some (wba, outba)
    ∧ wab = wba.
Proof.
  intros w. apply (ToggleActive_commute "Boss" "Minion" w).
  repeat constructor. by eexists.
Defined.

Lemma frames_invoke_what_the_state_machine_prescribes_witness :
  let w := bossWorld (F:=binary32) playing bossTimeline in
  let dts := [seconds_1; seconds_1; seconds_1] in
  ∃ w' calls, frames scaleRegistry dts w = Some (w', calls)
    ∧ callsFor 7%N calls = invocationsOf dts 7%N bossTimeline
    ∧ timelines w' !! 7%N = Some (runTimeline dts bossTimeline).
Proof.
  intros w dts.
  apply (frames_invoke_what_the_state_machine_prescribes scaleRegistry
           scaleRegistry_visual_only dts w 7%N bossTimeline).
  - apply bossWorld_well_formed.
  - apply list_elem_of_singleton. reflexivity.
  - reflexivity.
  - reflexivity.
Defined.

Lemma SlideOut_touches_its_entity_only_witness :
  let w := bossWorld (F:=Q) playing slidingTimeline in
  is_Some (SlideOut 7%N 1%Q w).
Proof.
  intros w. apply (proj1 (SlideOut_touches_its_entity_only 7%N 1%Q w)).
  split; by eexists.
Defined.

Lemma SlideOut_timeline_is_never_deactivated_witness :
  let w := bossWorld (F:=Q) playing slidingTimeline in
  ∃ w' calls t',
    frames behaviorRegistry [1%Q; 1%Q; 1%Q] w = Some (w', calls)
    ∧ timelines w' !! 7%N = Some t' ∧ sliding_out t'.
Proof.
  intros w.
  destruct (frames behaviorRegistry [1%Q; 1%Q; 1%Q] w) as [[w' calls]|] eqn:Hrun;
    [|vm_compute in Hrun; discriminate].
  destruct (SlideOut_timeline_is_never_deactivated behaviorRegistry 7%N
              [1%Q; 1%Q; 1%Q] w w' calls slidingTimeline) as (t' & Ht' & Hs).
  - reflexivity.
  - apply behaviorRegistry_keeps.
  - reflexivity.
  - repeat split.
  - exact Hrun.
  - by exists w', calls, t'.
Defined.

Lemma Credits_timeline_stays_in_the_in_phase_witness :
  let w := bossWorld (F:=Q) playing creditsTimeline in
  ∃ w' calls t',
    frames behaviorRegistry [1%Q; 1%Q; 1%Q] w = Some (w', calls)
    ∧ timelines w' !! 7%N = Some t' ∧ rolling_credits t'.
Proof.
  intros w.
  destruct (frames behaviorRegistry [1%Q; 1%Q; 1%Q] w) as [[w' calls]|] eqn:Hrun;
    [|vm_compute in Hrun; discriminate].
  destruct (Credits_timeline_stays_in_the_in_phase behaviorRegistry 7%N
              [1%Q; 1%Q; 1%Q] w w' calls creditsTimeline) as (t' & Ht' & Hs).
  - reflexivity.
  - apply behaviorRegistry_keeps.
  - reflexivity.
  - repeat split.
  - exact Hrun.
  - by exists w', calls, t'.
Defined.

Lemma ExtractBasePath_cuts_at_the_last_slash_witness :
  ExtractBasePath (String.list_ascii_of_string "Assets/Scene/GameLevel.json")
  = String.list_ascii_of_string "Assets/Scene".
Proof.
  apply (proj1 (proj2 ExtractBasePath_cuts_at_the_last_slash)
           (String.list_ascii_of_string "Assets/Scene")
           (Ascii.ascii_of_nat 47)
           (String.list_ascii_of_string "GameLevel.json")).
  - compute_done.
  - compute_done.
Defined.

Lemma ExtractParentDirectory_composes_witness :
  ExtractParentDirectory (ExtractParentDirectory [67; 92; 97; 47; 98]%N 1) 1
  = ExtractParentDirectory [67; 92; 97; 47; 98]%N (1 + 1).
Proof.
  apply (proj2 (ExtractParentDirectory_composes [67; 92; 97; 47; 98]%N) 1 1); lia.
Defined.

Lemma ExtractParentDirectory_drops_levels_witness :
  let directory := [67; 92; 97; 47; 98]%N in
  ∃ rest, directory = ExtractParentDirectory directory 2 ++ rest
    ∧ Z.of_nat (occurrences wslashes rest)
      = 2 `min` Z.of_nat (occurrences wslashes directory)
    ∧ (rest = [] ∨ ∃ c rest', rest = c :: rest' ∧ c ∈ wslashes).
Proof.
  intros directory. apply (ExtractParentDirectory_drops_levels directory 2). lia.
Defined.

Lemma delay_only_accumulates_witness :
  let t := bossTimeline (F:=binary32) in
  let w := bossWorld playing t in
  let quarter := b32 8388608 (-25) in
  let dts := [quarter; quarter; quarter] in
  ∃ w' calls, frames behaviorRegistry dts w = Some (w', calls)
    ∧ timelines w' !! 7%N
      = Some (set_DelayAccumulated (foldl f_add (DelayAccumulated t) dts) t)
    ∧ callsFor 7%N calls = [].
Proof.
  intros t w quarter dts.
  apply (delay_only_accumulates behaviorRegistry behaviorRegistry_own dts 7%N w t).
  - apply bossWorld_well_formed.
  - apply list_elem_of_singleton. reflexivity.
  - reflexivity.
  - reflexivity.
  - reflexivity.
  - reflexivity.
  - intros [|[|[|k]]] Hk; [reflexivity..|]. simpl in Hk. lia.
Defined.

Lemma SlideOut_as_TransitionIn_keeps_the_delay_witness :
  let t := set_TransitionIn (Some "SlideOut") (bossTimeline (F:=binary32)) in
  let w := bossWorld playing t in
  let t1 := set_DelayAccumulated (f_add (DelayAccumulated t) seconds_2) t in
  let t2 := set_InternalTimer (f_add (InternalTimer t) seconds_2) t1 in
  ∃ w' calls, Update behaviorRegistry seconds_2 w = Some (w', calls)
    ∧ callsFor 7%N calls = [("SlideOut", 7%N, InternalTimer t2)]
    ∧ timelines w' !! 7%N
      = Some (set_InternalTimer f_zero (set_IsTransitioningIn false t2)).
Proof.
  intros t w.
  apply (SlideOut_as_TransitionIn_keeps_the_delay behaviorRegistry
           behaviorRegistry_own seconds_2 7%N w t).
  - reflexivity.
  - apply bossWorld_well_formed.
  - apply list_elem_of_singleton. reflexivity.
  - reflexivity.
  - reflexivity.
  - reflexivity.
  - reflexivity.
  - reflexivity.
  - reflexivity.
  - reflexivity.
  - reflexivity.
Defined.


(** ** The phases on concrete worlds *)

(** C1, as stated, fails.  At 60 frames per second: 180 positive frame
    times whose values add up to 3 exactly, from a delay of 1.0, a duration
    of 2.0 and nothing accumulated; binary32 addition leaves the timer
    below 2.0 and [IsTransitioningIn] is true after every frame.  And with
    the registered [Credits] as [TransitionIn], over three frames of one
    second the timer reaches 2.0 in the second frame, the callback resets
    it, and the flag is true after every frame. *)
Lemma in_phase_need_not_complete :
  (let w := bossWorld (F:=binary32) playing bossTimeline in
   TransitionInDelay (bossTimeline (F:=binary32)) = seconds_1
   ∧ TransitionDuration (bossTimeline (F:=binary32)) = seconds_2
   ∧ Forall (λ d, (0 < value d)%Q) threeSeconds
   ∧ (total (value <$> threeSeconds) == 3)%Q
   ∧ (λ k, IsTransitioningIn <$>
             timelineAfter scaleRegistry (take k threeSeconds) 7%N w)
       <$> seq 0 181
     = replicate 181 (Some true))
  ∧ (let t := set_TransitionIn (Some "CreditsY") (bossTimeline (F:=binary32)) in
     let w := bossWorld playing t in
     snd <$> frames behaviorRegistry [seconds_1; seconds_1; seconds_1] w
       = Some [("CreditsY", 7%N, seconds_1); ("CreditsY", 7%N, seconds_2);
               ("CreditsY", 7%N, seconds_1)]
     ∧ (λ k, IsTransitioningIn <$>
               timelineAfter behaviorRegistry
                 (take k [seconds_1; seconds_1; seconds_1]) 7%N w)
         <$> seq 0 4
       = replicate 4 (Some true)).
Proof.
  split.
  - intros w. split; [reflexivity|]. split; [vm_compute; reflexivity|].
    split; [|split].
    + apply Forall_app. split; [apply Forall_replicate | repeat constructor];
        reflexivity.
    + vm_compute. reflexivity.
    + vm_compute. reflexivity.
  - intros t w. split; vm_compute; reflexivity.
Qed.

Lemma transition_in_phase_witness :
  let t := bossTimeline (F:=binary32) in
  let w := bossWorld playing t in
  let t1 := set_DelayAccumulated (f_add (DelayAccumulated t) seconds_1) t in
  let t2 := set_InternalTimer (f_add (InternalTimer t) seconds_1) t1 in
  ∃ w' calls, Update scaleRegistry seconds_1 w = Some (w', calls)
    ∧ (f_lt (DelayAccumulated t1) (TransitionInDelay t) = true →
         timelines w' !! 7%N = Some t1 ∧ callsFor 7%N calls = [])
    ∧ (f_lt (DelayAccumulated t1) (TransitionInDelay t) = false →
         callsFor 7%N calls = invocation (TransitionIn t) 7%N (InternalTimer t2)
         ∧ (∃ wa w1 left,
              timelines wa !! 7%N = Some t2
              ∧ invoke scaleRegistry (TransitionIn t) 7%N (InternalTimer t2) wa
                = Some (w1, callsFor 7%N calls)
              ∧ timelines w1 !! 7%N = Some left
              ∧ timelines w' !! 7%N = Some (completedIn left))
         ∧ ((∀ name, TransitionIn t = Some name →
               keeps_own_timeline (scaleRegistry (F:=binary32)) name 7%N) →
            timelines w' !! 7%N = Some (completedIn t2))).
Proof.
  intros t w.
  apply (proj1 transition_in_phase binary32 _ scaleRegistry seconds_1 7%N w t).
  - apply scaleRegistry_own.
  - apply bossWorld_well_formed.
  - apply list_elem_of_singleton. reflexivity.
  - reflexivity.
  - reflexivity.
  - reflexivity.
  - reflexivity.
Defined.

Lemma unbound_callback_is_tolerated_witness :
  let t := set_TransitionIn None (bossTimeline (F:=binary32)) in
  let w := bossWorld playing t in
  ∃ w' calls, Update behaviorRegistry seconds_1 w = Some (w', calls)
    ∧ timelines w' !! 7%N = Some (stepTimeline seconds_1 t)
    ∧ callsFor 7%N calls = [].
Proof.
  intros t w.
  apply (unbound_callback_is_tolerated behaviorRegistry seconds_1 7%N w t).
  - apply behaviorRegistry_own.
  - apply bossWorld_well_formed.
  - apply list_elem_of_singleton. reflexivity.
  - reflexivity.
  - reflexivity.
  - reflexivity.
  - reflexivity.
Defined.

(** C5, as stated, fails: with the registered [SlideOut] as [TransitionOut]
    and nothing to wait for, a frame of two seconds takes the timer to the
    duration of 2.0; the callback is handed that timer and resets it, and
    [Active] is still true after [Update]. *)
Lemma SlideOut_timeline_is_not_deactivated :
  let t := set_TransitionOut (Some "SlideOut")
             (set_IsTransitioningIn false (bossTimeline (F:=binary32))) in
  let w := bossWorld playing t in
  IsTransitioningIn t = false
  ∧ f_ge (f_add (DelayOutAccumulated t) seconds_2) (TransitionOutDelay t) = true
  ∧ f_ge (f_add (InternalTimer t) seconds_2) (TransitionDuration t) = true
  ∧ (snd <$> Update behaviorRegistry seconds_2 w)
    = Some [("SlideOut", 7%N, seconds_2)]
  ∧ (Active <$> timelineAfter behaviorRegistry [seconds_2] 7%N w) = Some true.
Proof. intros t w. repeat split; vm_compute; reflexivity. Qed.

Lemma deactivated_timeline_is_terminal_witness :
  let t := set_IsTransitioningIn false (bossTimeline (F:=binary32)) in
  let w := bossWorld playing t in
  let t1 := set_DelayOutAccumulated (f_add (DelayOutAccumulated t) seconds_2) t in
  let t2 := set_InternalTimer (f_add (InternalTimer t) seconds_2) t1 in
  ∃ w' calls, Update scaleRegistry seconds_2 w = Some (w', calls)
    ∧ callsFor 7%N calls = [("FadeOut", 7%N, seconds_2)]
    ∧ timelines w' !! 7%N = Some (set_Active false t2).
Proof.
  intros t w t1 t2.
  destruct (proj1 (deactivated_timeline_is_terminal scaleRegistry 7%N)
              seconds_2 w t) as (w' & calls & Hrun & Hcalls & _ & Hafter).
  - apply scaleRegistry_own.
  - apply bossWorld_well_formed.
  - apply list_elem_of_singleton. reflexivity.
  - reflexivity.
  - reflexivity.
  - reflexivity.
  - reflexivity.
  - reflexivity.
  - exists w', calls. split; [exact Hrun|]. split; [exact Hcalls|].
    apply Hafter; [|reflexivity]. intros name _. apply scaleRegistry_keeps_own.
Defined.
